(** * A shallow embedding of [docs/dump/analyze_hprof.py]

    The script makes one forward pass over an hprof heap dump: a
    NUL-terminated header, the identifier width and a timestamp, then
    tagged records.  STRING and LOAD_CLASS records fill the name tables,
    HEAP_DUMP / HEAP_DUMP_SEGMENT records are decoded sub-record by
    sub-record, and a report is derived from the tables at the end.

    The embedding threads the local variables of [analyze_hprof] and the
    position of the open file through a small state-and-exception monad.
    Loops that Python writes as [while] take a fuel argument; running out
    of fuel is a separate outcome ([Hang]), distinct from a raised
    exception. *)

From Stdlib Require Import ZArith List Bool Lia Strings.Byte Ascii String.
From stdpp Require Import gmap list fin_maps.
Import ListNotations.

Local Open Scope Z_scope.

(** ** Bytes and Python text *)

Abbreviation byte := Byte.byte.

Definition byte_val (b : byte) : Z := Z.of_N (Byte.to_N b).

(** [bytes_of] builds a byte string from small numbers, as a [b'..'] literal does. *)
Definition byte_of_Z (n : Z) : byte :=
  match Byte.of_N (Z.to_N n) with Some b => b | None => Byte.x00 end.

Definition bytes_of (l : list Z) : list byte := map byte_of_Z l.

(** A Python [str] is a sequence of code points. *)
Abbreviation pystr := (list Z).

Definition py (s : string) : pystr :=
  map (fun a => Z.of_N (N_of_ascii a)) (list_ascii_of_string s).

Definition ascii_bytes (s : string) : list byte :=
  map byte_of_ascii (list_ascii_of_string s).

(** *** [bytes.decode('utf-8', errors='replace')]

    Every maximal ill-formed prefix is replaced by one U+FFFD and decoding
    resumes right after it; a sequence cut short by the end of the data is
    replaced as a whole. *)

Definition REPLACEMENT : Z := 0xFFFD.

Definition is_cont (c : Z) : bool := (0x80 <=? c) && (c <=? 0xBF).

Definition second_ok (c0 c1 : Z) : bool :=
  if c0 =? 0xE0 then (0xA0 <=? c1) && (c1 <=? 0xBF)
  else if c0 =? 0xED then (0x80 <=? c1) && (c1 <=? 0x9F)
  else if c0 =? 0xF0 then (0x90 <=? c1) && (c1 <=? 0xBF)
  else if c0 =? 0xF4 then (0x80 <=? c1) && (c1 <=? 0x8F)
  else is_cont c1.

Fixpoint utf8_decode (bs : list byte) : pystr :=
  match bs with
  | [] => []
  | b0 :: r1 =>
    let c0 := byte_val b0 in
    if c0 <? 0x80 then c0 :: utf8_decode r1
    else if (c0 <? 0xC2) || (0xF4 <? c0) then REPLACEMENT :: utf8_decode r1
    else
      match r1 with
      | [] => [REPLACEMENT]
      | b1 :: r2 =>
        let c1 := byte_val b1 in
        if negb (second_ok c0 c1) then REPLACEMENT :: utf8_decode r1
        else if c0 <? 0xE0 then
          ((c0 - 0xC0) * 64 + (c1 - 0x80)) :: utf8_decode r2
        else
          match r2 with
          | [] => [REPLACEMENT]
          | b2 :: r3 =>
            let c2 := byte_val b2 in
            if negb (is_cont c2) then REPLACEMENT :: utf8_decode r2
            else if c0 <? 0xF0 then
              ((c0 - 0xE0) * 4096 + (c1 - 0x80) * 64 + (c2 - 0x80))
                :: utf8_decode r3
            else
              match r3 with
              | [] => [REPLACEMENT]
              | b3 :: r4 =>
                let c3 := byte_val b3 in
                if negb (is_cont c3) then REPLACEMENT :: utf8_decode r3
                else
                  ((c0 - 0xF0) * 262144 + (c1 - 0x80) * 4096
                   + (c2 - 0x80) * 64 + (c3 - 0x80)) :: utf8_decode r4
              end
          end
      end
  end.

(** *** [needle in text] on [str] *)

Fixpoint startswith (p s : pystr) : bool :=
  match p, s with
  | [], _ => true
  | _ :: _, [] => false
  | a :: p', b :: s' => (a =? b) && startswith p' s'
  end.

Fixpoint str_in (p s : pystr) : bool :=
  startswith p s ||
  match s with
  | [] => false
  | _ :: s' => str_in p s'
  end.

(** *** [f'{n:#x}'] *)

Definition hex_digit (d : Z) : Z :=
  if d <? 10 then 48 + d else 87 + d.

Fixpoint hex_digits (fuel : nat) (n : Z) (acc : pystr) : pystr :=
  match fuel with
  | O => acc
  | S k =>
    let acc' := hex_digit (n mod 16) :: acc in
    if n / 16 =? 0 then acc' else hex_digits k (n / 16) acc'
  end.

Definition format_hex (n : Z) : pystr :=
  py "0x" ++ hex_digits (S (Z.to_nat (Z.log2 n))) n [].

(** ** Constants of the script *)

Definition TAG_STRING : Z := 0x01.
Definition TAG_LOAD_CLASS : Z := 0x02.
Definition TAG_HEAP_DUMP : Z := 0x0C.
Definition TAG_HEAP_DUMP_SEGMENT : Z := 0x1C.

Definition SUB_ROOT_JNI_GLOBAL : Z := 0x01.
Definition SUB_ROOT_JNI_LOCAL : Z := 0x02.
Definition SUB_ROOT_JAVA_FRAME : Z := 0x03.
Definition SUB_ROOT_NATIVE_STACK : Z := 0x04.
Definition SUB_ROOT_STICKY_CLASS : Z := 0x05.
Definition SUB_ROOT_THREAD_BLOCK : Z := 0x06.
Definition SUB_ROOT_MONITOR_USED : Z := 0x07.
Definition SUB_ROOT_THREAD_OBJ : Z := 0x08.
Definition SUB_CLASS_DUMP : Z := 0x20.
Definition SUB_INSTANCE_DUMP : Z := 0x21.
Definition SUB_OBJ_ARRAY_DUMP : Z := 0x22.
Definition SUB_PRIM_ARRAY_DUMP : Z := 0x23.

(** [BASIC_TYPE_SIZES.get(tp, default)] *)
Definition BASIC_TYPE_SIZES_get (tp default : Z) : Z :=
  if tp =? 2 then 4
  else if tp =? 4 then 1
  else if tp =? 5 then 2
  else if tp =? 6 then 4
  else if tp =? 7 then 8
  else if tp =? 8 then 1
  else if tp =? 9 then 2
  else if tp =? 10 then 4
  else if tp =? 11 then 8
  else default.

(** ** Outcomes and the local state of [analyze_hprof] *)

(** The exceptions the script can meet: [struct.error] from [struct.unpack]
    on a short buffer, [ValueError] from [f.read(n)] with [n < -1], and
    [OverflowError] from [f.read(n)] with a count beyond [Py_ssize_t]
    (64-bit CPython).  Allocation of a read buffer is taken to succeed. *)
Inductive pyexn : Type := StructError | ValueError | OverflowError.

Inductive outcome (A : Type) : Type :=
| Done (a : A)
| Raise (e : pyexn)
| Hang.

Arguments Done {A} a.
Arguments Raise {A} e.
Arguments Hang {A}.

(** The first components of the tuples appended to [gc_roots]. *)
Inductive root_type : Type :=
| JNI_GLOBAL | JNI_LOCAL | JAVA_FRAME | NATIVE_STACK | STICKY_CLASS
| THREAD_BLOCK | MONITOR_USED | THREAD_OBJ | UNKNOWN.

Definition root_type_eqb (a b : root_type) : bool :=
  match a, b with
  | JNI_GLOBAL, JNI_GLOBAL | JNI_LOCAL, JNI_LOCAL | JAVA_FRAME, JAVA_FRAME
  | NATIVE_STACK, NATIVE_STACK | STICKY_CLASS, STICKY_CLASS
  | THREAD_BLOCK, THREAD_BLOCK | MONITOR_USED, MONITOR_USED
  | THREAD_OBJ, THREAD_OBJ | UNKNOWN, UNKNOWN => true
  | _, _ => false
  end.

(** A [collections.Counter] keeps its keys in first-insertion order. *)
Fixpoint counter_incr {K : Type} (eqb : K -> K -> bool) (k : K)
    (c : list (K * Z)) : list (K * Z) :=
  match c with
  | [] => [(k, 1)]
  | (k', n) :: c' =>
    if eqb k' k then (k', n + 1) :: c' else (k', n) :: counter_incr eqb k c'
  end.

Fixpoint counter_get {K : Type} (eqb : K -> K -> bool) (k : K)
    (c : list (K * Z)) : Z :=
  match c with
  | [] => 0
  | (k', n) :: c' => if eqb k' k then n else counter_get eqb k c'
  end.

Definition Counter_of {K : Type} (eqb : K -> K -> bool) (l : list K)
    : list (K * Z) :=
  fold_left (fun c k => counter_incr eqb k c) l [].

Fixpoint str_eqb (a b : pystr) : bool :=
  match a, b with
  | [], [] => true
  | x :: a', y :: b' => (x =? y) && str_eqb a' b'
  | _, _ => false
  end.

Record state : Type := mkState {
  f_pos : Z;                                (* f.tell() *)
  strings : gmap Z pystr;
  class_names : gmap Z Z;
  class_id_to_serial : gmap Z Z;
  class_id_to_name : gmap Z pystr;
  instance_counts : list (pystr * Z);
  gc_roots : list (root_type * Z);
  activity_instances : list (Z * pystr);
  service_instances : list (Z * pystr);
  scope_instances : list (Z * pystr);
  view_instances : list (Z * pystr);
  class_super : gmap Z Z;
  record_count : Z;
  heap_records : Z
}.

Definition initial_state : state :=
  mkState 0 ∅ ∅ ∅ ∅ [] [] [] [] [] [] ∅ 0 0.

Definition set_pos (p : Z) (s : state) : state :=
  mkState p (strings s) (class_names s) (class_id_to_serial s)
    (class_id_to_name s) (instance_counts s) (gc_roots s)
    (activity_instances s) (service_instances s) (scope_instances s)
    (view_instances s) (class_super s) (record_count s) (heap_records s).

Definition set_strings (v : gmap Z pystr) (s : state) : state :=
  mkState (f_pos s) v (class_names s) (class_id_to_serial s)
    (class_id_to_name s) (instance_counts s) (gc_roots s)
    (activity_instances s) (service_instances s) (scope_instances s)
    (view_instances s) (class_super s) (record_count s) (heap_records s).

Definition set_class_names (v : gmap Z Z) (s : state) : state :=
  mkState (f_pos s) (strings s) v (class_id_to_serial s)
    (class_id_to_name s) (instance_counts s) (gc_roots s)
    (activity_instances s) (service_instances s) (scope_instances s)
    (view_instances s) (class_super s) (record_count s) (heap_records s).

Definition set_class_id_to_serial (v : gmap Z Z) (s : state) : state :=
  mkState (f_pos s) (strings s) (class_names s) v
    (class_id_to_name s) (instance_counts s) (gc_roots s)
    (activity_instances s) (service_instances s) (scope_instances s)
    (view_instances s) (class_super s) (record_count s) (heap_records s).

Definition set_class_id_to_name (v : gmap Z pystr) (s : state) : state :=
  mkState (f_pos s) (strings s) (class_names s) (class_id_to_serial s)
    v (instance_counts s) (gc_roots s)
    (activity_instances s) (service_instances s) (scope_instances s)
    (view_instances s) (class_super s) (record_count s) (heap_records s).

Definition set_instance_counts (v : list (pystr * Z)) (s : state) : state :=
  mkState (f_pos s) (strings s) (class_names s) (class_id_to_serial s)
    (class_id_to_name s) v (gc_roots s)
    (activity_instances s) (service_instances s) (scope_instances s)
    (view_instances s) (class_super s) (record_count s) (heap_records s).

Definition set_gc_roots (v : list (root_type * Z)) (s : state) : state :=
  mkState (f_pos s) (strings s) (class_names s) (class_id_to_serial s)
    (class_id_to_name s) (instance_counts s) v
    (activity_instances s) (service_instances s) (scope_instances s)
    (view_instances s) (class_super s) (record_count s) (heap_records s).

Definition set_activity_instances (v : list (Z * pystr)) (s : state) : state :=
  mkState (f_pos s) (strings s) (class_names s) (class_id_to_serial s)
    (class_id_to_name s) (instance_counts s) (gc_roots s)
    v (service_instances s) (scope_instances s)
    (view_instances s) (class_super s) (record_count s) (heap_records s).

Definition set_service_instances (v : list (Z * pystr)) (s : state) : state :=
  mkState (f_pos s) (strings s) (class_names s) (class_id_to_serial s)
    (class_id_to_name s) (instance_counts s) (gc_roots s)
    (activity_instances s) v (scope_instances s)
    (view_instances s) (class_super s) (record_count s) (heap_records s).

Definition set_scope_instances (v : list (Z * pystr)) (s : state) : state :=
  mkState (f_pos s) (strings s) (class_names s) (class_id_to_serial s)
    (class_id_to_name s) (instance_counts s) (gc_roots s)
    (activity_instances s) (service_instances s) v
    (view_instances s) (class_super s) (record_count s) (heap_records s).

Definition set_view_instances (v : list (Z * pystr)) (s : state) : state :=
  mkState (f_pos s) (strings s) (class_names s) (class_id_to_serial s)
    (class_id_to_name s) (instance_counts s) (gc_roots s)
    (activity_instances s) (service_instances s) (scope_instances s)
    v (class_super s) (record_count s) (heap_records s).

Definition set_class_super (v : gmap Z Z) (s : state) : state :=
  mkState (f_pos s) (strings s) (class_names s) (class_id_to_serial s)
    (class_id_to_name s) (instance_counts s) (gc_roots s)
    (activity_instances s) (service_instances s) (scope_instances s)
    (view_instances s) v (record_count s) (heap_records s).

Definition set_record_count (v : Z) (s : state) : state :=
  mkState (f_pos s) (strings s) (class_names s) (class_id_to_serial s)
    (class_id_to_name s) (instance_counts s) (gc_roots s)
    (activity_instances s) (service_instances s) (scope_instances s)
    (view_instances s) (class_super s) v (heap_records s).

Definition set_heap_records (v : Z) (s : state) : state :=
  mkState (f_pos s) (strings s) (class_names s) (class_id_to_serial s)
    (class_id_to_name s) (instance_counts s) (gc_roots s)
    (activity_instances s) (service_instances s) (scope_instances s)
    (view_instances s) (class_super s) (record_count s) v.

(** ** The monad: local state, exceptions, divergence *)

Definition M (A : Type) : Type := state -> outcome (A * state).

Definition ret {A : Type} (a : A) : M A := fun s => Done (a, s).

Definition bind {A B : Type} (m : M A) (k : A -> M B) : M B :=
  fun s =>
    match m s with
    | Done (a, s') => k a s'
    | Raise e => Raise e
    | Hang => Hang
    end.

Definition raise {A : Type} (e : pyexn) : M A := fun _ => Raise e.
Definition hang {A : Type} : M A := fun _ => Hang.
Definition get : M state := fun s => Done (s, s).
Definition modify (g : state -> state) : M unit := fun s => Done (tt, g s).

Declare Scope py_scope.
Delimit Scope py_scope with py.
Notation "x <- m ;; k" := (bind m (fun x => k))
  (at level 100, m at next level, right associativity) : py_scope.
Notation "m ;;; k" := (bind m (fun _ => k))
  (at level 100, right associativity) : py_scope.

Local Open Scope py_scope.

Fixpoint for_range (n : nat) (body : M unit) : M unit :=
  match n with
  | O => ret tt
  | S k => body ;;; for_range k body
  end.

(** [struct.unpack] of one big-endian unsigned field of [n] bytes. *)
Definition be_value (bs : list byte) : Z :=
  fold_left (fun acc b => acc * 256 + byte_val b) bs 0.

Definition unpack (n : nat) (bs : list byte) : M Z :=
  if Nat.eqb (List.length bs) n then ret (be_value bs) else raise StructError.

(** ** Leak heuristics *)

Inductive category : Type := Activity | Service | Scope | ViewFragment.

Definition PACKAGE : pystr := py "me/ikate/findmy".

Definition suspect_keywords : list pystr :=
  map py
    ["MqttConnectionManager"; "LocationMqttService"; "MqttForegroundService";
     "SmartLocationSyncManager"; "LocationReportService"; "DeviceRepository";
     "ContactRepository"; "AuthRepository"; "CommunicationManager";
     "SmartLocator"; "TencentLocationService"; "TencentLocationManager";
     "GeofenceManager"; "LocationStateMachine"; "SoundPlaybackService";
     "LostModeService"; "MainViewModel"; "ContactViewModel"]%string.

Definition singleton_markers : list pystr :=
  map py ["Manager"; "Service"; "Repository"; "Singleton"; "ViewModel"]%string.

(** [sorted(items, key=lambda x: -x[1])] and [Counter.most_common()]:
    a stable sort by decreasing count. *)
Fixpoint insert_desc {K : Type} (x : K * Z) (l : list (K * Z)) : list (K * Z) :=
  match l with
  | [] => [x]
  | y :: l' => if snd x <? snd y then y :: insert_desc x l' else x :: l
  end.

Definition sorted_desc {K : Type} (l : list (K * Z)) : list (K * Z) :=
  fold_right insert_desc [] l.

Section Decoder.

(** Python lowers a non-ASCII code point through the Unicode case tables
    (with the final-sigma rule, which looks at the neighbours); the
    tables are not part of the script, so the lowering of the code point
    at index [i] of [s] is a parameter.  ASCII is lowered here. *)
Variable lower_nonascii : pystr -> nat -> pystr.

Definition ascii_lower (c : Z) : Z :=
  if (0x41 <=? c) && (c <=? 0x5A) then c + 32 else c.

Definition lower (s : pystr) : pystr :=
  concat (imap (fun i c =>
                  if c <? 128 then [ascii_lower c] else lower_nonascii s i) s).

(** The [if]/[elif] chain of the INSTANCE_DUMP branch. *)
Definition classify (class_name : pystr) : option category :=
  let cn_lower := lower class_name in
  if str_in (py "activity") cn_lower && str_in PACKAGE class_name
  then Some Activity
  else if str_in (py "service") cn_lower && str_in PACKAGE class_name
  then Some Service
  else if str_in (py "coroutinescope") cn_lower
          || str_in (py "supervisorjob") cn_lower
          || str_in (py "jobimpl") cn_lower
  then Some Scope
  else if (str_in (py "view") cn_lower || str_in (py "fragment") cn_lower)
          && str_in PACKAGE class_name
  then Some ViewFragment
  else None.

(** The bytes of the file being analysed. *)
Variable content : list byte.

(** [f.read(n)] on a buffered binary file: a count below [-1] is refused,
    [-1] reads to the end, otherwise at most [n] bytes are returned; a
    position at or past the end yields [b''] and does not move. *)
Definition read (n : Z) : M (list byte) :=
  fun s =>
    if n <? -1 then Raise ValueError
    else if 2 ^ 63 <=? n then Raise OverflowError
    else
      let size := Z.of_nat (List.length content) in
      let pos := f_pos s in
      if size <=? pos then Done ([], s)
      else
        let rest := skipn (Z.to_nat pos) content in
        let got :=
          if n =? -1 then rest
          else firstn (Z.to_nat (Z.min n (size - pos))) rest in
        Done (got, set_pos (pos + Z.of_nat (List.length got)) s).

Definition tell : M Z := fun s => Done (f_pos s, s).
Definition seek (p : Z) : M unit := modify (set_pos p).

Definition read_u8 : M Z := bs <- read 1 ;; unpack 1 bs.
Definition read_u16 : M Z := bs <- read 2 ;; unpack 2 bs.
Definition read_u32 : M Z := bs <- read 4 ;; unpack 4 bs.
Definition read_u64 : M Z := bs <- read 8 ;; unpack 8 bs.

(** The header loop: [while True: b = f.read(1); if b == b'\x00': break;
    header += b]. *)
Fixpoint header_loop (fuel : nat) (header : list byte) : M (list byte) :=
  match fuel with
  | O => hang
  | S k =>
    b <- read 1 ;;
    match b with
    | [Byte.x00] => ret header
    | _ => header_loop k (header ++ b)
    end
  end.

Section Records.

(** The value unpacked from the four bytes after the header. *)
Variable id_size : Z.

Definition read_id : M Z :=
  if id_size =? 4 then read_u32 else read_u64.

Definition append_root (t : root_type) (obj_id : Z) : M unit :=
  modify (fun s => set_gc_roots (gc_roots s ++ [(t, obj_id)]) s).

Definition placeholder (class_id : Z) : pystr :=
  py "unknown_" ++ format_hex class_id.

(** [class_id_to_name.get(class_id, f'unknown_{class_id:#x}')] *)
Definition resolve_name (s : state) (class_id : Z) : pystr :=
  default (placeholder class_id) (class_id_to_name s !! class_id).

(** The bookkeeping of the INSTANCE_DUMP branch after its reads. *)
Definition tally_instance (obj_id class_id : Z) : M unit :=
  modify (fun s =>
    let class_name := resolve_name s class_id in
    let s := set_instance_counts
               (counter_incr str_eqb class_name (instance_counts s)) s in
    match classify class_name with
    | Some Activity =>
      set_activity_instances (activity_instances s ++ [(obj_id, class_name)]) s
    | Some Service =>
      set_service_instances (service_instances s ++ [(obj_id, class_name)]) s
    | Some Scope =>
      set_scope_instances (scope_instances s ++ [(obj_id, class_name)]) s
    | Some ViewFragment =>
      set_view_instances (view_instances s ++ [(obj_id, class_name)]) s
    | None => s
    end).

Definition class_dump : M unit :=
  class_id <- read_id ;;
  stack_serial <- read_u32 ;;
  super_class_id <- read_id ;;
  modify (fun s => set_class_super (<[class_id := super_class_id]> (class_super s)) s) ;;;
  loader_id <- read_id ;;
  signers_id <- read_id ;;
  prot_domain_id <- read_id ;;
  reserved1 <- read_id ;;
  reserved2 <- read_id ;;
  instance_size <- read_u32 ;;
  cp_count <- read_u16 ;;
  for_range (Z.to_nat cp_count)
    (idx <- read_u16 ;; tp <- read_u8 ;;
     _ <- read (BASIC_TYPE_SIZES_get tp id_size) ;; ret tt) ;;;
  sf_count <- read_u16 ;;
  for_range (Z.to_nat sf_count)
    (name_id <- read_id ;; tp <- read_u8 ;;
     _ <- read (BASIC_TYPE_SIZES_get tp id_size) ;; ret tt) ;;;
  if_count <- read_u16 ;;
  for_range (Z.to_nat if_count)
    (name_id <- read_id ;; tp <- read_u8 ;; ret tt).

(** The [if]/[elif] chain on [sub_tag]; the result is [false] when the
    branch leaves the loop by [break]. *)
Definition sub_dispatch (end_pos sub_tag : Z) : M bool :=
  if sub_tag =? SUB_ROOT_JNI_GLOBAL then
    obj_id <- read_id ;; jni_ref <- read_id ;;
    append_root JNI_GLOBAL obj_id ;;; ret true
  else if sub_tag =? SUB_ROOT_JNI_LOCAL then
    obj_id <- read_id ;; thread_serial <- read_u32 ;; frame_num <- read_u32 ;;
    append_root JNI_LOCAL obj_id ;;; ret true
  else if sub_tag =? SUB_ROOT_JAVA_FRAME then
    obj_id <- read_id ;; thread_serial <- read_u32 ;; frame_num <- read_u32 ;;
    append_root JAVA_FRAME obj_id ;;; ret true
  else if sub_tag =? SUB_ROOT_NATIVE_STACK then
    obj_id <- read_id ;; thread_serial <- read_u32 ;;
    append_root NATIVE_STACK obj_id ;;; ret true
  else if sub_tag =? SUB_ROOT_STICKY_CLASS then
    obj_id <- read_id ;;
    append_root STICKY_CLASS obj_id ;;; ret true
  else if sub_tag =? SUB_ROOT_THREAD_BLOCK then
    obj_id <- read_id ;; thread_serial <- read_u32 ;;
    append_root THREAD_BLOCK obj_id ;;; ret true
  else if sub_tag =? SUB_ROOT_MONITOR_USED then
    obj_id <- read_id ;;
    append_root MONITOR_USED obj_id ;;; ret true
  else if sub_tag =? SUB_ROOT_THREAD_OBJ then
    obj_id <- read_id ;; thread_serial <- read_u32 ;; stack_serial <- read_u32 ;;
    append_root THREAD_OBJ obj_id ;;; ret true
  else if sub_tag =? SUB_CLASS_DUMP then
    class_dump ;;; ret true
  else if sub_tag =? SUB_INSTANCE_DUMP then
    obj_id <- read_id ;;
    stack_serial <- read_u32 ;;
    class_id <- read_id ;;
    data_len <- read_u32 ;;
    _ <- read data_len ;;
    tally_instance obj_id class_id ;;; ret true
  else if sub_tag =? SUB_OBJ_ARRAY_DUMP then
    obj_id <- read_id ;;
    stack_serial <- read_u32 ;;
    num_elements <- read_u32 ;;
    array_class_id <- read_id ;;
    _ <- read (num_elements * id_size) ;; ret true
  else if sub_tag =? SUB_PRIM_ARRAY_DUMP then
    obj_id <- read_id ;;
    stack_serial <- read_u32 ;;
    num_elements <- read_u32 ;;
    elem_type <- read_u8 ;;
    _ <- read (num_elements * BASIC_TYPE_SIZES_get elem_type 1) ;; ret true
  else if sub_tag =? 0xFF then          (* ROOT_UNKNOWN *)
    obj_id <- read_id ;;
    append_root UNKNOWN obj_id ;;; ret true
  else if sub_tag =? 0x89 then          (* ROOT_INTERNED_STRING *)
    obj_id <- read_id ;; ret true
  else if sub_tag =? 0x8B then          (* ROOT_DEBUGGER *)
    obj_id <- read_id ;; ret true
  else if sub_tag =? 0x8D then          (* ROOT_VM_INTERNAL *)
    obj_id <- read_id ;; ret true
  else if sub_tag =? 0xFE then          (* HEAP_DUMP_INFO *)
    heap_type <- read_u32 ;; name_id <- read_id ;; ret true
  else if sub_tag =? 0xC3 then          (* ROOT_REFERENCE_CLEANUP *)
    obj_id <- read_id ;; ret true
  else if sub_tag =? 0x8A then          (* ROOT_FINALIZING *)
    obj_id <- read_id ;; ret true
  else if sub_tag =? 0x90 then          (* ROOT_UNREACHABLE *)
    obj_id <- read_id ;; ret true
  else
    seek end_pos ;;; ret false.

(** One pass through the body of [while f.tell() < end_pos]. *)
Definition sub_record (end_pos : Z) : M bool :=
  sub_tag <- read_u8 ;;
  sub_dispatch end_pos sub_tag.

(** [while f.tell() < end_pos: ...] *)
Fixpoint heap_loop (fuel : nat) (end_pos : Z) : M unit :=
  fun s =>
    if f_pos s <? end_pos then
      match fuel with
      | O => Hang
      | S k =>
        (continue <- sub_record end_pos ;;
         if continue : bool then heap_loop k end_pos else ret tt) s
      end
    else Done (tt, s).

Definition string_record (len : Z) : M unit :=
  str_id <- read_id ;;
  str_data <- read (len - id_size) ;;
  modify (fun s => set_strings (<[str_id := utf8_decode str_data]> (strings s)) s).

(** The table updates of the LOAD_CLASS branch, after its four reads. *)
Definition register_class (serial class_obj_id name_id : Z) (s : state) : state :=
  let s := set_class_names (<[serial := name_id]> (class_names s)) s in
  let s := set_class_id_to_serial
             (<[class_obj_id := serial]> (class_id_to_serial s)) s in
  match strings s !! name_id with
  | Some name =>
    set_class_id_to_name (<[class_obj_id := name]> (class_id_to_name s)) s
  | None => s
  end.

Definition load_class_record : M unit :=
  serial <- read_u32 ;;
  class_obj_id <- read_id ;;
  stack_serial <- read_u32 ;;
  name_id <- read_id ;;
  modify (register_class serial class_obj_id name_id).

(** The three fields every record starts with, and the record counter. *)
Definition record_header (tag_bytes : list byte) : M (Z * Z) :=
  tag <- unpack 1 tag_bytes ;;
  timestamp <- read_u32 ;;
  len <- read_u32 ;;
  modify (fun s => set_record_count (record_count s + 1) s) ;;;
  ret (tag, len).

Definition heap_dump_record (fuel : nat) (len : Z) : M unit :=
  modify (fun s => set_heap_records (heap_records s + 1) s) ;;;
  pos <- tell ;;
  heap_loop fuel (pos + len).

(** The [if]/[elif] chain on [tag]. *)
Definition record_payload (fuel : nat) (tag len : Z) : M unit :=
  if tag =? TAG_STRING then string_record len
  else if tag =? TAG_LOAD_CLASS then load_class_record
  else if (tag =? TAG_HEAP_DUMP) || (tag =? TAG_HEAP_DUMP_SEGMENT) then
    heap_dump_record fuel len
  else
    _ <- read len ;; ret tt.

(** The body of the top-level [while True] after a tag byte was read. *)
Definition record_body (fuel : nat) (tag_bytes : list byte) : M unit :=
  hd <- record_header tag_bytes ;;
  record_payload fuel (fst hd) (snd hd).

Fixpoint record_loop (fuel : nat) : M unit :=
  match fuel with
  | O => hang
  | S k =>
    tag_bytes <- read 1 ;;
    match tag_bytes with
    | [] => ret tt
    | _ => record_body k tag_bytes ;;; record_loop k
    end
  end.

End Records.

(** The [with open(...)] block: header, id size, timestamp, records. *)
Definition decode (fuel : nat) : M (list byte * Z * Z) :=
  header <- header_loop fuel [] ;;
  id_size <- read_u32 ;;
  timestamp <- read_u64 ;;
  record_loop id_size fuel ;;;
  ret (header, id_size, timestamp).

End Decoder.

(** ** The report

    The sections printed after the decode, as rows instead of formatted
    lines; a row keeps the full class name where the script prints it
    with the package prefix removed. *)

Definition most_common {K : Type} (c : list (K * Z)) : list (K * Z) :=
  sorted_desc c.

(** Rows of the Activity and Service sections: count, name, and whether
    the line carries the leak mark ([count > 1]). *)
Definition leak_rows (instances : list (Z * pystr)) : list (Z * pystr * bool) :=
  map (fun '(name, count) => (count, name, 1 <? count))
      (most_common (Counter_of str_eqb (map snd instances))).

Definition plain_rows (instances : list (Z * pystr)) : list (Z * pystr) :=
  map (fun '(name, count) => (count, name))
      (firstn 20 (most_common (Counter_of str_eqb (map snd instances)))).

Definition findmy_rows (instance_counts : list (pystr * Z)) : list (Z * pystr) :=
  map (fun '(name, count) => (count, name))
      (firstn 50 (sorted_desc
                    (List.filter (fun kv => str_in PACKAGE (fst kv))
                                 instance_counts))).

(** Rows of the suspect section: for each keyword in turn, every counted
    class whose name contains it. *)
Definition suspect_rows (instance_counts : list (pystr * Z))
    : list (Z * pystr * bool) :=
  flat_map
    (fun keyword =>
       let matches :=
         List.filter (fun kv => str_in keyword (fst kv)) instance_counts in
       map (fun '(name, count) =>
              (count, name,
               (1 <? count)
               && existsb (fun s => str_in s name) singleton_markers))
           (sorted_desc matches))
    suspect_keywords.

Definition root_rows (gc_roots : list (root_type * Z)) : list (Z * root_type) :=
  map (fun '(rtype, count) => (count, rtype))
      (most_common (Counter_of root_type_eqb (map fst gc_roots))).

Record report : Type := mkReport {
  rep_header : pystr;
  rep_id_size : Z;
  rep_timestamp : Z;
  rep_record_count : Z;
  rep_heap_records : Z;
  rep_strings : nat;
  rep_classes : nat;
  rep_gc_roots : nat;
  rep_findmy : list (Z * pystr);
  rep_activity : list (Z * pystr * bool);
  rep_service : list (Z * pystr * bool);
  rep_scope : list (Z * pystr);
  rep_view : list (Z * pystr);
  rep_suspect : list (Z * pystr * bool);
  rep_roots : list (Z * root_type)
}.

Definition make_report (header : list byte) (id_size timestamp : Z)
    (s : state) : report :=
  {| rep_header := utf8_decode header;
     rep_id_size := id_size;
     rep_timestamp := timestamp;
     rep_record_count := record_count s;
     rep_heap_records := heap_records s;
     rep_strings := size (strings s);
     rep_classes := size (class_id_to_name s);
     rep_gc_roots := List.length (gc_roots s);
     rep_findmy := findmy_rows (instance_counts s);
     rep_activity := leak_rows (activity_instances s);
     rep_service := leak_rows (service_instances s);
     rep_scope := plain_rows (scope_instances s);
     rep_view := plain_rows (view_instances s);
     rep_suspect := suspect_rows (instance_counts s);
     rep_roots := root_rows (gc_roots s) |}.



(** [analyze_hprof(filepath)]: every call starts from fresh tables.  The
    result pairs the report with the final tables it was derived from. *)
Definition analyze_hprof (lower_nonascii : pystr -> nat -> pystr)
    (fuel : nat) (content : list byte) : outcome (report * state) :=
  match decode lower_nonascii content fuel initial_state with
  | Done ((header, id_size, timestamp), s) =>
    Done (make_report header id_size timestamp s, s)
  | Raise e => Raise e
  | Hang => Hang
  end.

(** The [__main__] block: two files analysed one after the other. *)
Definition main (lower_nonascii : pystr -> nat -> pystr) (fuel : nat)
    (file1 file2 : list byte) : outcome ((report * state) * (report * state)) :=
  match analyze_hprof lower_nonascii fuel file1 with
  | Done r1 =>
    match analyze_hprof lower_nonascii fuel file2 with
    | Done r2 => Done (r1, r2)
    | Raise e => Raise e
    | Hang => Hang
    end
  | Raise e => Raise e
  | Hang => Hang
  end.

(** ** Vocabulary for the statements below *)

(** The sub-tags that have a branch of their own in [sub_dispatch]. *)
Definition recognized_sub_tags : list Z :=
  [SUB_ROOT_JNI_GLOBAL; SUB_ROOT_JNI_LOCAL; SUB_ROOT_JAVA_FRAME;
   SUB_ROOT_NATIVE_STACK; SUB_ROOT_STICKY_CLASS; SUB_ROOT_THREAD_BLOCK;
   SUB_ROOT_MONITOR_USED; SUB_ROOT_THREAD_OBJ; SUB_CLASS_DUMP;
   SUB_INSTANCE_DUMP; SUB_OBJ_ARRAY_DUMP; SUB_PRIM_ARRAY_DUMP;
   0xFF; 0x89; 0x8B; 0x8D; 0xFE; 0xC3; 0x8A; 0x90].

Definition recognized (sub_tag : Z) : bool :=
  existsb (Z.eqb sub_tag) recognized_sub_tags.

(** The root sub-tags whose branch appends to [gc_roots], with the type
    it appends. *)
Definition ledger_root (sub_tag : Z) : option root_type :=
  if sub_tag =? SUB_ROOT_JNI_GLOBAL then Some JNI_GLOBAL
  else if sub_tag =? SUB_ROOT_JNI_LOCAL then Some JNI_LOCAL
  else if sub_tag =? SUB_ROOT_JAVA_FRAME then Some JAVA_FRAME
  else if sub_tag =? SUB_ROOT_NATIVE_STACK then Some NATIVE_STACK
  else if sub_tag =? SUB_ROOT_STICKY_CLASS then Some STICKY_CLASS
  else if sub_tag =? SUB_ROOT_THREAD_BLOCK then Some THREAD_BLOCK
  else if sub_tag =? SUB_ROOT_MONITOR_USED then Some MONITOR_USED
  else if sub_tag =? SUB_ROOT_THREAD_OBJ then Some THREAD_OBJ
  else if sub_tag =? 0xFF then Some UNKNOWN
  else None.



Definition never_hangs {A : Type} (m : M A) : Prop :=
  forall s, m s <> Hang.

Definition preserves {A : Type} (R : state -> state -> Prop) (m : M A) : Prop :=
  forall s a s', m s = Done (a, s') -> R s s'.


(** The cursor has not moved backwards. *)
Definition forward (s s' : state) : Prop := f_pos s <= f_pos s'.

(** A computation that can only return [b]. *)
Definition yields {A : Type} (b : A) (m : M A) : Prop :=
  forall s a s', m s = Done (a, s') -> a = b.

(** Bytes left between the cursor and the end of the file. *)
Definition bytes_left (content : list byte) (s : state) : nat :=
  Z.to_nat (Z.of_nat (List.length content) - f_pos s).



(** The rules of the heuristic, one by one, and the ordered table that
    the specification describes. *)
Definition rule_activity (lower_nonascii : pystr -> nat -> pystr)
    (class_name : pystr) : bool :=
  str_in (py "activity") (lower lower_nonascii class_name)
  && str_in PACKAGE class_name.

Definition rule_service (lower_nonascii : pystr -> nat -> pystr)
    (class_name : pystr) : bool :=
  str_in (py "service") (lower lower_nonascii class_name)
  && str_in PACKAGE class_name.

Definition rule_scope (lower_nonascii : pystr -> nat -> pystr)
    (class_name : pystr) : bool :=
  str_in (py "coroutinescope") (lower lower_nonascii class_name)
  || str_in (py "supervisorjob") (lower lower_nonascii class_name)
  || str_in (py "jobimpl") (lower lower_nonascii class_name).

Definition rule_view (lower_nonascii : pystr -> nat -> pystr)
    (class_name : pystr) : bool :=
  (str_in (py "view") (lower lower_nonascii class_name)
   || str_in (py "fragment") (lower lower_nonascii class_name))
  && str_in PACKAGE class_name.

Definition rule_table (lower_nonascii : pystr -> nat -> pystr)
    : list ((pystr -> bool) * category) :=
  [(rule_activity lower_nonascii, Activity);
   (rule_service lower_nonascii, Service);
   (rule_scope lower_nonascii, Scope);
   (rule_view lower_nonascii, ViewFragment)].

Fixpoint first_match {A : Type} (table : list ((pystr -> bool) * A))
    (class_name : pystr) : option A :=
  match table with
  | [] => None
  | (rule, c) :: table' =>
    if rule class_name then Some c else first_match table' class_name
  end.

(** The four category lists of a state, in the order of the table. *)
Definition buckets (s : state)
    : list (Z * pystr) * list (Z * pystr) * list (Z * pystr) * list (Z * pystr) :=
  (activity_instances s, service_instances s, scope_instances s,
   view_instances s).

(** The flag of a line of the suspect section. *)
Definition singleton_flag (name : pystr) (count : Z) : bool :=
  (1 <? count) && existsb (fun s => str_in s name) singleton_markers.

(** The cursor of [s'] is no further than the end of the segment, the
    end of the file, or where it stood in [s], whichever is furthest. *)
Definition within (content : list byte) (end_pos : Z) (s s' : state) : Prop :=
  f_pos s' <= Z.max end_pos (Z.max (f_pos s) (Z.of_nat (List.length content))).

(** The number of bytes [read_id] asks for. *)
Definition id_width (id_size : Z) : Z := if id_size =? 4 then 4 else 8.

(** How often [k] occurs in [l], as [Counter] would count it. *)
Definition occurrences {K : Type} (eqb : K -> K -> bool) (k : K) (l : list K)
    : Z :=
  Z.of_nat (List.length (List.filter (fun x => eqb x k) l)).

(** The sum of the counts of a [Counter]. *)
Definition counter_total {K : Type} (c : list (K * Z)) : Z :=
  fold_right (fun kv acc => snd kv + acc) 0 c.

(** A list of counted items in order of non-increasing count. *)
Fixpoint descending {K : Type} (l : list (K * Z)) : Prop :=
  match l with
  | [] => True
  | x :: l' => Forall (fun y => snd y <= snd x) l' /\ descending l'
  end.

(** The items of a list whose count is [n], in the order they have there. *)
Definition with_count {K : Type} (n : Z) (l : list (K * Z)) : list (K * Z) :=
  List.filter (fun kv => snd kv =? n) l.

Definition category_eqb (a b : category) : bool :=
  match a, b with
  | Activity, Activity | Service, Service | Scope, Scope
  | ViewFragment, ViewFragment => true
  | _, _ => false
  end.

(** The list an instance of category [c] is appended to. *)
Definition bucket (c : category) (s : state) : list (Z * pystr) :=
  match c with
  | Activity => activity_instances s
  | Service => service_instances s
  | Scope => scope_instances s
  | ViewFragment => view_instances s
  end.

(** Each category list holds, for every class name, as many entries as
    the class has counted instances when the name is of that category,
    and none otherwise. *)
Definition buckets_agree (lower_nonascii : pystr -> nat -> pystr)
    (s : state) : Prop :=
  forall c name,
    occurrences str_eqb name (map snd (bucket c s))
    = match classify lower_nonascii name with
      | Some c' =>
        if category_eqb c c'
        then counter_get str_eqb name (instance_counts s) else 0
      | None => 0
      end.

(** The per-class counts name each class once, with a count of at least
    one. *)
Definition counts_ok (s : state) : Prop :=
  NoDup (map fst (instance_counts s))
  /\ Forall (fun kv => 1 <= snd kv) (instance_counts s).

(** A property of the tables that holds in [s'] if it held in [s]. *)
Definition keeps (I : state -> Prop) (s s' : state) : Prop := I s -> I s'.

(** The characters a placeholder name [unknown_0x...] is made of. *)
Definition placeholder_char (c : Z) : bool :=
  existsb (Z.eqb c) (py "unknown_x0123456789abcdef").

(** The number a run of lower-case hexadecimal digits stands for. *)
Definition hex_digit_value (c : Z) : Z :=
  if c <? 58 then c - 48 else c - 87.

Definition unhex (l : pystr) (acc : Z) : Z :=
  fold_left (fun a c => 16 * a + hex_digit_value c) l acc.

(** The cursor moved and nothing else changed. *)
Definition moved (s s' : state) : Prop := exists p, s' = set_pos p s.

(** The string and class tables are the same in [s] and [s']. *)
Definition name_side_kept (s s' : state) : Prop :=
  strings s' = strings s /\ class_names s' = class_names s
  /\ class_id_to_serial s' = class_id_to_serial s
  /\ class_id_to_name s' = class_id_to_name s.

(** What the heap-dump branch fills is the same in [s] and [s']. *)
Definition heap_side_kept (s s' : state) : Prop :=
  instance_counts s' = instance_counts s /\ gc_roots s' = gc_roots s
  /\ activity_instances s' = activity_instances s
  /\ service_instances s' = service_instances s
  /\ scope_instances s' = scope_instances s
  /\ view_instances s' = view_instances s
  /\ class_super s' = class_super s.

(** The two record counters are the same in [s] and [s']. *)
Definition counters_kept (s s' : state) : Prop :=
  record_count s' = record_count s /\ heap_records s' = heap_records s.

(** Strings stored, classes named and heap-dump records seen. *)
Definition table_entries (s : state) : Z :=
  Z.of_nat (size (strings s)) + Z.of_nat (size (class_id_to_name s))
  + heap_records s.

Definition is_heap_tag (tag : Z) : bool :=
  (tag =? TAG_HEAP_DUMP) || (tag =? TAG_HEAP_DUMP_SEGMENT).

(** Nothing changed but the cursor and the super-class table. *)
Definition quiet (s s' : state) : Prop :=
  exists p v, s' = set_class_super v (set_pos p s).


(** Every exception [m] can raise satisfies [P], and every value it can
    return satisfies [Q]. *)
Definition yields_or_raises {A : Type} (P : pyexn -> Prop) (Q : A -> Prop)
    (m : M A) : Prop :=
  forall s,
    match m s with
    | Done (a, _) => Q a
    | Raise e => P e
    | Hang => True
    end.

(** ** Building streams *)

Fixpoint be_bytes (n : nat) (v : Z) : list byte :=
  match n with
  | O => []
  | S k => be_bytes k (v / 256) ++ [byte_of_Z (v mod 256)]
  end.

Definition hprof_header (magic : string) (id_size timestamp : Z) : list byte :=
  ascii_bytes magic ++ [Byte.x00] ++ be_bytes 4 id_size ++ be_bytes 8 timestamp.

Definition hprof_record (tag : Z) (payload : list byte) : list byte :=
  be_bytes 1 tag ++ be_bytes 4 0 ++ be_bytes 4 (Z.of_nat (List.length payload))
  ++ payload.

(** Sub-records and payloads for 4-byte identifiers. *)
Definition instance_dump (obj_id class_id : Z) (data : list byte) : list byte :=
  be_bytes 1 SUB_INSTANCE_DUMP ++ be_bytes 4 obj_id ++ be_bytes 4 0
  ++ be_bytes 4 class_id ++ be_bytes 4 (Z.of_nat (List.length data)) ++ data.

Definition string_payload (str_id : Z) (text : string) : list byte :=
  be_bytes 4 str_id ++ ascii_bytes text.

Definition load_class_payload (serial class_obj_id name_id : Z) : list byte :=
  be_bytes 4 serial ++ be_bytes 4 class_obj_id ++ be_bytes 4 0
  ++ be_bytes 4 name_id.

Definition MAGIC : string := "JAVA PROFILE 1.0.2".

(** One class, named by a STRING record that precedes its LOAD_CLASS
    record, and two instances of it. *)
Definition two_instances_stream (class_name : string) : list byte :=
  hprof_header MAGIC 4 0
  ++ hprof_record TAG_STRING (string_payload 7 class_name)
  ++ hprof_record TAG_LOAD_CLASS (load_class_payload 1 0x100 7)
  ++ hprof_record TAG_HEAP_DUMP
       (instance_dump 0x1000 0x100 [] ++ instance_dump 0x1001 0x100 []).

(** A header that declares 5-byte identifiers, then one STRING record of
    declared length 8: an 8-byte id and [8 - 5] bytes of text. *)
Definition id5_stream : list byte :=
  hprof_header MAGIC 5 0
  ++ be_bytes 1 TAG_STRING ++ be_bytes 4 0 ++ be_bytes 4 8
  ++ be_bytes 8 7 ++ ascii_bytes "abc".

(** The LOAD_CLASS record comes first, the STRING record for its name
    second, one instance of the class last. *)
Definition load_class_first_stream : list byte :=
  hprof_header MAGIC 4 0
  ++ hprof_record TAG_LOAD_CLASS (load_class_payload 1 0x100 7)
  ++ hprof_record TAG_STRING (string_payload 7 "com/example/Foo")
  ++ hprof_record TAG_HEAP_DUMP (instance_dump 0x1000 0x100 []).



(** A segment with a root, then the unassigned sub-tag 0x99 and three
    bytes that belong to it, followed by a STRING record. *)
Definition unknown_sub_tag_stream : list byte :=
  hprof_header MAGIC 4 0
  ++ hprof_record TAG_HEAP_DUMP
       (be_bytes 1 SUB_ROOT_STICKY_CLASS ++ be_bytes 4 9
        ++ be_bytes 1 0x99 ++ bytes_of [1; 2; 3])
  ++ hprof_record TAG_STRING (string_payload 7 "after").

(** A STRING record whose declared length is [len], on 4-byte ids: the
    id, then bytes that the declared length does not cover. *)
Definition short_string_stream (len : Z) : list byte :=
  hprof_header MAGIC 4 0
  ++ be_bytes 1 TAG_STRING ++ be_bytes 4 0 ++ be_bytes 4 len
  ++ be_bytes 4 7 ++ ascii_bytes "tail"
  ++ hprof_record TAG_STRING (string_payload 8 "next").

(** A lowering table that leaves code points outside ASCII alone. *)
Definition no_tables : pystr -> nat -> pystr :=
  fun s i => match s !! i with Some c => [c] | None => [] end.
(** ** The text helpers on small inputs *)

Example utf8_decode_ascii : utf8_decode (ascii_bytes "a/B") = py "a/B".
Proof. reflexivity. Qed.

Example utf8_decode_two_bytes :
  utf8_decode (bytes_of [0xC3; 0xA9]) = [0xE9].
Proof. reflexivity. Qed.

Example utf8_decode_three_bytes :
  utf8_decode (bytes_of [0xE4; 0xB8; 0xAD]) = [0x4E2D].
Proof. reflexivity. Qed.

Example utf8_decode_cut_short :
  utf8_decode (bytes_of [0xE2; 0x82; 0x41]) = [REPLACEMENT; 0x41].
Proof. reflexivity. Qed.

Example utf8_decode_surrogate :
  utf8_decode (bytes_of [0xED; 0xA0; 0x80])
  = [REPLACEMENT; REPLACEMENT; REPLACEMENT].
Proof. reflexivity. Qed.

Example format_hex_0 : format_hex 0 = py "0x0".
Proof. reflexivity. Qed.

Example format_hex_255 : format_hex 255 = py "0xff".
Proof. reflexivity. Qed.

Example lower_ascii lower_nonascii :
  lower lower_nonascii (py "Me/MainActivity") = py "me/mainactivity".
Proof. reflexivity. Qed.

Example most_common_is_stable :
  most_common [(1, 1); (2, 2); (3, 1); (4, 2)]
  = [(2, 2); (4, 2); (1, 1); (3, 1)].
Proof. reflexivity. Qed.

Example scope_rule_needs_no_package lower_nonascii :
  classify lower_nonascii (py "x/y/MyCoroutineScope") = Some Scope.
Proof. reflexivity. Qed.

(** ** Basic facts *)

Lemma set_pos_id (s : state) : set_pos (f_pos s) s = s.
Proof. destruct s; reflexivity. Qed.

Lemma byte_val_range (b : byte) : 0 <= byte_val b < 256.
Proof.
  unfold byte_val. pose proof (Byte.to_N_bounded b) as H. lia.
Qed.

Lemma byte_val_of_Z (x : Z) : 0 <= x < 256 -> byte_val (byte_of_Z x) = x.
Proof.
  intros H. unfold byte_val, byte_of_Z.
  destruct (Byte.of_N (Z.to_N x)) as [b|] eqn:E.
  - apply Byte.to_of_N in E. rewrite E. lia.
  - apply Byte.of_N_None_iff in E. lia.
Qed.

Lemma be_value_app (bs : list byte) (b : byte) :
  be_value (bs ++ [b]) = be_value bs * 256 + byte_val b.
Proof. unfold be_value. rewrite fold_left_app. reflexivity. Qed.

Lemma length_be_bytes (n : nat) (v : Z) : List.length (be_bytes n v) = n.
Proof.
  revert v. induction n as [|n IH]; intros v; simpl; [reflexivity|].
  rewrite length_app, IH. simpl. lia.
Qed.

Lemma be_value_be_bytes (n : nat) (v : Z) :
  0 <= v < 256 ^ Z.of_nat n -> be_value (be_bytes n v) = v.
Proof.
  revert v. induction n as [|n IH]; intros v Hv.
  - simpl in *. unfold be_value. simpl. lia.
  - cbn [be_bytes]. rewrite be_value_app.
    rewrite byte_val_of_Z by (apply Z.mod_pos_bound; lia).
    rewrite IH.
    + pose proof (Z.div_mod v 256). lia.
    + rewrite Nat2Z.inj_succ, Z.pow_succ_r in Hv by lia.
      split; [apply Z.div_pos; lia|].
      apply Z.div_lt_upper_bound; lia.
Qed.

Lemma be_value_nonneg (bs : list byte) : 0 <= be_value bs.
Proof.
  induction bs as [|b bs IH] using rev_ind.
  - unfold be_value; simpl; lia.
  - rewrite be_value_app. pose proof (byte_val_range b). lia.
Qed.

(** ** The shape of [read] *)

Section ReadFacts.

Variable content : list byte.

(** Within its legal range of counts, [read] returns a slice of the file
    and advances by the slice's length. *)
Lemma read_eq (n : Z) (s : state) :
  -1 <= n < 2 ^ 63 ->
  let got := if n =? -1 then skipn (Z.to_nat (f_pos s)) content
             else firstn (Z.to_nat n) (skipn (Z.to_nat (f_pos s)) content) in
  read content n s = Done (got, set_pos (f_pos s + Z.of_nat (List.length got)) s).
Proof.
  intros Hn got. unfold read.
  destruct (n <? -1) eqn:E1; [lia|].
  destruct (2 ^ 63 <=? n) eqn:E2; [lia|].
  destruct (Z.of_nat (List.length content) <=? f_pos s) eqn:E3.
  - assert (Hnil : skipn (Z.to_nat (f_pos s)) content = []).
    { apply skipn_all2. lia. }
    subst got. rewrite Hnil. rewrite firstn_nil.
    destruct (n =? -1); simpl; rewrite Z.add_0_r, set_pos_id; reflexivity.
  - subst got. destruct (n =? -1) eqn:E4; [reflexivity|].
    assert (Hlen : (List.length (skipn (Z.to_nat (f_pos s)) content)
                    <= Z.to_nat (Z.of_nat (List.length content) - f_pos s))%nat).
    { rewrite length_skipn. lia. }
    assert (Hf : firstn (Z.to_nat (Z.min n (Z.of_nat (List.length content) - f_pos s)))
                   (skipn (Z.to_nat (f_pos s)) content)
                 = firstn (Z.to_nat n) (skipn (Z.to_nat (f_pos s)) content)).
    { destruct (Z.le_ge_cases n (Z.of_nat (List.length content) - f_pos s)).
      - rewrite Z.min_l by lia. reflexivity.
      - rewrite Z.min_r by lia.
        rewrite !firstn_all2 by lia. reflexivity. }
    rewrite Hf. reflexivity.
Qed.

Lemma read_low (n : Z) (s : state) : n < -1 -> read content n s = Raise ValueError.
Proof. intros H. unfold read. destruct (n <? -1) eqn:E; [reflexivity|lia]. Qed.

(** Reading exactly the chunk that sits at the cursor. *)
Lemma read_at (pre chunk post : list byte) (s : state) :
  content = pre ++ chunk ++ post ->
  f_pos s = Z.of_nat (List.length pre) ->
  Z.of_nat (List.length chunk) < 2 ^ 63 ->
  read content (Z.of_nat (List.length chunk)) s
  = Done (chunk, set_pos (f_pos s + Z.of_nat (List.length chunk)) s).
Proof.
  intros Hc Hp Hlt.
  pose proof (read_eq (Z.of_nat (List.length chunk)) s) as H.
  cbv zeta in H. rewrite H by lia. clear H.
  destruct (Z.of_nat (List.length chunk) =? -1) eqn:E; [lia|].
  rewrite Hp, Hc, !Nat2Z.id, drop_app_length, take_app_length. reflexivity.
Qed.

(** Reading at or past the end returns nothing and stays put. *)
Lemma read_eof (n : Z) (s : state) :
  -1 <= n < 2 ^ 63 -> Z.of_nat (List.length content) <= f_pos s ->
  read content n s = Done ([], s).
Proof.
  intros Hn Hp. unfold read.
  destruct (n <? -1) eqn:E1; [lia|].
  destruct (2 ^ 63 <=? n) eqn:E2; [lia|].
  destruct (Z.of_nat (List.length content) <=? f_pos s) eqn:E3; [reflexivity|lia].
Qed.

End ReadFacts.

(** ** Reasoning about the monad *)

Lemma bind_done {A B : Type} (m : M A) (k : A -> M B) s b s'' :
  bind m k s = Done (b, s'') ->
  exists a s', m s = Done (a, s') /\ k a s' = Done (b, s'').
Proof.
  unfold bind. destruct (m s) as [[a s']| |]; try discriminate.
  intros H. exists a, s'. split; [reflexivity|exact H].
Qed.

Lemma bind_eq_done {A B : Type} (m : M A) (k : A -> M B) s a s' :
  m s = Done (a, s') -> bind m k s = k a s'.
Proof. intros H. unfold bind. rewrite H. reflexivity. Qed.

Lemma bind_eq_raise {A B : Type} (m : M A) (k : A -> M B) s e :
  m s = Raise e -> bind m k s = Raise e.
Proof. intros H. unfold bind. rewrite H. reflexivity. Qed.

Lemma bind_eq_hang {A B : Type} (m : M A) (k : A -> M B) s :
  m s = Hang -> bind m k s = Hang.
Proof. intros H. unfold bind. rewrite H. reflexivity. Qed.

Section NeverHangs.

Lemma never_hangs_ret {A : Type} (a : A) : never_hangs (ret a).
Proof. intros s; discriminate. Qed.

Lemma never_hangs_raise {A : Type} (e : pyexn) : never_hangs (@raise A e).
Proof. intros s; discriminate. Qed.

Lemma never_hangs_modify (g : state -> state) : never_hangs (modify g).
Proof. intros s; discriminate. Qed.

Lemma never_hangs_bind {A B : Type} (m : M A) (k : A -> M B) :
  never_hangs m -> (forall a, never_hangs (k a)) -> never_hangs (bind m k).
Proof.
  intros Hm Hk s. unfold bind. specialize (Hm s).
  destruct (m s) as [[a s']| |]; [apply Hk|discriminate|congruence].
Qed.

Lemma never_hangs_for_range (n : nat) (body : M unit) :
  never_hangs body -> never_hangs (for_range n body).
Proof.
  intros Hb. induction n as [|n IH]; simpl.
  - apply never_hangs_ret.
  - apply never_hangs_bind; [exact Hb|intros _; exact IH].
Qed.

Lemma never_hangs_unpack (n : nat) (bs : list byte) : never_hangs (unpack n bs).
Proof.
  unfold unpack. destruct (Nat.eqb _ _);
    [apply never_hangs_ret|apply never_hangs_raise].
Qed.

Variable content : list byte.

Lemma never_hangs_read (n : Z) : never_hangs (read content n).
Proof.
  intros s. unfold read.
  repeat match goal with |- context [if ?c then _ else _] => destruct c end;
    discriminate.
Qed.

Lemma never_hangs_tell : never_hangs tell.
Proof. intros s; discriminate. Qed.

End NeverHangs.

Create HintDb nohang.
#[export] Hint Resolve never_hangs_ret never_hangs_raise never_hangs_modify
  never_hangs_unpack never_hangs_read never_hangs_tell : nohang.

Ltac nohang :=
  repeat first
    [ progress intros
    | apply never_hangs_bind
    | apply never_hangs_for_range
    | solve [auto with nohang]
    | match goal with
      | |- never_hangs (if ?c then _ else _) => destruct c
      end ].

Section NeverHangsDecoder.

Variable lower_nonascii : pystr -> nat -> pystr.
Variable content : list byte.
Variable id_size : Z.

Lemma never_hangs_read_u8 : never_hangs (read_u8 content).
Proof. unfold read_u8. nohang. Qed.

Lemma never_hangs_read_u16 : never_hangs (read_u16 content).
Proof. unfold read_u16. nohang. Qed.

Lemma never_hangs_read_u32 : never_hangs (read_u32 content).
Proof. unfold read_u32. nohang. Qed.

Lemma never_hangs_read_u64 : never_hangs (read_u64 content).
Proof. unfold read_u64. nohang. Qed.

Lemma never_hangs_read_id : never_hangs (read_id content id_size).
Proof.
  unfold read_id. destruct (id_size =? 4);
    [apply never_hangs_read_u32|apply never_hangs_read_u64].
Qed.

#[local] Hint Resolve never_hangs_read_u8 never_hangs_read_u16 never_hangs_read_u32
  never_hangs_read_u64 never_hangs_read_id : nohang.

Lemma never_hangs_class_dump : never_hangs (class_dump content id_size).
Proof. unfold class_dump. nohang. Qed.

Lemma never_hangs_sub_dispatch end_pos sub_tag :
  never_hangs (sub_dispatch lower_nonascii content id_size end_pos sub_tag).
Proof.
  pose proof never_hangs_class_dump.
  unfold sub_dispatch, append_root, tally_instance, seek. nohang.
Qed.

Lemma never_hangs_sub_record end_pos :
  never_hangs (sub_record lower_nonascii content id_size end_pos).
Proof.
  unfold sub_record. apply never_hangs_bind;
    [apply never_hangs_read_u8|intros; apply never_hangs_sub_dispatch].
Qed.

Lemma never_hangs_string_record len :
  never_hangs (string_record content id_size len).
Proof. unfold string_record. nohang. Qed.

Lemma never_hangs_load_class_record :
  never_hangs (load_class_record content id_size).
Proof. unfold load_class_record. nohang. Qed.

Lemma never_hangs_record_header tag_bytes :
  never_hangs (record_header content tag_bytes).
Proof. unfold record_header. nohang. Qed.

End NeverHangsDecoder.

(** ** Relations preserved along a computation *)

Section Preserves.

Variable R : state -> state -> Prop.
Hypothesis R_refl : forall s, R s s.
Hypothesis R_trans : forall s1 s2 s3, R s1 s2 -> R s2 s3 -> R s1 s3.

Lemma preserves_ret {A : Type} (a : A) : preserves R (ret a).
Proof. intros s a' s' H. inversion H; subst. apply R_refl. Qed.

Lemma preserves_raise {A : Type} (e : pyexn) : preserves R (@raise A e).
Proof. intros s a' s' H. discriminate. Qed.

Lemma preserves_tell : preserves R tell.
Proof. intros s a' s' H. inversion H; subst. apply R_refl. Qed.

Lemma preserves_bind {A B : Type} (m : M A) (k : A -> M B) :
  preserves R m -> (forall a, preserves R (k a)) -> preserves R (bind m k).
Proof.
  intros Hm Hk s b s'' H.
  apply bind_done in H as (a & s' & H1 & H2).
  eapply R_trans; [eapply Hm; eassumption|eapply Hk; eassumption].
Qed.

Lemma preserves_for_range (n : nat) (body : M unit) :
  preserves R body -> preserves R (for_range n body).
Proof.
  intros Hb. induction n as [|n IH]; simpl.
  - apply preserves_ret.
  - apply preserves_bind; [exact Hb|intros _; exact IH].
Qed.

Lemma preserves_unpack (n : nat) (bs : list byte) : preserves R (unpack n bs).
Proof.
  unfold unpack. destruct (Nat.eqb _ _);
    [apply preserves_ret|apply preserves_raise].
Qed.

Lemma preserves_modify (g : state -> state) :
  (forall s, R s (g s)) -> preserves R (modify g).
Proof. intros Hg s a s' H. inversion H; subst. apply Hg. Qed.

Variable lower_nonascii : pystr -> nat -> pystr.
Variable content : list byte.
Variable id_size : Z.

(** What the relation must tolerate: any read, and each table update. *)
Hypothesis R_read : forall n, preserves R (read content n).

Lemma preserves_read_u8 : preserves R (read_u8 content).
Proof. apply preserves_bind; [apply R_read|intros; apply preserves_unpack]. Qed.

Lemma preserves_read_u16 : preserves R (read_u16 content).
Proof. apply preserves_bind; [apply R_read|intros; apply preserves_unpack]. Qed.

Lemma preserves_read_u32 : preserves R (read_u32 content).
Proof. apply preserves_bind; [apply R_read|intros; apply preserves_unpack]. Qed.

Lemma preserves_read_u64 : preserves R (read_u64 content).
Proof. apply preserves_bind; [apply R_read|intros; apply preserves_unpack]. Qed.

Lemma preserves_read_id : preserves R (read_id content id_size).
Proof.
  unfold read_id. destruct (id_size =? 4);
    [apply preserves_read_u32|apply preserves_read_u64].
Qed.

Hypothesis R_class_super :
  forall v s, R s (set_class_super v s).
Hypothesis R_append_root :
  forall t obj_id, preserves R (append_root t obj_id).
Hypothesis R_tally :
  forall obj_id class_id, preserves R (tally_instance lower_nonascii obj_id class_id).

Ltac pres :=
  repeat first
    [ progress intros
    | apply preserves_read_u8
    | apply preserves_read_u16
    | apply preserves_read_u32
    | apply preserves_read_id
    | apply preserves_for_range
    | apply preserves_ret
    | apply preserves_bind
    | apply R_read
    | apply R_append_root
    | apply R_tally
    | apply preserves_modify; intros; apply R_class_super
    | match goal with
      | |- preserves _ (if ?c then _ else _) => destruct c
      end ].

Lemma preserves_class_dump : preserves R (class_dump content id_size).
Proof. unfold class_dump. pres. Qed.

(** Every recognised branch of the dispatch preserves the relation. *)
Lemma preserves_sub_dispatch_recognized end_pos sub_tag :
  recognized sub_tag = true ->
  preserves R (sub_dispatch lower_nonascii content id_size end_pos sub_tag).
Proof.
  intros Hrec. pose proof preserves_class_dump as Hcd.
  unfold sub_dispatch.
  repeat match goal with
         | |- preserves _ (if ?t =? ?c then _ else _) =>
           destruct (t =? c) eqn:?; [solve [pres; apply Hcd]|]
         end.
  exfalso. unfold recognized, recognized_sub_tags in Hrec.
  cbn [existsb] in Hrec.
  repeat match goal with
         | H : (_ =? _) = false |- _ => rewrite H in Hrec; clear H
         end.
  discriminate.
Qed.

End Preserves.

(** ** The cursor *)

Lemma tally_instance_frame lower_nonascii obj_id class_id s a s' :
  tally_instance lower_nonascii obj_id class_id s = Done (a, s') ->
  f_pos s' = f_pos s /\ strings s' = strings s
  /\ class_id_to_name s' = class_id_to_name s /\ gc_roots s' = gc_roots s.
Proof.
  unfold tally_instance, modify. intros H. inversion H; subst; clear H.
  destruct (classify lower_nonascii _) as [[]|]; repeat split.
Qed.

Lemma append_root_frame t obj_id s a s' :
  append_root t obj_id s = Done (a, s') ->
  f_pos s' = f_pos s /\ strings s' = strings s
  /\ class_id_to_name s' = class_id_to_name s
  /\ gc_roots s' = gc_roots s ++ [(t, obj_id)].
Proof.
  unfold append_root, modify. intros H. inversion H; subst; clear H.
  repeat split.
Qed.

Section Cursor.

Variable lower_nonascii : pystr -> nat -> pystr.
Variable content : list byte.
Variable id_size : Z.

Abbreviation file_size := (Z.of_nat (List.length content)).

Lemma forward_refl s : forward s s.
Proof. unfold forward; lia. Qed.

Lemma forward_trans s1 s2 s3 : forward s1 s2 -> forward s2 s3 -> forward s1 s3.
Proof. unfold forward; lia. Qed.

Lemma read_forward n : preserves forward (read content n).
Proof.
  intros s a s' H. unfold read in H.
  repeat match type of H with
         | context [if ?c then _ else _] => destruct c
         end; inversion H; subst; unfold forward; simpl; lia.
Qed.

Lemma sub_dispatch_forward end_pos sub_tag s b s' :
  sub_dispatch lower_nonascii content id_size end_pos sub_tag s = Done (b, s') ->
  f_pos s <= end_pos -> f_pos s <= f_pos s'.
Proof.
  intros H Hle.
  destruct (recognized sub_tag) eqn:Hrec.
  - eapply (preserves_sub_dispatch_recognized forward forward_refl forward_trans
              lower_nonascii content id_size read_forward); try eassumption.
    + intros v s0. unfold forward. simpl. lia.
    + intros t o s0 a s0' H0. apply append_root_frame in H0. unfold forward. lia.
    + intros o c s0 a s0' H0. apply tally_instance_frame in H0. unfold forward. lia.
  - unfold recognized, recognized_sub_tags in Hrec. cbn [existsb] in Hrec.
    repeat (apply orb_false_elim in Hrec as [? Hrec]).
    unfold sub_dispatch in H.
    repeat match goal with
           | E : (sub_tag =? _) = false |- _ => rewrite E in H; clear E
           end.
    inversion H; subst; simpl. exact Hle.
Qed.

Lemma read_u8_done s t s' :
  read_u8 content s = Done (t, s') ->
  f_pos s < file_size /\ s' = set_pos (f_pos s + 1) s /\ 0 <= t < 256.
Proof.
  unfold read_u8. intros H. apply bind_done in H as (bs & s1 & H1 & H2).
  pose proof (read_eq content 1 s ltac:(lia)) as Hr. cbv zeta in Hr.
  change (1 =? -1) with false in Hr. cbv iota in Hr.
  rewrite Hr in H1. inversion H1; subst; clear H1.
  unfold unpack in H2.
  destruct (Nat.eqb _ 1) eqn:E; [|discriminate].
  apply Nat.eqb_eq in E. inversion H2; subst; clear H2.
  rewrite E.
  destruct (take (Z.to_nat 1) (drop (Z.to_nat (f_pos s)) content)) as [|b [|? ?]] eqn:Ht;
    try discriminate.
  assert (Hlen : (List.length (drop (Z.to_nat (f_pos s)) content) <> 0)%nat).
  { intros C. apply length_zero_iff_nil in C. rewrite C in Ht. discriminate. }
  rewrite length_skipn in Hlen.
  repeat split.
  - destruct (Z.le_gt_cases 0 (f_pos s)); lia.
  - unfold be_value. simpl. pose proof (byte_val_range b). lia.
  - unfold be_value. simpl. pose proof (byte_val_range b). lia.
Qed.

Lemma yields_ret {A : Type} (b : A) : yields b (ret b).
Proof. intros s a s' H. inversion H; reflexivity. Qed.

Lemma yields_bind {A B : Type} (b : B) (m : M A) (k : A -> M B) :
  (forall a, yields b (k a)) -> yields b (bind m k).
Proof.
  intros Hk s a s' H. apply bind_done in H as (x & s1 & _ & H2).
  eapply Hk; eassumption.
Qed.

Lemma sub_dispatch_recognized_true end_pos sub_tag :
  recognized sub_tag = true ->
  yields true (sub_dispatch lower_nonascii content id_size end_pos sub_tag).
Proof.
  intros Hrec. unfold sub_dispatch.
  repeat match goal with
         | |- yields _ (if ?t =? ?c then _ else _) =>
           destruct (t =? c) eqn:?;
           [solve [repeat first [apply yields_ret | apply yields_bind; intros]]|]
         end.
  exfalso. unfold recognized, recognized_sub_tags in Hrec.
  cbn [existsb] in Hrec.
  repeat match goal with
         | H : (_ =? _) = false |- _ => rewrite H in Hrec; clear H
         end.
  discriminate.
Qed.

(** An unrecognised sub-tag seeks to the end of the segment and breaks. *)
Lemma sub_dispatch_unrecognized end_pos sub_tag s :
  recognized sub_tag = false ->
  sub_dispatch lower_nonascii content id_size end_pos sub_tag s
  = Done (false, set_pos end_pos s).
Proof.
  intros Hrec.
  unfold recognized, recognized_sub_tags in Hrec. cbn [existsb] in Hrec.
  repeat (apply orb_false_elim in Hrec as [? Hrec]).
  unfold sub_dispatch.
  repeat match goal with
         | E : (sub_tag =? _) = false |- _ => rewrite E; clear E
         end.
  reflexivity.
Qed.

Lemma sub_record_break end_pos s s' :
  sub_record lower_nonascii content id_size end_pos s = Done (false, s') ->
  f_pos s' = end_pos.
Proof.
  unfold sub_record. intros H. apply bind_done in H as (t & s1 & H1 & H2).
  destruct (recognized t) eqn:Hrec.
  - apply (sub_dispatch_recognized_true end_pos t Hrec) in H2. discriminate.
  - rewrite sub_dispatch_unrecognized in H2 by exact Hrec.
    inversion H2; subst. reflexivity.
Qed.

Lemma sub_record_advances end_pos s b s' :
  sub_record lower_nonascii content id_size end_pos s = Done (b, s') ->
  f_pos s < end_pos ->
  f_pos s < f_pos s' /\ f_pos s < file_size.
Proof.
  unfold sub_record. intros H Hlt. apply bind_done in H as (t & s1 & H1 & H2).
  apply read_u8_done in H1 as (Hsz & -> & _).
  apply sub_dispatch_forward in H2; simpl in *; lia.
Qed.

(** A segment loop that completes leaves the cursor at or after the end
    of the segment, and never before where it started. *)
Lemma heap_loop_post fuel end_pos s a s' :
  heap_loop lower_nonascii content id_size fuel end_pos s = Done (a, s') ->
  end_pos <= f_pos s' /\ f_pos s <= f_pos s'.
Proof.
  revert s. induction fuel as [|k IH]; intros s H; simpl in H.
  - destruct (f_pos s <? end_pos) eqn:E; [discriminate|].
    inversion H; subst. lia.
  - destruct (f_pos s <? end_pos) eqn:E.
    + apply bind_done in H as (b & s1 & H1 & H2).
      pose proof (sub_record_advances _ _ _ _ H1 ltac:(lia)) as [Hadv _].
      destruct b.
      * apply IH in H2. lia.
      * inversion H2; subst. apply sub_record_break in H1. lia.
    + inversion H; subst. lia.
Qed.

Lemma heap_loop_no_hang fuel end_pos s :
  (bytes_left content s < fuel)%nat ->
  heap_loop lower_nonascii content id_size fuel end_pos s <> Hang.
Proof.
  revert s. induction fuel as [|k IH]; intros s Hf; [lia|].
  simpl. destruct (f_pos s <? end_pos) eqn:E; [|discriminate].
  unfold bind.
  destruct (sub_record lower_nonascii content id_size end_pos s)
    as [[b s1]|e|] eqn:H1.
  - destruct b; [|discriminate].
    apply IH. apply sub_record_advances in H1; [|lia].
    unfold bytes_left in *. lia.
  - discriminate.
  - exfalso. eapply never_hangs_sub_record; eassumption.
Qed.

(** More fuel does not change an outcome that was reached. *)
Lemma heap_loop_fuel_mono fuel fuel' end_pos s :
  (fuel <= fuel')%nat ->
  heap_loop lower_nonascii content id_size fuel end_pos s <> Hang ->
  heap_loop lower_nonascii content id_size fuel' end_pos s
  = heap_loop lower_nonascii content id_size fuel end_pos s.
Proof.
  revert fuel' s. induction fuel as [|k IH]; intros fuel' s Hle Hnh.
  - simpl in *. destruct fuel'; simpl;
      destruct (f_pos s <? end_pos); congruence.
  - destruct fuel' as [|k']; [lia|]. simpl in *.
    destruct (f_pos s <? end_pos); [|reflexivity].
    unfold bind in *.
    destruct (sub_record lower_nonascii content id_size end_pos s)
      as [[[|] s1]|e|]; try reflexivity.
    apply IH; [lia|exact Hnh].
Qed.


(** ** The top-level loop *)

Lemma forward_bind {A B : Type} (m : M A) (k : A -> M B) :
  preserves forward m -> (forall a, preserves forward (k a)) ->
  preserves forward (bind m k).
Proof. apply preserves_bind. exact forward_trans. Qed.

Lemma forward_read_u32 : preserves forward (read_u32 content).
Proof.
  apply preserves_read_u32;
    [exact forward_refl|exact forward_trans|exact read_forward].
Qed.

Lemma forward_read_id : preserves forward (read_id content id_size).
Proof.
  apply preserves_read_id;
    [exact forward_refl|exact forward_trans|exact read_forward].
Qed.

Lemma forward_modify (g : state -> state) :
  (forall s, f_pos (g s) = f_pos s) -> preserves forward (modify g).
Proof.
  intros Hg. apply preserves_modify. intros s. unfold forward. rewrite Hg. lia.
Qed.

Ltac fwd :=
  repeat first
    [ progress intros
    | apply forward_read_u32
    | apply forward_read_id
    | apply read_forward
    | apply (preserves_unpack forward forward_refl)
    | apply (preserves_ret forward forward_refl)
    | apply forward_bind ].

Lemma string_record_forward len :
  preserves forward (string_record content id_size len).
Proof. unfold string_record. fwd. apply forward_modify. reflexivity. Qed.

Lemma load_class_record_forward :
  preserves forward (load_class_record content id_size).
Proof.
  unfold load_class_record. fwd. apply forward_modify.
  intros s. unfold register_class. simpl.
  destruct (strings s !! _); reflexivity.
Qed.

Lemma record_header_forward tag_bytes :
  preserves forward (record_header content tag_bytes).
Proof. unfold record_header. fwd. apply forward_modify. reflexivity. Qed.

Lemma record_payload_forward fuel tag len :
  preserves forward (record_payload lower_nonascii content id_size fuel tag len).
Proof.
  unfold record_payload.
  destruct (tag =? TAG_STRING); [apply string_record_forward|].
  destruct (tag =? TAG_LOAD_CLASS); [apply load_class_record_forward|].
  destruct (_ || _).
  - intros s a s' H. unfold heap_dump_record in H.
    apply bind_done in H as (? & s1 & H1 & H2). inversion H1; subst; clear H1.
    apply bind_done in H2 as (? & s2 & H2 & H3). inversion H2; subst; clear H2.
    apply heap_loop_post in H3. unfold forward in *. simpl in *. lia.
  - fwd.
Qed.

Lemma record_body_forward fuel tag_bytes :
  preserves forward (record_body lower_nonascii content id_size fuel tag_bytes).
Proof.
  unfold record_body.
  apply forward_bind;
    [apply record_header_forward|intros; apply record_payload_forward].
Qed.

Lemma record_payload_no_hang fuel tag len s :
  (bytes_left content s < fuel)%nat ->
  record_payload lower_nonascii content id_size fuel tag len s <> Hang.
Proof.
  intros Hf. unfold record_payload.
  destruct (tag =? TAG_STRING); [apply never_hangs_string_record|].
  destruct (tag =? TAG_LOAD_CLASS); [apply never_hangs_load_class_record|].
  destruct (_ || _).
  - unfold heap_dump_record, bind, modify, tell. simpl.
    apply heap_loop_no_hang. exact Hf.
  - apply never_hangs_bind; [apply never_hangs_read|intros; apply never_hangs_ret].
Qed.

Lemma record_body_no_hang fuel tag_bytes s :
  (bytes_left content s < fuel)%nat ->
  record_body lower_nonascii content id_size fuel tag_bytes s <> Hang.
Proof.
  intros Hf. unfold record_body, bind.
  destruct (record_header content tag_bytes s) as [[hd s1]|e|] eqn:H1.
  - apply record_payload_no_hang.
    apply record_header_forward in H1. unfold forward, bytes_left in *. lia.
  - discriminate.
  - exfalso. eapply never_hangs_record_header; eassumption.
Qed.

Lemma read_1_done s bs s' :
  read content 1 s = Done (bs, s') ->
  bs = [] /\ s' = s \/
  f_pos s < file_size /\ s' = set_pos (f_pos s + 1) s /\ exists b, bs = [b].
Proof.
  intros H.
  pose proof (read_eq content 1 s ltac:(lia)) as Hr. cbv zeta in Hr.
  change (1 =? -1) with false in Hr. cbv iota in Hr.
  rewrite Hr in H. inversion H; subst; clear H Hr.
  destruct (drop (Z.to_nat (f_pos s)) content) as [|b l] eqn:Hd.
  - left. simpl. rewrite Z.add_0_r, set_pos_id. auto.
  - right. change (take (Z.to_nat 1) (b :: l)) with [b]. simpl.
    assert (Hlen : (List.length (drop (Z.to_nat (f_pos s)) content) <> 0)%nat)
      by (rewrite Hd; discriminate).
    rewrite length_skipn in Hlen.
    repeat split; [destruct (Z.le_gt_cases 0 (f_pos s)); lia|eauto].
Qed.

Lemma record_loop_no_hang fuel s :
  (bytes_left content s < fuel)%nat ->
  record_loop lower_nonascii content id_size fuel s <> Hang.
Proof.
  revert s. induction fuel as [|k IH]; intros s Hf; [lia|].
  simpl. unfold bind at 1.
  destruct (read content 1 s) as [[bs s1]|e|] eqn:H1.
  - apply read_1_done in H1 as [[-> ->]|(Hlt & -> & b & ->)]; [discriminate|].
    assert (Hk : (bytes_left content (set_pos (f_pos s + 1) s) < k)%nat).
    { unfold bytes_left in *. simpl. lia. }
    unfold bind.
    destruct (record_body _ _ _ k [b] _) as [[[] s2]|e|] eqn:H2.
    + apply IH. apply record_body_forward in H2.
      unfold forward, bytes_left in *. simpl in *. lia.
    + discriminate.
    + exfalso. eapply record_body_no_hang; eassumption.
  - discriminate.
  - exfalso. eapply never_hangs_read; eassumption.
Qed.

Lemma record_payload_fuel_mono fuel fuel' tag len s :
  (fuel <= fuel')%nat ->
  record_payload lower_nonascii content id_size fuel tag len s <> Hang ->
  record_payload lower_nonascii content id_size fuel' tag len s
  = record_payload lower_nonascii content id_size fuel tag len s.
Proof.
  intros Hle Hnh. unfold record_payload in *.
  destruct (tag =? TAG_STRING); [reflexivity|].
  destruct (tag =? TAG_LOAD_CLASS); [reflexivity|].
  destruct (_ || _); [|reflexivity].
  unfold heap_dump_record, bind, modify, tell in *. simpl in *.
  apply heap_loop_fuel_mono; assumption.
Qed.

Lemma record_loop_fuel_mono fuel fuel' s :
  (fuel <= fuel')%nat ->
  record_loop lower_nonascii content id_size fuel s <> Hang ->
  record_loop lower_nonascii content id_size fuel' s
  = record_loop lower_nonascii content id_size fuel s.
Proof.
  revert fuel' s. induction fuel as [|k IH]; intros fuel' s Hle Hnh.
  - exfalso. apply Hnh. reflexivity.
  - destruct fuel' as [|k']; [lia|]. simpl in *.
    unfold bind at 1. unfold bind at 1 in Hnh. unfold bind at 2.
    destruct (read content 1 s) as [[[|b bs] s1]|e|]; try reflexivity.
    unfold record_body, bind in *.
    destruct (record_header content (b :: bs) s1) as [[hd s2]|e|];
      try reflexivity.
    assert (Hp : record_payload lower_nonascii content id_size k
                   (fst hd) (snd hd) s2 <> Hang).
    { intros C. rewrite C in Hnh. congruence. }
    rewrite (record_payload_fuel_mono k k') by (assumption || lia).
    destruct (record_payload _ _ _ k _ _ s2) as [[[] s3]|e|];
      try reflexivity.
    apply IH; [lia|exact Hnh].
Qed.

End Cursor.

(** ** The header scan *)

Section Header.

Variable content : list byte.

Lemma read_1_eq (s : state) :
  read content 1 s
  = match content !! Z.to_nat (f_pos s) with
    | Some b => Done ([b], set_pos (f_pos s + 1) s)
    | None => Done ([], s)
    end.
Proof.
  pose proof (read_eq content 1 s ltac:(lia)) as Hr. cbv zeta in Hr.
  change (1 =? -1) with false in Hr. cbv iota in Hr. rewrite Hr. clear Hr.
  destruct (content !! Z.to_nat (f_pos s)) as [b|] eqn:E.
  - rewrite (drop_S _ _ _ E). reflexivity.
  - apply lookup_ge_None in E. rewrite drop_ge by exact E.
    simpl. rewrite Z.add_0_r, set_pos_id. reflexivity.
Qed.

Lemma header_loop_step fuel header s :
  header_loop content (S fuel) header s
  = match content !! Z.to_nat (f_pos s) with
    | Some c =>
      if Byte.eqb c Byte.x00 then Done (header, set_pos (f_pos s + 1) s)
      else header_loop content fuel (header ++ [c]) (set_pos (f_pos s + 1) s)
    | None => header_loop content fuel header s
    end.
Proof.
  simpl. unfold bind. rewrite read_1_eq.
  destruct (content !! Z.to_nat (f_pos s)) as [c|].
  - destruct c; reflexivity.
  - rewrite app_nil_r. reflexivity.
Qed.

(** Without a NUL byte at or after the cursor the scan never ends: at the
    end of the file [f.read(1)] keeps returning [b''], which is not
    [b'\x00']. *)
Lemma header_loop_hangs fuel header s :
  0 <= f_pos s ->
  Forall (fun b => b <> Byte.x00) (drop (Z.to_nat (f_pos s)) content) ->
  header_loop content fuel header s = Hang.
Proof.
  revert header s. induction fuel as [|k IH]; intros header s Hpos Hall;
    [reflexivity|].
  rewrite header_loop_step.
  destruct (content !! Z.to_nat (f_pos s)) as [c|] eqn:E.
  - rewrite (drop_S _ _ _ E) in Hall. inversion Hall as [|? ? Hc Hrest]; subst.
    destruct (Byte.eqb c Byte.x00) eqn:Eb.
    + apply Byte.byte_dec_bl in Eb. contradiction.
    + apply IH; simpl; [lia|].
      replace (Z.to_nat (f_pos s + 1)) with (S (Z.to_nat (f_pos s))) by lia.
      exact Hrest.
  - apply IH; assumption.
Qed.

(** With a NUL byte ahead, the scan stops right after it. *)
Lemma header_loop_finds fuel header s pre magic post :
  content = pre ++ magic ++ Byte.x00 :: post ->
  f_pos s = Z.of_nat (List.length pre) ->
  Forall (fun b => b <> Byte.x00) magic ->
  (List.length magic < fuel)%nat ->
  header_loop content fuel header s
  = Done (header ++ magic,
          set_pos (f_pos s + Z.of_nat (List.length magic) + 1) s).
Proof.
  revert fuel header s pre.
  induction magic as [|c magic IH]; intros fuel header s pre Hc Hp Hall Hf.
  - destruct fuel as [|k]; [simpl in Hf; lia|].
    assert (Hl : content !! List.length pre = Some Byte.x00).
    { rewrite Hc, lookup_app_r by lia. rewrite Nat.sub_diag. reflexivity. }
    rewrite header_loop_step, Hp, Nat2Z.id, Hl. simpl.
    rewrite app_nil_r, Z.add_0_r. reflexivity.
  - destruct fuel as [|k]; [simpl in Hf; lia|].
    apply Forall_cons in Hall as [Hne Hrest].
    assert (Hl : content !! List.length pre = Some c).
    { rewrite Hc, lookup_app_r by lia. rewrite Nat.sub_diag. reflexivity. }
    rewrite header_loop_step, Hp, Nat2Z.id, Hl.
    destruct (Byte.eqb c Byte.x00) eqn:Eb.
    { apply Byte.byte_dec_bl in Eb. contradiction. }
    rewrite (IH k (header ++ [c]) _ (pre ++ [c])); simpl.
    + rewrite <- app_assoc. simpl. f_equal. f_equal.
      destruct s; unfold set_pos; simpl. f_equal. lia.
    + rewrite Hc, <- app_assoc. reflexivity.
    + rewrite length_app. simpl. lia.
    + exact Hrest.
    + simpl in Hf. lia.
Qed.

Lemma header_loop_fuel_mono fuel fuel' header s :
  (fuel <= fuel')%nat ->
  header_loop content fuel header s <> Hang ->
  header_loop content fuel' header s = header_loop content fuel header s.
Proof.
  revert fuel' header s. induction fuel as [|k IH]; intros fuel' header s Hle Hnh.
  - exfalso. apply Hnh. reflexivity.
  - destruct fuel' as [|k']; [lia|].
    rewrite !header_loop_step in *.
    destruct (content !! Z.to_nat (f_pos s)) as [c|].
    + destruct (Byte.eqb c Byte.x00); [reflexivity|].
      apply IH; [lia|exact Hnh].
    + apply IH; [lia|exact Hnh].
Qed.

End Header.

(** ** The whole analysis *)

Lemma first_nul (l : list byte) :
  In Byte.x00 l ->
  exists magic post,
    l = magic ++ Byte.x00 :: post /\ Forall (fun b => b <> Byte.x00) magic.
Proof.
  induction l as [|a l IH]; intros Hin; [destruct Hin|].
  destruct (Byte.eqb a Byte.x00) eqn:E.
  - apply Byte.byte_dec_bl in E. subst a. exists [], l. split; [reflexivity|constructor].
  - destruct Hin as [->|Hin]; [rewrite (Byte.byte_dec_lb eq_refl) in E; discriminate|].
    destruct (IH Hin) as (magic & post & -> & Hall).
    exists (a :: magic), post. split; [reflexivity|].
    constructor; [|exact Hall]. apply Byte.eqb_false. exact E.
Qed.

Section Whole.

Variable lower_nonascii : pystr -> nat -> pystr.
Variable content : list byte.

Lemma decode_fuel_mono fuel fuel' s :
  (fuel <= fuel')%nat ->
  decode lower_nonascii content fuel s <> Hang ->
  decode lower_nonascii content fuel' s = decode lower_nonascii content fuel s.
Proof.
  intros Hle Hnh. unfold decode, bind in *.
  assert (Hh : header_loop content fuel [] s <> Hang).
  { intros C. rewrite C in Hnh. congruence. }
  rewrite (header_loop_fuel_mono content fuel fuel') by assumption.
  destruct (header_loop content fuel [] s) as [[header s1]|e|]; try reflexivity.
  destruct (read_u32 content s1) as [[id_size s2]|e|]; try reflexivity.
  destruct (read_u64 content s2) as [[timestamp s3]|e|]; try reflexivity.
  assert (Hr : record_loop lower_nonascii content id_size fuel s3 <> Hang).
  { intros C. rewrite C in Hnh. congruence. }
  rewrite (record_loop_fuel_mono lower_nonascii content id_size fuel fuel')
    by assumption.
  reflexivity.
Qed.

Lemma analyze_hprof_fuel_mono fuel fuel' :
  (fuel <= fuel')%nat ->
  analyze_hprof lower_nonascii fuel content <> Hang ->
  analyze_hprof lower_nonascii fuel' content
  = analyze_hprof lower_nonascii fuel content.
Proof.
  intros Hle Hnh. unfold analyze_hprof in *.
  rewrite (decode_fuel_mono fuel fuel'); [reflexivity|assumption|].
  intros C. rewrite C in Hnh. congruence.
Qed.

(** A file without a NUL byte makes the analysis loop forever. *)
Lemma analyze_hprof_hangs fuel :
  Forall (fun b => b <> Byte.x00) content ->
  analyze_hprof lower_nonascii fuel content = Hang.
Proof.
  intros Hall. unfold analyze_hprof, decode. unfold bind at 1.
  rewrite header_loop_hangs; [reflexivity|simpl; lia|exact Hall].
Qed.

(** A file with a NUL byte is analysed to the end, or to an exception,
    within a number of loop passes bounded by its length. *)
Lemma analyze_hprof_terminates fuel :
  In Byte.x00 content ->
  (List.length content < fuel)%nat ->
  analyze_hprof lower_nonascii fuel content <> Hang.
Proof.
  intros Hin Hf.
  destruct (first_nul content Hin) as (magic & post & Hc & Hall).
  unfold analyze_hprof, decode. unfold bind at 1.
  rewrite (header_loop_finds content fuel [] initial_state [] magic post);
    [|exact Hc|reflexivity|exact Hall|].
  2:{ rewrite Hc, length_app in Hf. simpl in Hf. lia. }
  unfold bind at 1.
  destruct (read_u32 content _) as [[id_size s2]|e|] eqn:H2; [|discriminate|].
  2:{ exfalso. eapply never_hangs_read_u32; eassumption. }
  unfold bind at 1.
  destruct (read_u64 content s2) as [[timestamp s3]|e|] eqn:H3; [|discriminate|].
  2:{ exfalso. eapply never_hangs_read_u64; eassumption. }
  unfold bind.
  destruct (record_loop lower_nonascii content id_size fuel s3)
    as [[[] s4]|e|] eqn:H4; try discriminate.
  exfalso. revert H4. apply record_loop_no_hang.
  assert (Hfw : 0 <= f_pos s3).
  { assert (F2 : forward (set_pos (f_pos initial_state + Z.of_nat (List.length magic) + 1) initial_state) s2).
    { eapply preserves_read_u32; [exact forward_refl|exact forward_trans|
                                  exact (read_forward content)|exact H2]. }
    assert (F3 : forward s2 s3).
    { eapply preserves_read_u64; [exact forward_refl|exact forward_trans|
                                  exact (read_forward content)|exact H3]. }
    unfold forward in *. simpl in *. lia. }
  unfold bytes_left. lia.
Qed.

End Whole.
(** ** Reading fields that sit at the cursor *)

Lemma set_pos_set_pos p q s : set_pos p (set_pos q s) = set_pos p s.
Proof. reflexivity. Qed.

Section FieldsAt.

Variable content : list byte.

Lemma read_field_at (n : nat) (pre chunk post : list byte) (s : state) :
  content = pre ++ chunk ++ post ->
  f_pos s = Z.of_nat (List.length pre) ->
  List.length chunk = n ->
  (n <= 8)%nat ->
  bind (read content (Z.of_nat n)) (unpack n) s
  = Done (be_value chunk, set_pos (f_pos s + Z.of_nat n) s).
Proof.
  intros Hc Hp Hl Hn. subst n.
  rewrite (bind_eq_done _ _ _ _ _ (read_at content pre chunk post s Hc Hp ltac:(lia))).
  unfold unpack. rewrite Nat.eqb_refl. reflexivity.
Qed.

Lemma read_u8_at pre chunk post s :
  content = pre ++ chunk ++ post -> f_pos s = Z.of_nat (List.length pre) ->
  List.length chunk = 1%nat ->
  read_u8 content s = Done (be_value chunk, set_pos (f_pos s + 1) s).
Proof. intros. apply (read_field_at 1 pre chunk post); auto; lia. Qed.

Lemma read_u32_at pre chunk post s :
  content = pre ++ chunk ++ post -> f_pos s = Z.of_nat (List.length pre) ->
  List.length chunk = 4%nat ->
  read_u32 content s = Done (be_value chunk, set_pos (f_pos s + 4) s).
Proof. intros. apply (read_field_at 4 pre chunk post); auto; lia. Qed.

Lemma read_u64_at pre chunk post s :
  content = pre ++ chunk ++ post -> f_pos s = Z.of_nat (List.length pre) ->
  List.length chunk = 8%nat ->
  read_u64 content s = Done (be_value chunk, set_pos (f_pos s + 8) s).
Proof. intros. apply (read_field_at 8 pre chunk post); auto; lia. Qed.

(** An identifier is four bytes wide when [id_size] is 4 and eight bytes
    wide for every other value. *)
Lemma read_id_not_4 id_size :
  id_size <> 4 -> read_id content id_size = read_u64 content.
Proof.
  intros H. unfold read_id. destruct (id_size =? 4) eqn:E; [lia|reflexivity].
Qed.

Lemma read_id_at id_size pre chunk post s :
  content = pre ++ chunk ++ post -> f_pos s = Z.of_nat (List.length pre) ->
  List.length chunk = (if (id_size =? 4)%Z then 4%nat else 8%nat) ->
  read_id content id_size s
  = Done (be_value chunk,
          set_pos (f_pos s + Z.of_nat (List.length chunk)) s).
Proof.
  intros Hc Hp Hl. unfold read_id. destruct (id_size =? 4).
  - rewrite Hl. apply (read_u32_at pre chunk post); auto.
  - rewrite Hl. apply (read_u64_at pre chunk post); auto.
Qed.

End FieldsAt.

Lemma ascii_bytes_no_nul (text : string) :
  forallb (fun b => negb (Byte.eqb b Byte.x00)) (ascii_bytes text) = true ->
  Forall (fun b => b <> Byte.x00) (ascii_bytes text).
Proof.
  intros H. apply Forall_forall. intros b Hb.
  rewrite forallb_forall in H. apply list_elem_of_In in Hb.
  specialize (H b Hb). apply negb_true_iff in H. apply Byte.eqb_false. exact H.
Qed.

(** ** Reading to the end of the file; associativity *)

Lemma read_all (content pre rest : list byte) (s : state) :
  content = pre ++ rest ->
  f_pos s = Z.of_nat (List.length pre) ->
  read content (-1) s
  = Done (rest, set_pos (f_pos s + Z.of_nat (List.length rest)) s).
Proof.
  intros Hc Hp.
  pose proof (read_eq content (-1) s ltac:(lia)) as H. cbv zeta in H.
  change (-1 =? -1) with true in H. cbv iota in H.
  rewrite H, Hp, Nat2Z.id, Hc, drop_app_length. reflexivity.
Qed.

Lemma bind_assoc {A B C : Type} (m : M A) (k : A -> M B) (k' : B -> M C) s :
  bind (bind m k) k' s = bind m (fun a => bind (k a) k') s.
Proof. unfold bind. destruct (m s) as [[a s']| |]; reflexivity. Qed.

Ltac len_norm :=
  cbn [f_pos set_pos set_record_count set_strings];
  repeat first
    [ rewrite length_app | rewrite length_be_bytes | rewrite length_cons
    | rewrite length_nil ].

Ltac field_at :=
  first
    [ apply length_be_bytes
    | assumption
    | reflexivity
    | match goal with
      | |- _ = _ ++ _ =>
        repeat first [rewrite <- app_assoc | rewrite <- app_comm_cons];
        reflexivity
      | |- _ = Z.of_nat _ => len_norm; lia
      end ].


(** ** Relations preserved by the loops *)

Lemma preserves_read_of_pos (R : state -> state -> Prop) content n :
  (forall s, R s s) -> (forall p s, R s (set_pos p s)) ->
  preserves R (read content n).
Proof.
  intros R_refl R_pos s a s' H. unfold read in H.
  repeat match type of H with
         | context [if ?c then _ else _] => destruct c
         end; inversion H; subst; auto.
Qed.

Section PreservesLoops.

Variable R : state -> state -> Prop.
Hypothesis R_refl : forall s, R s s.
Hypothesis R_trans : forall s1 s2 s3, R s1 s2 -> R s2 s3 -> R s1 s3.

Variable lower_nonascii : pystr -> nat -> pystr.
Variable content : list byte.
Variable id_size : Z.

(** The relation tolerates every read and every update of a table or
    counter that the decoder makes. *)
Hypothesis R_read : forall n, preserves R (read content n).
Hypothesis R_class_super : forall v s, R s (set_class_super v s).
Hypothesis R_append_root :
  forall t obj_id, preserves R (append_root t obj_id).
Hypothesis R_tally :
  forall obj_id class_id,
    preserves R (tally_instance lower_nonascii obj_id class_id).
Hypothesis R_strings : forall v s, R s (set_strings v s).
Hypothesis R_register :
  forall serial class_obj_id name_id s,
    R s (register_class serial class_obj_id name_id s).
Hypothesis R_record_count : forall v s, R s (set_record_count v s).
Hypothesis R_heap_records : forall v s, R s (set_heap_records v s).

Lemma preserves_sub_dispatch end_pos sub_tag :
  (forall s, R s (set_pos end_pos s)) ->
  preserves R (sub_dispatch lower_nonascii content id_size end_pos sub_tag).
Proof.
  intros R_seek. destruct (recognized sub_tag) eqn:Hrec.
  - apply preserves_sub_dispatch_recognized; auto.
  - intros s b s' H. rewrite sub_dispatch_unrecognized in H by exact Hrec.
    inversion H; subst. apply R_seek.
Qed.

Lemma preserves_sub_record end_pos :
  (forall s, R s (set_pos end_pos s)) ->
  preserves R (sub_record lower_nonascii content id_size end_pos).
Proof.
  intros R_seek. unfold sub_record. apply preserves_bind; [exact R_trans| |].
  - apply preserves_read_u8; auto.
  - intros t. apply preserves_sub_dispatch. exact R_seek.
Qed.

Lemma preserves_heap_loop fuel end_pos :
  (forall s, R s (set_pos end_pos s)) ->
  preserves R (heap_loop lower_nonascii content id_size fuel end_pos).
Proof.
  intros R_seek.
  induction fuel as [|k IH]; intros s a s' H; simpl in H.
  - destruct (f_pos s <? end_pos); [discriminate|].
    inversion H; subst. apply R_refl.
  - destruct (f_pos s <? end_pos).
    + apply bind_done in H as (b & s1 & H1 & H2).
      apply (preserves_sub_record end_pos R_seek) in H1.
      destruct b.
      * eapply R_trans; [exact H1|]. eapply IH. exact H2.
      * inversion H2; subst. exact H1.
    + inversion H; subst. apply R_refl.
Qed.

(** The relation tolerates every move of the cursor. *)
Hypothesis R_pos : forall p s, R s (set_pos p s).

Ltac pres_all :=
  repeat first
    [ progress intros
    | apply (preserves_read_u32 R R_refl R_trans content R_read)
    | apply (preserves_read_id R R_refl R_trans content id_size R_read)
    | apply R_read
    | apply (preserves_unpack R R_refl)
    | apply (preserves_ret R R_refl)
    | apply (preserves_tell R R_refl)
    | apply preserves_heap_loop; intros; apply R_pos
    | apply preserves_modify; intros; solve [auto]
    | apply (preserves_bind R R_trans) ].

Lemma preserves_string_record len :
  preserves R (string_record content id_size len).
Proof. unfold string_record. pres_all. Qed.

Lemma preserves_load_class_record :
  preserves R (load_class_record content id_size).
Proof. unfold load_class_record. pres_all. Qed.

Lemma preserves_record_header tag_bytes :
  preserves R (record_header content tag_bytes).
Proof. unfold record_header. pres_all. Qed.

Lemma preserves_record_payload fuel tag len :
  preserves R (record_payload lower_nonascii content id_size fuel tag len).
Proof.
  unfold record_payload.
  destruct (tag =? TAG_STRING); [apply preserves_string_record|].
  destruct (tag =? TAG_LOAD_CLASS); [apply preserves_load_class_record|].
  destruct (_ || _); [unfold heap_dump_record|]; pres_all.
Qed.

Lemma preserves_record_body fuel tag_bytes :
  preserves R (record_body lower_nonascii content id_size fuel tag_bytes).
Proof.
  unfold record_body. apply (preserves_bind R R_trans).
  - apply preserves_record_header.
  - intros hd. apply preserves_record_payload.
Qed.

Lemma preserves_record_loop fuel :
  preserves R (record_loop lower_nonascii content id_size fuel).
Proof.
  induction fuel as [|k IH]; intros s a s' H; [discriminate|].
  cbn [record_loop] in H.
  apply bind_done in H as (bs & s1 & H1 & H2).
  apply R_read in H1.
  destruct bs as [|b bs].
  - inversion H2; subst. exact H1.
  - apply bind_done in H2 as (? & s2 & H2 & H3).
    apply preserves_record_body in H2. apply IH in H3.
    eauto.
Qed.

End PreservesLoops.
(** ** Class names *)

Lemma str_eqb_refl (a : pystr) : str_eqb a a = true.
Proof.
  induction a as [|x a IH]; [reflexivity|]. simpl. rewrite Z.eqb_refl. exact IH.
Qed.

Lemma str_eqb_eq (a b : pystr) : str_eqb a b = true -> a = b.
Proof.
  revert b. induction a as [|x a IH]; intros [|y b] H; try discriminate;
    [reflexivity|].
  simpl in H. apply andb_true_iff in H as [H1 H2].
  apply Z.eqb_eq in H1. apply IH in H2. congruence.
Qed.









(** ** The GC-root ledger *)

Lemma Counter_of_snoc {K : Type} (eqb : K -> K -> bool) (l : list K) (k : K) :
  Counter_of eqb (l ++ [k]) = counter_incr eqb k (Counter_of eqb l).
Proof. unfold Counter_of. rewrite fold_left_app. reflexivity. Qed.

Lemma root_type_eqb_refl (t : root_type) : root_type_eqb t t = true.
Proof. destruct t; reflexivity. Qed.

Section Roots.

Variable lower_nonascii : pystr -> nat -> pystr.
Variable content : list byte.
Variable id_size : Z.








End Roots.



(** ** The classifier and the suspect section *)

Lemma In_insert_desc {K : Type} (x y : K * Z) (l : list (K * Z)) :
  In y (insert_desc x l) <-> y = x \/ In y l.
Proof.
  induction l as [|z l IH]; simpl; [intuition congruence|].
  destruct (snd x <? snd z); simpl; [rewrite IH|]; intuition congruence.
Qed.

Lemma In_sorted_desc {K : Type} (y : K * Z) (l : list (K * Z)) :
  In y (sorted_desc l) <-> In y l.
Proof.
  unfold sorted_desc. induction l as [|x l IH]; simpl; [tauto|].
  rewrite In_insert_desc, IH. intuition congruence.
Qed.

Lemma classify_first_match lower_nonascii class_name :
  classify lower_nonascii class_name
  = first_match (rule_table lower_nonascii) class_name.
Proof.
  unfold classify, rule_table, first_match, rule_activity, rule_service,
    rule_scope, rule_view.
  reflexivity.
Qed.

(** What one INSTANCE_DUMP does to the four category lists. *)
Lemma tally_instance_buckets lower_nonascii obj_id class_id s a s' :
  tally_instance lower_nonascii obj_id class_id s = Done (a, s') ->
  let name := resolve_name s class_id in
  buckets s'
  = match classify lower_nonascii name with
    | Some Activity =>
      (activity_instances s ++ [(obj_id, name)], service_instances s,
       scope_instances s, view_instances s)
    | Some Service =>
      (activity_instances s, service_instances s ++ [(obj_id, name)],
       scope_instances s, view_instances s)
    | Some Scope =>
      (activity_instances s, service_instances s,
       scope_instances s ++ [(obj_id, name)], view_instances s)
    | Some ViewFragment =>
      (activity_instances s, service_instances s, scope_instances s,
       view_instances s ++ [(obj_id, name)])
    | None => buckets s
    end.
Proof.
  unfold tally_instance, modify. intros H. inversion H; subst; clear H.
  cbv zeta.
  destruct (classify lower_nonascii (resolve_name s class_id)) as [[]|];
    reflexivity.
Qed.

Lemma In_suspect_rows instance_counts count name flag :
  In (count, name, flag) (suspect_rows instance_counts)
  <-> In (name, count) instance_counts
      /\ (exists keyword,
             In keyword suspect_keywords /\ str_in keyword name = true)
      /\ flag = singleton_flag name count.
Proof.
  unfold suspect_rows. rewrite in_flat_map. split.
  - intros (keyword & Hk & Hin).
    apply in_map_iff in Hin as ([name' count'] & Heq & Hin).
    inversion Heq; subst; clear Heq.
    rewrite In_sorted_desc in Hin. apply filter_In in Hin as [Hin Hstr].
    cbn [fst] in Hstr. split; [exact Hin|].
    split; [exists keyword; split; assumption|reflexivity].
  - intros (Hin & (keyword & Hk & Hstr) & ->).
    exists keyword. split; [exact Hk|].
    apply in_map_iff. exists (name, count). split; [reflexivity|].
    rewrite In_sorted_desc. apply filter_In. split; assumption.
Qed.

(** ** Heap-dump segments *)

Section Segment.

Variable lower_nonascii : pystr -> nat -> pystr.
Variable content : list byte.
Variable id_size : Z.

Lemma within_refl end_pos s : within content end_pos s s.
Proof. unfold within. lia. Qed.



Lemma read_within end_pos n : preserves (within content end_pos) (read content n).
Proof.
  intros s a s' H. unfold read in H.
  destruct (n <? -1); [discriminate|].
  destruct (2 ^ 63 <=? n); [discriminate|].
  destruct (Z.of_nat (List.length content) <=? f_pos s) eqn:E.
  - inversion H; subst. apply within_refl.
  - inversion H; subst; clear H. unfold within. cbn [f_pos set_pos].
    assert (Hlen : forall l : list byte,
               (List.length l <= List.length (drop (Z.to_nat (f_pos s)) content))%nat ->
               f_pos s + Z.of_nat (List.length l)
               <= Z.max (f_pos s) (Z.of_nat (List.length content))).
    { intros l Hl. rewrite length_skipn in Hl. lia. }
    destruct (n =? -1).
    + specialize (Hlen _ (Nat.le_refl _)). lia.
    + match goal with
      | |- context [List.length (take ?k ?l)] =>
        specialize (Hlen (take k l)); rewrite length_take in Hlen
      end.
      specialize (Hlen ltac:(lia)). rewrite length_take. lia.
Qed.



End Segment.

(** * The claims *)

(** ** C1: two instances of one class *)



(** ** C2: the id width in the header *)

(** C2, as stated, fails: a header that declares 5-byte identifiers is
    accepted and the STRING record after it is decoded, its id read as
    eight bytes. *)
Lemma C2_counterexample :
  exists r s,
    analyze_hprof no_tables 32 id5_stream = Done (r, s)
    /\ rep_id_size r = 5 /\ rep_record_count r = 1
    /\ strings s !! 7 = Some (py "abc").
Proof.
  eexists. eexists. split; [vm_compute; reflexivity|].
  repeat split; vm_compute; reflexivity.
Qed.

(** C2, amended.  No id width is rejected.  Whatever width the header
    declares, the analysis goes on to the record loop with that width,
    the cursor standing right after the timestamp; identifiers are then
    read as eight bytes unless the width is exactly 4. *)
Theorem C2_every_id_width_reaches_the_record_loop :
  forall (lower_nonascii : pystr -> nat -> pystr)
         (magic rest : list byte) (id_size timestamp : Z) (fuel : nat),
    Forall (fun b => b <> Byte.x00) magic ->
    0 <= id_size < 2 ^ 32 ->
    0 <= timestamp < 2 ^ 64 ->
    (List.length magic < fuel)%nat ->
    let content :=
      magic ++ [Byte.x00] ++ be_bytes 4 id_size ++ be_bytes 8 timestamp ++ rest in
    decode lower_nonascii content fuel initial_state
    = bind (record_loop lower_nonascii content id_size fuel)
           (fun _ => ret (magic, id_size, timestamp))
           (set_pos (Z.of_nat (List.length magic) + 13) initial_state)
    /\ (id_size <> 4 -> read_id content id_size = read_u64 content).
Proof.
  intros lower_nonascii magic rest id_size timestamp fuel Hall Hid Hts Hf content.
  split; [|apply read_id_not_4].
  unfold decode.
  rewrite (bind_eq_done _ _ _ _ _
             (header_loop_finds content fuel [] initial_state [] magic
                (be_bytes 4 id_size ++ be_bytes 8 timestamp ++ rest)
                eq_refl eq_refl Hall Hf)).
  simpl app at 1.
  erewrite bind_eq_done;
    [|apply (read_u32_at content (magic ++ [Byte.x00]) (be_bytes 4 id_size)
               (be_bytes 8 timestamp ++ rest));
      [subst content; rewrite <- app_assoc; reflexivity
      |simpl; rewrite length_app; simpl; lia
      |apply length_be_bytes]].
  erewrite bind_eq_done;
    [|apply (read_u64_at content (magic ++ [Byte.x00] ++ be_bytes 4 id_size)
               (be_bytes 8 timestamp) rest);
      [subst content; rewrite <- !app_assoc; reflexivity
      |simpl; rewrite length_app; simpl; lia
      |apply length_be_bytes]].
  rewrite !be_value_be_bytes by (simpl; lia).
  rewrite !set_pos_set_pos. simpl f_pos.
  replace (0 + Z.of_nat (List.length magic) + 1 + 4 + 8)
    with (Z.of_nat (List.length magic) + 13) by lia.
  reflexivity.
Qed.

Lemma C2_every_id_width_reaches_the_record_loop_witness :
  decode no_tables id5_stream 32 initial_state
  = bind (record_loop no_tables id5_stream 5 32)
         (fun _ => ret (ascii_bytes MAGIC, 5, 0))
         (set_pos 31 initial_state)
  /\ (5 <> 4 -> read_id id5_stream 5 = read_u64 id5_stream).
Proof.
  exact (C2_every_id_width_reaches_the_record_loop no_tables
           (ascii_bytes MAGIC)
           (be_bytes 1 TAG_STRING ++ be_bytes 4 0 ++ be_bytes 4 8
            ++ be_bytes 8 7 ++ ascii_bytes "abc")
           5 0 32
           (ascii_bytes_no_nul MAGIC eq_refl)
           ltac:(lia) ltac:(lia) ltac:(simpl; lia)).
Defined.

(** ** C3: resolving class names *)



(** ** C4: root sub-records and the ledger *)



(** ** C5: one category per class *)

(** C5, as stated, fails: a class matched by the Service rule is also
    listed, with the mark, in the suspect section; and a class that
    matches the configured name "SmartLocator" with two instances is
    listed there without the mark. *)
Lemma C5_counterexample :
  exists r s,
    analyze_hprof no_tables 32
      (two_instances_stream "me/ikate/findmy/service/LocationReportService")
    = Done (r, s)
    /\ classify no_tables (py "me/ikate/findmy/service/LocationReportService")
       = Some Service
    /\ rep_service r
       = [(2, py "me/ikate/findmy/service/LocationReportService", true)]
    /\ rep_suspect r
       = [(2, py "me/ikate/findmy/service/LocationReportService", true)]
    /\ suspect_rows [(py "a/SmartLocator", 2)]
       = [(2, py "a/SmartLocator", false)].
Proof.
  eexists. eexists. split; [vm_compute; reflexivity|].
  repeat split; vm_compute; reflexivity.
Qed.

(** C5, amended.  Among the four categories assigned while decoding
    (Activity, Service, concurrency scope, View/Fragment) the first
    matching rule of the ordered table decides, and an instance is added
    to the list of that category only.  The suspect section is computed
    afterwards from the per-class counts and does not look at those
    categories: it lists every counted class whose name contains a
    configured suspect name, and the line carries the mark exactly when
    the count exceeds 1 and the name contains one of "Manager",
    "Service", "Repository", "Singleton", "ViewModel". *)
Theorem C5_first_match_among_four_and_separate_suspect_pass :
  forall (lower_nonascii : pystr -> nat -> pystr),
    (forall class_name,
        classify lower_nonascii class_name
        = first_match (rule_table lower_nonascii) class_name)
    /\ (forall obj_id class_id s a s',
           tally_instance lower_nonascii obj_id class_id s = Done (a, s') ->
           let name := resolve_name s class_id in
           buckets s'
           = match classify lower_nonascii name with
             | Some Activity =>
               (activity_instances s ++ [(obj_id, name)], service_instances s,
                scope_instances s, view_instances s)
             | Some Service =>
               (activity_instances s, service_instances s ++ [(obj_id, name)],
                scope_instances s, view_instances s)
             | Some Scope =>
               (activity_instances s, service_instances s,
                scope_instances s ++ [(obj_id, name)], view_instances s)
             | Some ViewFragment =>
               (activity_instances s, service_instances s, scope_instances s,
                view_instances s ++ [(obj_id, name)])
             | None => buckets s
             end)
    /\ (forall instance_counts count name flag,
           In (count, name, flag) (suspect_rows instance_counts)
           <-> In (name, count) instance_counts
               /\ (exists keyword,
                      In keyword suspect_keywords
                      /\ str_in keyword name = true)
               /\ flag = singleton_flag name count).
Proof.
  intros lower_nonascii. split; [apply classify_first_match|].
  split; [apply tally_instance_buckets|apply In_suspect_rows].
Qed.
Lemma C5_first_match_among_four_and_separate_suspect_pass_witness :
  classify no_tables (py "me/ikate/findmy/service/LocationReportService")
  = Some Service
  /\ In (2, py "me/ikate/findmy/service/LocationReportService", true)
        (suspect_rows
           [(py "me/ikate/findmy/service/LocationReportService", 2)]).
Proof.
  destruct (C5_first_match_among_four_and_separate_suspect_pass no_tables)
    as (H1 & _ & H3).
  split; [rewrite H1; vm_compute; reflexivity|].
  apply H3. split; [left; reflexivity|].
  split; [|vm_compute; reflexivity].
  exists (py "LocationReportService").
  split; [|vm_compute; reflexivity].
  unfold suspect_keywords. cbn [map In].
  do 4 right. left. reflexivity.
Defined.

(** ** C6: bytes consumed by a segment *)




(** ** C7: an unknown sub-tag *)


(** The STRING record that follows the abandoned segment is decoded. *)
Example unknown_sub_tag_stream_analysis :
  exists r s,
    analyze_hprof no_tables 32 unknown_sub_tag_stream = Done (r, s)
    /\ rep_record_count r = 2
    /\ gc_roots s = [(STICKY_CLASS, 9)]
    /\ strings s !! 7 = Some (py "after").
Proof.
  eexists. eexists. split; [vm_compute; reflexivity|].
  repeat split; vm_compute; reflexivity.
Qed.

(** ** C8: termination *)

(** C8 (the code departs from the claim).  The claim is that the analysis
    terminates on every finite input.  On the empty file it does not: the
    header scan reads [b''] at the end of the file, which is not
    [b'\x00'], appends it, and reads again, whatever number of passes it
    is given. *)
Theorem C8_empty_file_never_terminates :
  forall (lower_nonascii : pystr -> nat -> pystr) (fuel : nat),
    analyze_hprof lower_nonascii fuel [] = Hang.
Proof.
  intros lower_nonascii fuel. apply analyze_hprof_hangs. constructor.
Qed.

(** ** C9: determinism *)

(** The [__main__] block run on the same bytes twice reports the same
    thing twice. *)
Lemma main_same_file lower_nonascii fuel content :
  main lower_nonascii fuel content content
  = match analyze_hprof lower_nonascii fuel content with
    | Done r => Done (r, r)
    | Raise e => Raise e
    | Hang => Hang
    end.
Proof.
  unfold main. destruct (analyze_hprof lower_nonascii fuel content); reflexivity.
Qed.



(** ** C10: a STRING record shorter than an identifier *)

(** C10, as stated, fails: on 4-byte ids a STRING record of declared
    length 2 makes the script ask for [2 - 4 = -2] bytes, which the file
    object refuses. *)
Lemma C10_counterexample :
  analyze_hprof no_tables 32 (short_string_stream 2) = Raise ValueError.
Proof. vm_compute. reflexivity. Qed.

(** C10, amended.  A STRING record whose declared length is exactly one
    less than the id width is read with a count of [-1]: every remaining
    byte of the file becomes the text of that string and the record loop
    then stops at the end of the file.  A declared length smaller still
    gives a count below [-1] and the read raises [ValueError]. *)
Theorem C10_string_shorter_than_an_id :
  forall (lower_nonascii : pystr -> nat -> pystr)
         (pre ts4 idbytes rest : list byte) (len id_size : Z)
         (fuel : nat) (s : state),
    let content :=
      pre ++ [Byte.x01] ++ ts4 ++ be_bytes 4 len ++ idbytes ++ rest in
    f_pos s = Z.of_nat (List.length pre) ->
    List.length ts4 = 4%nat ->
    List.length idbytes = (if id_size =? 4 then 4%nat else 8%nat) ->
    0 <= len < 2 ^ 32 ->
    len < id_size ->
    (len = id_size - 1 ->
     exists s',
       record_loop lower_nonascii content id_size (2 + fuel) s = Done (tt, s')
       /\ strings s' = <[be_value idbytes := utf8_decode rest]> (strings s)
       /\ f_pos s' = Z.of_nat (List.length content)
       /\ record_count s' = record_count s + 1)
    /\ (len < id_size - 1 ->
        record_loop lower_nonascii content id_size (1 + fuel) s
        = Raise ValueError).
Proof.
  intros lower_nonascii pre ts4 idbytes rest len id_size fuel s content
         Hp Hts Hid Hlen Hshort.
  assert (Hstep : forall k,
    record_loop lower_nonascii content id_size (S k) s
    = bind (bind (read content (len - id_size))
                 (fun str_data =>
                    modify (fun s0 =>
                      set_strings (<[be_value idbytes := utf8_decode str_data]>
                                     (strings s0)) s0)))
           (fun _ => record_loop lower_nonascii content id_size k)
           (set_pos (f_pos s + 9 + Z.of_nat (List.length idbytes))
              (set_record_count (record_count s + 1) s))).
  { intros k. cbn [record_loop].
    erewrite bind_eq_done;
      [|apply (read_at content pre [Byte.x01]
                 (ts4 ++ be_bytes 4 len ++ idbytes ++ rest));
        [reflexivity|exact Hp|simpl; lia]].
    cbv iota. unfold record_body, record_header.
    rewrite ?bind_assoc. erewrite bind_eq_done; [|reflexivity]. cbv beta.
    rewrite ?bind_assoc. erewrite bind_eq_done;
      [|apply (read_u32_at content (pre ++ [Byte.x01]) ts4
                 (be_bytes 4 len ++ idbytes ++ rest)); subst content;
        cbn [app]; field_at].
    rewrite ?bind_assoc. erewrite bind_eq_done;
      [|apply (read_u32_at content (pre ++ [Byte.x01] ++ ts4) (be_bytes 4 len)
                 (idbytes ++ rest)); subst content; cbn [app]; field_at].
    rewrite be_value_be_bytes by (simpl; lia).
    rewrite ?bind_assoc. erewrite bind_eq_done; [|reflexivity]. cbv beta.
    rewrite ?bind_assoc. erewrite bind_eq_done; [|reflexivity]. cbv beta.
    cbn [fst snd].
    unfold record_payload. change (be_value [Byte.x01] =? TAG_STRING) with true.
    cbv iota. unfold string_record.
    rewrite ?bind_assoc. erewrite bind_eq_done;
      [|apply (read_id_at content id_size
                 (pre ++ [Byte.x01] ++ ts4 ++ be_bytes 4 len) idbytes rest);
        [subst content; cbn [app]; field_at
        |len_norm; lia
        |exact Hid]].
    rewrite <- bind_assoc.
    cbn [f_pos set_pos set_record_count].
    replace (f_pos s + Z.of_nat (List.length [Byte.x01]) + 4 + 4
             + Z.of_nat (List.length idbytes))
      with (f_pos s + 9 + Z.of_nat (List.length idbytes)) by (simpl; lia).
    reflexivity. }
  split.
  - intros Heq.
    replace (2 + fuel)%nat with (S (S fuel)) by lia.
    rewrite Hstep.
    replace (len - id_size) with (-1) by lia.
    rewrite ?bind_assoc. erewrite bind_eq_done;
      [|apply (read_all content
                 (pre ++ [Byte.x01] ++ ts4 ++ be_bytes 4 len ++ idbytes) rest);
        [subst content; field_at|len_norm; lia]].
    rewrite ?bind_assoc. erewrite bind_eq_done; [|reflexivity]. cbv beta.
    cbn [record_loop].
    erewrite bind_eq_done;
      [|apply read_eof; [lia|subst content; len_norm; lia]].
    eexists. split; [reflexivity|].
    cbn [strings f_pos record_count set_strings set_pos set_record_count].
    repeat split. subst content. len_norm. lia.
  - intros Hlt.
    replace (1 + fuel)%nat with (S fuel) by lia.
    rewrite Hstep.
    rewrite ?bind_assoc. erewrite bind_eq_raise; [reflexivity|].
    apply read_low. lia.
Qed.

Lemma C10_string_shorter_than_an_id_witness :
  (3 = 4 - 1 ->
   exists s',
     record_loop no_tables (short_string_stream 3) 4 (2 + 0)
       (set_pos 31 initial_state) = Done (tt, s')
     /\ strings s'
        = <[be_value (be_bytes 4 7)
            := utf8_decode (ascii_bytes "tail"
                            ++ hprof_record TAG_STRING (string_payload 8 "next"))]>
            (strings (set_pos 31 initial_state))
     /\ f_pos s' = Z.of_nat (List.length (short_string_stream 3))
     /\ record_count s' = record_count (set_pos 31 initial_state) + 1)
  /\ (3 < 4 - 1 ->
      record_loop no_tables (short_string_stream 3) 4 (1 + 0)
        (set_pos 31 initial_state) = Raise ValueError).
Proof.
  exact (C10_string_shorter_than_an_id no_tables
           (hprof_header MAGIC 4 0) (be_bytes 4 0) (be_bytes 4 7)
           (ascii_bytes "tail" ++ hprof_record TAG_STRING (string_payload 8 "next"))
           3 4 0%nat (set_pos 31 initial_state)
           eq_refl eq_refl eq_refl ltac:(lia) ltac:(lia)).
Defined.

(** ** Termination when the header is terminated *)

(** X1.  A file that holds a NUL byte is analysed to the end: with one
    loop pass more than the file has bytes, the analysis returns a report
    or raises an exception. *)
Theorem X1_a_file_with_a_NUL_byte_is_analysed_to_the_end :
  forall (lower_nonascii : pystr -> nat -> pystr) (content : list byte)
         (fuel : nat),
    In Byte.x00 content ->
    (List.length content < fuel)%nat ->
    (exists r, analyze_hprof lower_nonascii fuel content = Done r)
    \/ (exists e, analyze_hprof lower_nonascii fuel content = Raise e).
Proof.
  intros lower_nonascii content fuel Hin Hf.
  pose proof (analyze_hprof_terminates lower_nonascii content fuel Hin Hf) as H.
  destruct (analyze_hprof lower_nonascii fuel content) as [r|e|];
    [left; eauto|right; eauto|contradiction].
Qed.

Lemma X1_a_file_with_a_NUL_byte_is_analysed_to_the_end_witness :
  (exists r, analyze_hprof no_tables 66 (short_string_stream 2) = Done r)
  \/ (exists e, analyze_hprof no_tables 66 (short_string_stream 2) = Raise e).
Proof.
  apply (X1_a_file_with_a_NUL_byte_is_analysed_to_the_end
           no_tables (short_string_stream 2) 66).
  - vm_compute. do 18 right. left. reflexivity.
  - vm_compute. lia.
Defined.

(** * Further properties of the decoder *)

(** ** What a successful field read tells *)

Lemma be_value_bound (bs : list byte) :
  0 <= be_value bs < 256 ^ Z.of_nat (List.length bs).
Proof.
  induction bs as [|b bs IH] using rev_ind.
  - unfold be_value. simpl. lia.
  - rewrite be_value_app, length_app. cbn [List.length].
    replace (Z.of_nat (List.length bs + 1)) with (Z.succ (Z.of_nat (List.length bs))) by lia.
    rewrite Z.pow_succ_r by lia.
    pose proof (byte_val_range b). nia.
Qed.

Section FieldsDone.

Variable content : list byte.

Lemma read_field_done (n : nat) s v s' :
  bind (read content (Z.of_nat n)) (unpack n) s = Done (v, s') ->
  (0 < n <= 8)%nat ->
  s' = set_pos (f_pos s + Z.of_nat n) s
  /\ 0 <= v < 256 ^ Z.of_nat n
  /\ f_pos s + Z.of_nat n <= Z.max (f_pos s) (Z.of_nat (List.length content)).
Proof.
  intros H Hn. apply bind_done in H as (bs & s1 & H1 & H2).
  pose proof (read_within content 0 _ _ _ _ H1) as Hw.
  pose proof (read_eq content (Z.of_nat n) s ltac:(lia)) as Hr. cbv zeta in Hr.
  destruct (Z.of_nat n =? -1) eqn:E; [lia|].
  rewrite Hr in H1. inversion H1; subst bs s1; clear H1 Hr.
  unfold unpack in H2.
  destruct (Nat.eqb _ n) eqn:El; [|discriminate].
  apply Nat.eqb_eq in El. inversion H2; subst; clear H2.
  pose proof (be_value_bound
                (take (Z.to_nat (Z.of_nat n)) (drop (Z.to_nat (f_pos s)) content)))
    as Hb.
  rewrite El in *. split; [reflexivity|]. split; [exact Hb|].
  unfold within in Hw. cbn [f_pos set_pos] in Hw. lia.
Qed.

Lemma read_u32_done s v s' :
  read_u32 content s = Done (v, s') ->
  s' = set_pos (f_pos s + 4) s /\ 0 <= v < 2 ^ 32.
Proof.
  intros H. apply (read_field_done 4) in H as (H1 & H2 & _); [|lia].
  split; [exact H1|]. change (256 ^ Z.of_nat 4) with (2 ^ 32) in H2. exact H2.
Qed.

Lemma read_u16_done s v s' :
  read_u16 content s = Done (v, s') ->
  s' = set_pos (f_pos s + 2) s /\ 0 <= v < 2 ^ 16.
Proof.
  intros H. apply (read_field_done 2) in H as (H1 & H2 & _); [|lia].
  split; [exact H1|]. change (256 ^ Z.of_nat 2) with (2 ^ 16) in H2. exact H2.
Qed.

Lemma read_u64_done s v s' :
  read_u64 content s = Done (v, s') ->
  s' = set_pos (f_pos s + 8) s /\ 0 <= v < 2 ^ 64.
Proof.
  intros H. apply (read_field_done 8) in H as (H1 & H2 & _); [|lia].
  split; [exact H1|]. change (256 ^ Z.of_nat 8) with (2 ^ 64) in H2. exact H2.
Qed.


(** A field that the file cannot fill raises [struct.error]. *)
Lemma read_field_short (n : nat) pre rest s :
  content = pre ++ rest ->
  f_pos s = Z.of_nat (List.length pre) ->
  (List.length rest < n <= 8)%nat ->
  bind (read content (Z.of_nat n)) (unpack n) s = Raise StructError.
Proof.
  intros Hc Hp Hn.
  pose proof (read_eq content (Z.of_nat n) s ltac:(lia)) as Hr. cbv zeta in Hr.
  destruct (Z.of_nat n =? -1) eqn:E; [lia|].
  rewrite (bind_eq_done _ _ _ _ _ Hr).
  rewrite Hp, Hc, !Nat2Z.id, drop_app_length.
  rewrite firstn_all2 by lia.
  unfold unpack. destruct (Nat.eqb (List.length rest) n) eqn:El.
  - apply Nat.eqb_eq in El. lia.
  - reflexivity.
Qed.

End FieldsDone.

(** ** One forward pass over the whole file *)

Section ForwardPass.

Variable lower_nonascii : pystr -> nat -> pystr.
Variable content : list byte.

Lemma header_loop_forward fuel header :
  preserves forward (header_loop content fuel header).
Proof.
  revert header. induction fuel as [|k IH]; intros header s a s' H;
    [discriminate|].
  rewrite header_loop_step in H.
  destruct (content !! Z.to_nat (f_pos s)) as [c|].
  - destruct (Byte.eqb c Byte.x00).
    + inversion H; subst. unfold forward. simpl. lia.
    + apply IH in H. unfold forward in *. simpl in H. lia.
  - apply IH in H. exact H.
Qed.

Lemma record_loop_forward id_size fuel :
  preserves forward (record_loop lower_nonascii content id_size fuel).
Proof.
  induction fuel as [|k IH]; intros s a s' H; [discriminate|].
  cbn [record_loop] in H.
  apply bind_done in H as (bs & s1 & H1 & H2).
  apply read_forward in H1.
  destruct bs as [|b bs].
  - inversion H2; subst. exact H1.
  - apply bind_done in H2 as (? & s2 & H2 & H3).
    apply record_body_forward in H2. apply IH in H3.
    unfold forward in *. lia.
Qed.

(** The record loop stops only where [f.read(1)] finds nothing. *)
Lemma record_loop_reaches_end id_size fuel s a s' :
  record_loop lower_nonascii content id_size fuel s = Done (a, s') ->
  0 <= f_pos s ->
  Z.of_nat (List.length content) <= f_pos s'.
Proof.
  revert s. induction fuel as [|k IH]; intros s H Hpos; [discriminate|].
  cbn [record_loop] in H.
  apply bind_done in H as (bs & s1 & H1 & H2).
  rewrite read_1_eq in H1.
  destruct (content !! Z.to_nat (f_pos s)) as [c|] eqn:E.
  - inversion H1; subst bs s1; clear H1.
    apply bind_done in H2 as (? & s2 & H2 & H3).
    apply record_body_forward in H2. unfold forward in H2. simpl in H2.
    apply IH in H3; [exact H3|lia].
  - inversion H1; subst bs s1; clear H1. inversion H2; subst; clear H2.
    apply lookup_ge_None in E. lia.
Qed.

End ForwardPass.

(** X2.  A completed analysis has passed over the whole file: the cursor
    ends at or after the last byte, so no trailing bytes are left
    unexamined when a report is printed. *)
Theorem X2_a_completed_analysis_passed_over_the_whole_file :
  forall (lower_nonascii : pystr -> nat -> pystr) (content : list byte)
         (fuel : nat) (r : report) (s : state),
    analyze_hprof lower_nonascii fuel content = Done (r, s) ->
    Z.of_nat (List.length content) <= f_pos s.
Proof.
  intros lower_nonascii content fuel r s H.
  unfold analyze_hprof in H.
  destruct (decode lower_nonascii content fuel initial_state)
    as [[[[header id_size] timestamp] s0]|e|] eqn:Hd; try discriminate.
  inversion H; subst; clear H.
  unfold decode in Hd.
  apply bind_done in Hd as (hd & s1 & H1 & Hd).
  apply bind_done in Hd as (ids & s2 & H2 & Hd).
  apply bind_done in Hd as (ts & s3 & H3 & Hd).
  apply bind_done in Hd as ([] & s4 & H4 & Hd).
  inversion Hd; subst; clear Hd.
  apply header_loop_forward in H1.
  apply read_u32_done in H2 as [-> _]. apply read_u64_done in H3 as [-> _].
  apply record_loop_reaches_end in H4; [exact H4|].
  unfold forward in H1. simpl in *. lia.
Qed.

Lemma X2_a_completed_analysis_passed_over_the_whole_file_witness :
  exists r s,
    analyze_hprof no_tables 32 unknown_sub_tag_stream = Done (r, s)
    /\ Z.of_nat (List.length unknown_sub_tag_stream) <= f_pos s.
Proof.
  eexists. eexists.
  refine ((fun H => conj H
             (X2_a_completed_analysis_passed_over_the_whole_file
                no_tables unknown_sub_tag_stream 32 _ _ H)) _).
  vm_compute. reflexivity.
Defined.

(** ** Files and records that are cut short *)

Section CutShort.

Variable lower_nonascii : pystr -> nat -> pystr.

Lemma take_drop_split {A : Type} (n : nat) (l : list A) :
  (n <= List.length l)%nat ->
  l = take n l ++ drop n l /\ List.length (take n l) = n
  /\ List.length (drop n l) = (List.length l - n)%nat.
Proof.
  intros H. split; [symmetry; apply take_drop|].
  split; [rewrite length_take; lia|apply length_skipn].
Qed.

(** What the [with] block does once the header is in place. *)
Lemma decode_after_header magic idb tsb rest fuel :
  Forall (fun b => b <> Byte.x00) magic ->
  List.length idb = 4%nat -> List.length tsb = 8%nat ->
  (List.length magic < fuel)%nat ->
  decode lower_nonascii (magic ++ [Byte.x00] ++ idb ++ tsb ++ rest) fuel
    initial_state
  = bind (record_loop lower_nonascii
            (magic ++ [Byte.x00] ++ idb ++ tsb ++ rest) (be_value idb) fuel)
         (fun _ => ret (magic, be_value idb, be_value tsb))
         (set_pos (Z.of_nat (List.length magic) + 13) initial_state).
Proof.
  intros Hall Hid Hts Hf.
  set (content := magic ++ [Byte.x00] ++ idb ++ tsb ++ rest).
  unfold decode.
  rewrite (bind_eq_done _ _ _ _ _
             (header_loop_finds content fuel [] initial_state [] magic
                (idb ++ tsb ++ rest) eq_refl eq_refl Hall Hf)).
  cbn [app].
  erewrite bind_eq_done;
    [|apply (read_u32_at content (magic ++ [Byte.x00]) idb (tsb ++ rest));
      [subst content; field_at|len_norm; cbn; lia|exact Hid]].
  erewrite bind_eq_done;
    [|apply (read_u64_at content (magic ++ [Byte.x00] ++ idb) tsb rest);
      [subst content; field_at|len_norm; cbn; lia|exact Hts]].
  rewrite !set_pos_set_pos. cbn [f_pos set_pos initial_state].
  replace (0 + Z.of_nat (List.length magic) + 1 + 4 + 8)
    with (Z.of_nat (List.length magic) + 13) by lia.
  reflexivity.
Qed.

Lemma read_u32_short content pre rest s :
  content = pre ++ rest -> f_pos s = Z.of_nat (List.length pre) ->
  (List.length rest < 4)%nat ->
  read_u32 content s = Raise StructError.
Proof. intros. apply (read_field_short content 4 pre rest); auto; lia. Qed.

Lemma read_u64_short content pre rest s :
  content = pre ++ rest -> f_pos s = Z.of_nat (List.length pre) ->
  (List.length rest < 8)%nat ->
  read_u64 content s = Raise StructError.
Proof. intros. apply (read_field_short content 8 pre rest); auto; lia. Qed.

(** Two four-byte fields in a row, with fewer than eight bytes left. *)
Lemma two_u32_short content pre rest s (k : Z -> Z -> M (Z * Z)) :
  content = pre ++ rest -> f_pos s = Z.of_nat (List.length pre) ->
  (List.length rest < 8)%nat ->
  bind (read_u32 content) (fun a => bind (read_u32 content) (fun b => k a b)) s
  = Raise StructError.
Proof.
  intros Hc Hp Hl.
  destruct (Nat.lt_ge_cases (List.length rest) 4) as [Hlt|Hge].
  - apply bind_eq_raise. apply (read_u32_short content pre rest); assumption.
  - destruct (take_drop_split 4 rest Hge) as (Hr & Ht & Hd).
    erewrite bind_eq_done;
      [|apply (read_u32_at content pre (take 4 rest) (drop 4 rest));
        [rewrite Hc, Hr at 1; reflexivity|exact Hp|exact Ht]].
    apply bind_eq_raise.
    apply (read_u32_short content (pre ++ take 4 rest) (drop 4 rest)).
    + rewrite Hc, Hr at 1. rewrite <- app_assoc. reflexivity.
    + cbn [f_pos set_pos]. rewrite length_app, Ht. lia.
    + lia.
Qed.

End CutShort.

(** X3.  A record header cut short is fatal: when between one and eight
    bytes are left at the top of the record loop, the tag is read but the
    timestamp or the length cannot be, and [struct.error] is raised. *)
Theorem X3_a_truncated_record_header_raises_struct_error :
  forall (lower_nonascii : pystr -> nat -> pystr) (pre tail : list byte)
         (id_size : Z) (fuel : nat) (s : state),
    f_pos s = Z.of_nat (List.length pre) ->
    (1 <= List.length tail <= 8)%nat ->
    record_loop lower_nonascii (pre ++ tail) id_size (S fuel) s
    = Raise StructError.
Proof.
  intros lower_nonascii pre tail id_size fuel s Hp Hl.
  destruct tail as [|b t]; [simpl in Hl; lia|]. cbn [List.length] in Hl.
  cbn [record_loop].
  erewrite bind_eq_done;
    [|apply (read_at (pre ++ b :: t) pre [b] t); [reflexivity|exact Hp|simpl; lia]].
  cbv iota. apply bind_eq_raise.
  unfold record_body. apply bind_eq_raise.
  unfold record_header. erewrite bind_eq_done; [|reflexivity]. cbv beta.
  apply (two_u32_short (pre ++ b :: t) (pre ++ [b]) t).
  - rewrite <- app_assoc. reflexivity.
  - cbn [f_pos set_pos]. rewrite length_app. cbn [List.length]. lia.
  - lia.
Qed.

Lemma X3_a_truncated_record_header_raises_struct_error_witness :
  record_loop no_tables (hprof_header MAGIC 4 0 ++ bytes_of [1; 0; 0; 0; 0; 0; 0])
    4 (S 3) (set_pos 31 initial_state)
  = Raise StructError.
Proof.
  apply (X3_a_truncated_record_header_raises_struct_error no_tables
           (hprof_header MAGIC 4 0) (bytes_of [1; 0; 0; 0; 0; 0; 0]) 4 3
           (set_pos 31 initial_state)).
  - reflexivity.
  - vm_compute. lia.
Defined.

(** X4.  A file that ends inside the twelve bytes after the header's NUL
    (the id size and the timestamp) is refused with [struct.error]. *)
Theorem X4_a_truncated_file_header_raises_struct_error :
  forall (lower_nonascii : pystr -> nat -> pystr) (magic tail : list byte)
         (fuel : nat),
    Forall (fun b => b <> Byte.x00) magic ->
    (List.length tail < 12)%nat ->
    (List.length magic < fuel)%nat ->
    analyze_hprof lower_nonascii fuel (magic ++ [Byte.x00] ++ tail)
    = Raise StructError.
Proof.
  intros lower_nonascii magic tail fuel Hall Hl Hf.
  set (content := magic ++ [Byte.x00] ++ tail).
  assert (Hd : decode lower_nonascii content fuel initial_state
               = Raise StructError).
  { unfold decode.
    rewrite (bind_eq_done _ _ _ _ _
               (header_loop_finds content fuel [] initial_state [] magic tail
                  eq_refl eq_refl Hall Hf)).
    destruct (Nat.lt_ge_cases (List.length tail) 4) as [Hlt|Hge].
    - apply bind_eq_raise.
      apply (read_u32_short content (magic ++ [Byte.x00]) tail);
        [subst content; field_at|len_norm; cbn; lia|exact Hlt].
    - destruct (take_drop_split 4 tail Hge) as (Hr & Ht & Hdr).
      erewrite bind_eq_done;
        [|apply (read_u32_at content (magic ++ [Byte.x00]) (take 4 tail)
                   (drop 4 tail));
          [subst content; rewrite Hr at 1; field_at|len_norm; cbn; lia|exact Ht]].
      apply bind_eq_raise.
      apply (read_u64_short content (magic ++ [Byte.x00] ++ take 4 tail)
               (drop 4 tail));
        [subst content; rewrite Hr at 1; field_at
        |len_norm; rewrite Ht; cbn; lia|lia]. }
  unfold analyze_hprof. rewrite Hd. reflexivity.
Qed.

Lemma X4_a_truncated_file_header_raises_struct_error_witness :
  analyze_hprof no_tables 32
    (ascii_bytes MAGIC ++ [Byte.x00] ++ bytes_of [0; 0; 0; 4; 0; 0; 0])
  = Raise StructError.
Proof.
  apply (X4_a_truncated_file_header_raises_struct_error no_tables
           (ascii_bytes MAGIC) (bytes_of [0; 0; 0; 4; 0; 0; 0]) 32).
  - apply ascii_bytes_no_nul. reflexivity.
  - vm_compute. lia.
  - vm_compute. lia.
Defined.

(** X5.  A file that holds a header and nothing else is analysed to an
    empty report: no record, no string, no class, no root, and empty
    sections, with the header text, id size and timestamp as read. *)
Theorem X5_a_header_only_file_gives_an_empty_report :
  forall (lower_nonascii : pystr -> nat -> pystr) (magic idb tsb : list byte)
         (fuel : nat),
    Forall (fun b => b <> Byte.x00) magic ->
    List.length idb = 4%nat ->
    List.length tsb = 8%nat ->
    (List.length magic < fuel)%nat ->
    analyze_hprof lower_nonascii fuel (magic ++ [Byte.x00] ++ idb ++ tsb)
    = Done (mkReport (utf8_decode magic) (be_value idb) (be_value tsb)
              0 0 0 0 0 [] [] [] [] [] [] [],
            set_pos (Z.of_nat (List.length magic) + 13) initial_state).
Proof.
  intros lower_nonascii magic idb tsb fuel Hall Hid Hts Hf.
  unfold analyze_hprof.
  pose proof (decode_after_header lower_nonascii magic idb tsb [] fuel
                Hall Hid Hts Hf) as Hd.
  rewrite app_nil_r in Hd. rewrite Hd. clear Hd.
  destruct fuel as [|k]; [lia|]. cbn [record_loop].
  rewrite bind_assoc.
  erewrite bind_eq_done;
    [|apply read_eof; [lia|len_norm; rewrite Hid, Hts; cbn; lia]].
  reflexivity.
Qed.

Lemma X5_a_header_only_file_gives_an_empty_report_witness :
  analyze_hprof no_tables 32
    (ascii_bytes MAGIC ++ [Byte.x00] ++ be_bytes 4 8 ++ be_bytes 8 1234)
  = Done (mkReport (utf8_decode (ascii_bytes MAGIC)) (be_value (be_bytes 4 8))
            (be_value (be_bytes 8 1234)) 0 0 0 0 0 [] [] [] [] [] [] [],
          set_pos (Z.of_nat (List.length (ascii_bytes MAGIC)) + 13)
            initial_state).
Proof.
  apply (X5_a_header_only_file_gives_an_empty_report no_tables
           (ascii_bytes MAGIC) (be_bytes 4 8) (be_bytes 8 1234) 32).
  - apply ascii_bytes_no_nul. reflexivity.
  - reflexivity.
  - reflexivity.
  - vm_compute. lia.
Defined.

(** ** What each top-level record does *)

(** X6.  A STRING record with a declared length of at least the id size
    stores, under the id read from the record, the decoding of the bytes
    that follow the id: [length - id_size] of them, or fewer when the
    file ends first, which is accepted without an error.  Other string
    ids keep their text, a repeated id takes the new text, and the cursor
    moves by the id and by the bytes taken. *)
Theorem X6_a_STRING_record_stores_its_text_under_its_id :
  forall (content pre idbytes rest : list byte) (id_size len : Z) (s : state),
    content = pre ++ idbytes ++ rest ->
    f_pos s = Z.of_nat (List.length pre) ->
    Z.of_nat (List.length idbytes) = id_width id_size ->
    id_size <= len ->
    len - id_size < 2 ^ 63 ->
    exists s',
      string_record content id_size len s = Done (tt, s')
      /\ strings s' !! be_value idbytes
         = Some (utf8_decode (take (Z.to_nat (len - id_size)) rest))
      /\ (forall j, j <> be_value idbytes -> strings s' !! j = strings s !! j)
      /\ f_pos s'
         = f_pos s + id_width id_size
           + Z.min (len - id_size) (Z.of_nat (List.length rest)).
Proof.
  intros content pre idbytes rest id_size len s Hc Hp Hw Hlen Hbig.
  unfold string_record.
  assert (Hid : List.length idbytes = (if id_size =? 4 then 4%nat else 8%nat)).
  { unfold id_width in Hw. destruct (id_size =? 4); lia. }
  erewrite bind_eq_done;
    [|apply (read_id_at content id_size pre idbytes rest); assumption].
  pose proof (read_eq content (len - id_size)
                (set_pos (f_pos s + Z.of_nat (List.length idbytes)) s)
                ltac:(lia)) as Hr.
  cbv zeta in Hr. destruct (len - id_size =? -1) eqn:E; [lia|].
  cbn [f_pos set_pos] in Hr.
  replace (Z.to_nat (f_pos s + Z.of_nat (List.length idbytes)))
    with (List.length (pre ++ idbytes)) in Hr
    by (rewrite length_app; lia).
  rewrite Hc, app_assoc, drop_app_length in Hr.
  rewrite <- app_assoc, <- Hc in Hr.
  erewrite bind_eq_done; [|exact Hr].
  eexists. split; [reflexivity|].
  cbn [strings f_pos set_strings set_pos].
  split; [apply lookup_insert_eq|].
  split; [intros j Hj; apply lookup_insert_ne; congruence|].
  rewrite length_take. lia.
Qed.

Lemma X6_a_STRING_record_stores_its_text_under_its_id_witness :
  exists s',
    string_record (be_bytes 4 7 ++ ascii_bytes "a/B") 4 7 initial_state
    = Done (tt, s')
    /\ strings s' !! be_value (be_bytes 4 7)
       = Some (utf8_decode (take (Z.to_nat (7 - 4)) (ascii_bytes "a/B")))
    /\ (forall j, j <> be_value (be_bytes 4 7) ->
                  strings s' !! j = strings initial_state !! j)
    /\ f_pos s'
       = f_pos initial_state + id_width 4
         + Z.min (7 - 4) (Z.of_nat (List.length (ascii_bytes "a/B"))).
Proof.
  apply (X6_a_STRING_record_stores_its_text_under_its_id
           (be_bytes 4 7 ++ ascii_bytes "a/B") [] (be_bytes 4 7)
           (ascii_bytes "a/B") 4 7 initial_state);
    [reflexivity|reflexivity|reflexivity|lia|lia].
Defined.



(** X8.  A record whose tag is none of STRING, LOAD_CLASS, HEAP_DUMP and
    HEAP_DUMP_SEGMENT is skipped: no table changes, only the cursor
    moves, by the declared length or up to the end of the file when the
    payload is cut short, and no exception is raised. *)
Theorem X8_a_record_with_another_tag_is_skipped :
  forall (lower_nonascii : pystr -> nat -> pystr) (content : list byte)
         (id_size tag len : Z) (fuel : nat) (s : state),
    tag <> TAG_STRING -> tag <> TAG_LOAD_CLASS ->
    tag <> TAG_HEAP_DUMP -> tag <> TAG_HEAP_DUMP_SEGMENT ->
    0 <= len < 2 ^ 32 ->
    0 <= f_pos s ->
    record_payload lower_nonascii content id_size fuel tag len s
    = Done (tt,
            set_pos (f_pos s
                     + Z.max 0 (Z.min len
                                  (Z.of_nat (List.length content) - f_pos s)))
              s).
Proof.
  intros lower_nonascii content id_size tag len fuel s H1 H2 H3 H4 Hlen Hpos.
  unfold record_payload.
  destruct (tag =? TAG_STRING) eqn:E1; [apply Z.eqb_eq in E1; contradiction|].
  destruct (tag =? TAG_LOAD_CLASS) eqn:E2; [apply Z.eqb_eq in E2; contradiction|].
  destruct (tag =? TAG_HEAP_DUMP) eqn:E3; [apply Z.eqb_eq in E3; contradiction|].
  destruct (tag =? TAG_HEAP_DUMP_SEGMENT) eqn:E4;
    [apply Z.eqb_eq in E4; contradiction|].
  cbn [orb].
  pose proof (read_eq content len s ltac:(lia)) as Hr. cbv zeta in Hr.
  destruct (len =? -1) eqn:E; [lia|].
  rewrite (bind_eq_done _ _ _ _ _ Hr). unfold ret.
  rewrite length_take, length_skipn. do 3 f_equal. lia.
Qed.

Lemma X8_a_record_with_another_tag_is_skipped_witness :
  record_payload no_tables (bytes_of [1; 2; 3]) 4 0 0x0E 10 initial_state
  = Done (tt,
          set_pos (f_pos initial_state
                   + Z.max 0 (Z.min 10
                                (Z.of_nat (List.length (bytes_of [1; 2; 3]))
                                 - f_pos initial_state)))
            initial_state).
Proof.
  apply (X8_a_record_with_another_tag_is_skipped no_tables
           (bytes_of [1; 2; 3]) 4 0x0E 10 0 initial_state);
    try discriminate; cbn; lia.
Defined.

(** ** [Counter] and [most_common] *)

Lemma str_eqb_iff (a b : pystr) : str_eqb a b = true <-> a = b.
Proof.
  split; [apply str_eqb_eq|intros ->; apply str_eqb_refl].
Qed.

Lemma root_type_eqb_iff (a b : root_type) : root_type_eqb a b = true <-> a = b.
Proof.
  split; [destruct a, b; (reflexivity || discriminate)
         |intros ->; apply root_type_eqb_refl].
Qed.

Section CounterFacts.

Context {K : Type}.
Variable eqb : K -> K -> bool.
Hypothesis eqb_iff : forall a b, eqb a b = true <-> a = b.

Lemma eqb_same k : eqb k k = true.
Proof. apply eqb_iff. reflexivity. Qed.

Lemma eqb_other a b : a <> b -> eqb a b = false.
Proof.
  intros H. destruct (eqb a b) eqn:E; [|reflexivity].
  apply eqb_iff in E. contradiction.
Qed.

Lemma counter_get_incr_any k n c :
  counter_get eqb n (counter_incr eqb k c)
  = counter_get eqb n c + (if eqb k n then 1 else 0).
Proof.
  induction c as [|[k' m] c IH]; cbn [counter_incr counter_get].
  - destruct (eqb k n); lia.
  - destruct (eqb k' k) eqn:E1; cbn [counter_get].
    + apply eqb_iff in E1. subst k'.
      destruct (eqb k n); lia.
    + destruct (eqb k' n) eqn:E2; [|exact IH].
      apply eqb_iff in E2. subst k'.
      destruct (eqb k n) eqn:E3; [|lia].
      apply eqb_iff in E3. subst k. rewrite eqb_same in E1. discriminate.
Qed.

Lemma keys_counter_incr k c :
  map fst (counter_incr eqb k c)
  = if existsb (fun x => eqb x k) (map fst c) then map fst c
    else map fst c ++ [k].
Proof.
  induction c as [|[k' m] c IH]; cbn [counter_incr map fst existsb];
    [reflexivity|].
  destruct (eqb k' k); cbn [map fst orb]; [reflexivity|].
  rewrite IH. destruct (existsb _ _); reflexivity.
Qed.

Lemma existsb_eqb_In k (l : list K) :
  existsb (fun x => eqb x k) l = true <-> In k l.
Proof.
  rewrite existsb_exists. split.
  - intros (x & Hx & E). apply eqb_iff in E. subst. exact Hx.
  - intros H. exists k. split; [exact H|apply eqb_same].
Qed.

Lemma In_keys_counter_incr k n c :
  In n (map fst (counter_incr eqb k c)) <-> n = k \/ In n (map fst c).
Proof.
  rewrite keys_counter_incr.
  destruct (existsb _ _) eqn:E.
  - apply existsb_eqb_In in E. split; [tauto|]. intros [->|H]; assumption.
  - rewrite in_app_iff. cbn [In]. intuition congruence.
Qed.

Lemma NoDup_keys_counter_incr k c :
  NoDup (map fst c) -> NoDup (map fst (counter_incr eqb k c)).
Proof.
  intros Hnd. rewrite keys_counter_incr.
  destruct (existsb _ _) eqn:E; [exact Hnd|].
  apply NoDup_app. split; [exact Hnd|]. split.
  - intros x Hx Hk. apply list_elem_of_In in Hx.
    apply list_elem_of_In in Hk. cbn [In] in Hk.
    destruct Hk as [<-|[]].
    apply existsb_eqb_In in Hx. congruence.
  - apply NoDup_singleton.
Qed.

Lemma positive_counter_incr k c :
  Forall (fun kv => 1 <= snd kv) c ->
  Forall (fun kv => 1 <= snd kv) (counter_incr eqb k c).
Proof.
  induction 1 as [|[k' m] c Hm Hc IH]; cbn [counter_incr].
  - constructor; [cbn; lia|constructor].
  - cbn [snd] in Hm. destruct (eqb k' k); constructor; cbn; auto; lia.
Qed.

Lemma counter_total_incr k (c : list (K * Z)) :
  counter_total (counter_incr eqb k c) = counter_total c + 1.
Proof.
  induction c as [|[k' m] c IH]; cbn [counter_incr counter_total fold_right snd].
  - lia.
  - destruct (eqb k' k); cbn [fold_right snd];
      [lia|fold (counter_total (counter_incr eqb k c)); rewrite IH;
           unfold counter_total; lia].
Qed.

Lemma occurrences_snoc k n (l : list K) :
  occurrences eqb n (l ++ [k])
  = occurrences eqb n l + (if eqb k n then 1 else 0).
Proof.
  unfold occurrences. rewrite List.filter_app, length_app. cbn [List.filter].
  destruct (eqb k n); cbn [List.length]; lia.
Qed.

Lemma occurrences_nonneg n (l : list K) : 0 <= occurrences eqb n l.
Proof. unfold occurrences. lia. Qed.

Lemma occurrences_pos_iff n (l : list K) : 0 < occurrences eqb n l <-> In n l.
Proof.
  unfold occurrences. induction l as [|x l IH]; cbn [List.filter In].
  - cbn. lia.
  - destruct (eqb x n) eqn:E.
    + apply eqb_iff in E. cbn [List.length]. split; [auto|lia].
    + rewrite IH. split; [auto|]. intros [->|H]; [|exact H].
      rewrite eqb_same in E. discriminate.
Qed.

(** Folding a list into a [Counter] counts every element. *)
Lemma counter_get_fold n (l : list K) c :
  counter_get eqb n (fold_left (fun c k => counter_incr eqb k c) l c)
  = counter_get eqb n c + occurrences eqb n l.
Proof.
  revert c. induction l as [|k l IH] using rev_ind; intros c.
  - cbn. unfold occurrences. cbn. lia.
  - rewrite fold_left_app. cbn [fold_left].
    rewrite counter_get_incr_any, IH, occurrences_snoc. lia.
Qed.

Lemma counter_get_Counter_of n (l : list K) :
  counter_get eqb n (Counter_of eqb l) = occurrences eqb n l.
Proof. unfold Counter_of. rewrite counter_get_fold. reflexivity. Qed.

Lemma In_keys_Counter_of n (l : list K) :
  In n (map fst (Counter_of eqb l)) <-> In n l.
Proof.
  induction l as [|k l IH] using rev_ind; [cbn; tauto|].
  rewrite Counter_of_snoc, In_keys_counter_incr, IH, in_app_iff.
  cbn [In]. intuition congruence.
Qed.

Lemma NoDup_keys_Counter_of (l : list K) :
  NoDup (map fst (Counter_of eqb l)).
Proof.
  induction l as [|k l IH] using rev_ind; [constructor|].
  rewrite Counter_of_snoc. apply NoDup_keys_counter_incr. exact IH.
Qed.

(** With distinct keys, an entry is its key together with what
    [counter_get] returns for it. *)
Lemma In_counter_iff k n (c : list (K * Z)) :
  NoDup (map fst c) ->
  In (k, n) c <-> In k (map fst c) /\ counter_get eqb k c = n.
Proof.
  induction c as [|[k' m] c IH]; intros Hnd; cbn [In map fst counter_get].
  - tauto.
  - apply NoDup_cons in Hnd as [Hni Hnd]. specialize (IH Hnd).
    destruct (eqb k' k) eqn:E.
    + apply eqb_iff in E. subst k'. split.
      * intros [H|H]; [inversion H; auto|].
        exfalso. apply Hni. apply list_elem_of_In.
        apply in_map_iff. exists (k, n). auto.
      * intros [_ ->]. auto.
    + split.
      * intros [H|H]; [inversion H; subst; rewrite eqb_same in E; discriminate|].
        apply IH in H. tauto.
      * intros [[->|H] Hg]; [rewrite eqb_same in E; discriminate|].
        right. apply IH. auto.
Qed.

Lemma In_Counter_of k n (l : list K) :
  In (k, n) (Counter_of eqb l) <-> In k l /\ n = occurrences eqb k l.
Proof.
  rewrite In_counter_iff by apply NoDup_keys_Counter_of.
  rewrite In_keys_Counter_of, counter_get_Counter_of.
  intuition congruence.
Qed.

End CounterFacts.

Section SortFacts.

Context {K : Type}.

Lemma insert_desc_perm (x : K * Z) l : Permutation (insert_desc x l) (x :: l).
Proof.
  induction l as [|y l IH]; cbn [insert_desc]; [reflexivity|].
  destruct (snd x <? snd y); [|reflexivity].
  rewrite IH. apply perm_swap.
Qed.

Lemma sorted_desc_perm (l : list (K * Z)) : Permutation (sorted_desc l) l.
Proof.
  unfold sorted_desc. induction l as [|x l IH]; cbn [fold_right]; [reflexivity|].
  rewrite insert_desc_perm, IH. reflexivity.
Qed.

Lemma insert_desc_descending (x : K * Z) l :
  descending l -> descending (insert_desc x l).
Proof.
  induction l as [|y l IH]; intros Hd; cbn [insert_desc].
  - cbn. auto.
  - destruct Hd as [Hy Hd]. destruct (snd x <? snd y) eqn:E.
    + cbn [descending]. split; [|apply IH; exact Hd].
      rewrite (insert_desc_perm x l). constructor; [lia|exact Hy].
    + cbn [descending]. split; [|split; assumption].
      constructor; [lia|].
      eapply Forall_impl; [exact Hy|]. cbn. intros z Hz. lia.
Qed.

Lemma sorted_desc_descending (l : list (K * Z)) : descending (sorted_desc l).
Proof.
  unfold sorted_desc. induction l as [|x l IH]; cbn [fold_right]; [exact I|].
  apply insert_desc_descending. exact IH.
Qed.

Lemma with_count_insert_desc n (x : K * Z) l :
  with_count n (insert_desc x l) = with_count n (x :: l).
Proof.
  unfold with_count.
  induction l as [|y l IH]; cbn [insert_desc]; [reflexivity|].
  destruct (snd x <? snd y) eqn:E; [|reflexivity].
  cbn [List.filter] in *. rewrite IH.
  destruct (snd y =? n) eqn:Ey; destruct (snd x =? n) eqn:Ex;
    try reflexivity; lia.
Qed.

Lemma with_count_sorted_desc n (l : list (K * Z)) :
  with_count n (sorted_desc l) = with_count n l.
Proof.
  unfold sorted_desc. induction l as [|x l IH]; cbn [fold_right]; [reflexivity|].
  rewrite with_count_insert_desc. unfold with_count in *. cbn [List.filter].
  rewrite IH. reflexivity.
Qed.

End SortFacts.

(** X9.  [most_common] (and the [sorted(..., key=-count)] of the report)
    returns the same entries, in order of non-increasing count, and
    entries with equal counts keep the order they had, that is the order
    in which their keys were first counted. *)
Theorem X9_most_common_is_a_stable_descending_sort :
  forall (K : Type) (c : list (K * Z)),
    Permutation (most_common c) c
    /\ descending (most_common c)
    /\ (forall n, with_count n (most_common c) = with_count n c).
Proof.
  intros K c. unfold most_common. split; [apply sorted_desc_perm|].
  split; [apply sorted_desc_descending|intros n; apply with_count_sorted_desc].
Qed.

(** X10.  The root-type histogram has one line per root type that occurs
    in the GC-root list, carrying the number of its occurrences; types
    that do not occur have no line, and the counts add up to the number
    of roots. *)
Theorem X10_the_root_histogram_counts_each_type_that_occurs :
  forall (roots : list (root_type * Z)),
    (forall n t,
        In (n, t) (root_rows roots)
        <-> In t (map fst roots)
            /\ n = occurrences root_type_eqb t (map fst roots))
    /\ NoDup (map snd (root_rows roots))
    /\ counter_total (Counter_of root_type_eqb (map fst roots))
       = Z.of_nat (List.length roots).
Proof.
  intros roots. split; [|split].
  - intros n t. unfold root_rows, most_common. rewrite in_map_iff. split.
    + intros ([t' n'] & Heq & Hin). inversion Heq; subst; clear Heq.
      rewrite In_sorted_desc in Hin.
      apply (In_Counter_of root_type_eqb root_type_eqb_iff) in Hin. exact Hin.
    + intros H. exists (t, n). split; [reflexivity|].
      rewrite In_sorted_desc.
      apply (In_Counter_of root_type_eqb root_type_eqb_iff). exact H.
  - unfold root_rows, most_common.
    assert (E : map snd
                  (map (fun '(rtype, count) => (count, rtype))
                       (sorted_desc (Counter_of root_type_eqb (map fst roots))))
                = map fst (sorted_desc (Counter_of root_type_eqb (map fst roots)))).
    { rewrite map_map. apply map_ext. intros [a b]. reflexivity. }
    rewrite E. rewrite (sorted_desc_perm _).
    apply (NoDup_keys_Counter_of root_type_eqb root_type_eqb_iff).
  - rewrite <- (length_map fst roots).
    induction (map fst roots) as [|k l IH] using rev_ind; [reflexivity|].
    rewrite Counter_of_snoc, counter_total_incr, IH, length_app. cbn. lia.
Qed.

Lemma In_leak_rows (instances : list (Z * pystr)) count name flag :
  In (count, name, flag) (leak_rows instances)
  <-> In name (map snd instances)
      /\ count = occurrences str_eqb name (map snd instances)
      /\ flag = (1 <? count).
Proof.
  unfold leak_rows, most_common. rewrite in_map_iff. split.
  - intros ([n c] & Heq & Hin). inversion Heq; subst; clear Heq.
    rewrite In_sorted_desc in Hin.
    apply (In_Counter_of str_eqb str_eqb_iff) in Hin. tauto.
  - intros (H1 & H2 & H3). exists (name, count). subst flag.
    split; [reflexivity|]. rewrite In_sorted_desc.
    apply (In_Counter_of str_eqb str_eqb_iff). tauto.
Qed.

Lemma In_firstn_In {A : Type} (n : nat) (l : list A) x :
  In x (firstn n l) -> In x l.
Proof.
  intros H. rewrite <- (firstn_skipn n l). apply in_or_app. left. exact H.
Qed.

Lemma In_plain_rows (instances : list (Z * pystr)) count name :
  In (count, name) (plain_rows instances) ->
  In name (map snd instances)
  /\ count = occurrences str_eqb name (map snd instances).
Proof.
  unfold plain_rows, most_common. rewrite in_map_iff.
  intros ([n c] & Heq & Hin). inversion Heq; subst; clear Heq.
  apply In_firstn_In in Hin. rewrite In_sorted_desc in Hin.
  apply (In_Counter_of str_eqb str_eqb_iff) in Hin. exact Hin.
Qed.

(** X11.  The Activity and Service sections list each class of the
    category once, with the number of categorized instances of that
    class, and mark the line exactly when that number exceeds 1. *)
Theorem X11_a_leak_section_counts_instances_per_class :
  forall (instances : list (Z * pystr)) (count : Z) (name : pystr) (flag : bool),
    In (count, name, flag) (leak_rows instances)
    <-> In name (map snd instances)
        /\ count = occurrences str_eqb name (map snd instances)
        /\ flag = (1 <? count).
Proof.
  intros instances count name flag. apply In_leak_rows.
Qed.

(** ** Invariants of a run *)

Section Invariants.

Variable lower_nonascii : pystr -> nat -> pystr.
Variable content : list byte.

Lemma keeps_refl I s : keeps I s s.
Proof. intros H. exact H. Qed.

Lemma keeps_trans I s1 s2 s3 : keeps I s1 s2 -> keeps I s2 s3 -> keeps I s1 s3.
Proof. unfold keeps. auto. Qed.

Lemma preserves_header_loop (R : state -> state -> Prop) fuel header :
  (forall s1 s2 s3, R s1 s2 -> R s2 s3 -> R s1 s3) ->
  (forall p s, R s (set_pos p s)) ->
  preserves R (header_loop content fuel header).
Proof.
  intros R_trans R_pos. revert header.
  induction fuel as [|k IH]; intros header s a s' H; [discriminate|].
  rewrite header_loop_step in H.
  destruct (content !! Z.to_nat (f_pos s)) as [c|].
  - destruct (Byte.eqb c Byte.x00).
    + inversion H; subst. apply R_pos.
    + apply IH in H. eapply R_trans; [apply R_pos|exact H].
  - apply IH in H. exact H.
Qed.

(** A property of the tables that the cursor and the name tables do not
    enter, and that root appends and instance tallies keep, holds at the
    end of every completed analysis if it holds of the empty tables. *)
Lemma analyze_hprof_keeps (I : state -> Prop) fuel r s :
  (forall p s, I s -> I (set_pos p s)) ->
  (forall v s, I s -> I (set_class_super v s)) ->
  (forall v s, I s -> I (set_gc_roots v s)) ->
  (forall obj_id class_id,
      preserves (keeps I) (tally_instance lower_nonascii obj_id class_id)) ->
  (forall v s, I s -> I (set_strings v s)) ->
  (forall serial class_obj_id name_id s,
      I s -> I (register_class serial class_obj_id name_id s)) ->
  (forall v s, I s -> I (set_record_count v s)) ->
  (forall v s, I s -> I (set_heap_records v s)) ->
  I initial_state ->
  analyze_hprof lower_nonascii fuel content = Done (r, s) ->
  I s.
Proof.
  intros I_pos I_super I_roots I_tally I_strings I_register I_rc I_hr I0 H.
  assert (R_read : forall n, preserves (keeps I) (read content n)).
  { intros n. apply preserves_read_of_pos; [apply keeps_refl|].
    intros p s0 Hs. apply I_pos, Hs. }
  unfold analyze_hprof in H.
  destruct (decode lower_nonascii content fuel initial_state)
    as [[[[header id_size] timestamp] s0]|e|] eqn:Hd; try discriminate.
  inversion H; subst; clear H.
  unfold decode in Hd.
  apply bind_done in Hd as (hd & s1 & H1 & Hd).
  apply bind_done in Hd as (ids & s2 & H2 & Hd).
  apply bind_done in Hd as (ts & s3 & H3 & Hd).
  apply bind_done in Hd as ([] & s4 & H4 & Hd).
  inversion Hd; subst; clear Hd.
  apply (preserves_header_loop (keeps I)) in H1;
    [|apply keeps_trans|intros p s0 Hs; apply I_pos, Hs].
  apply (preserves_read_u32 (keeps I)) in H2;
    [|apply keeps_refl|apply keeps_trans|exact R_read].
  apply (preserves_read_u64 (keeps I)) in H3;
    [|apply keeps_refl|apply keeps_trans|exact R_read].
  apply (preserves_record_loop (keeps I)) in H4.
  - apply H4, H3, H2, H1, I0.
  - apply keeps_refl.
  - apply keeps_trans.
  - exact R_read.
  - intros v s0 Hs. apply I_super, Hs.
  - intros t o s0 a s0' Ha Hs. inversion Ha; subst. apply I_roots, Hs.
  - exact I_tally.
  - intros v s0 Hs. apply I_strings, Hs.
  - intros a b c s0 Hs. apply I_register, Hs.
  - intros v s0 Hs. apply I_rc, Hs.
  - intros v s0 Hs. apply I_hr, Hs.
  - intros p s0 Hs. apply I_pos, Hs.
Qed.

Lemma category_eqb_refl c : category_eqb c c = true.
Proof. destruct c; reflexivity. Qed.

Lemma category_eqb_iff a b : category_eqb a b = true <-> a = b.
Proof.
  split; [destruct a, b; (reflexivity || discriminate)
         |intros ->; apply category_eqb_refl].
Qed.

Lemma tally_instance_eq obj_id class_id s :
  tally_instance lower_nonascii obj_id class_id s
  = Done (tt,
          let name := resolve_name s class_id in
          let s1 := set_instance_counts
                      (counter_incr str_eqb name (instance_counts s)) s in
          match classify lower_nonascii name with
          | Some Activity =>
            set_activity_instances (activity_instances s1 ++ [(obj_id, name)]) s1
          | Some Service =>
            set_service_instances (service_instances s1 ++ [(obj_id, name)]) s1
          | Some Scope =>
            set_scope_instances (scope_instances s1 ++ [(obj_id, name)]) s1
          | Some ViewFragment =>
            set_view_instances (view_instances s1 ++ [(obj_id, name)]) s1
          | None => s1
          end).
Proof. reflexivity. Qed.

Lemma tally_keeps_buckets_agree obj_id class_id :
  preserves (keeps (buckets_agree lower_nonascii))
            (tally_instance lower_nonascii obj_id class_id).
Proof.
  intros s a s' H Hagree. rewrite tally_instance_eq in H.
  inversion H; subst a s'; clear H. cbv zeta.
  set (m := resolve_name s class_id).
  intros c n. specialize (Hagree c n).
  assert (Hstep :
    occurrences str_eqb n
      (map snd (bucket c s)
       ++ (if match classify lower_nonascii m with
              | Some c' => category_eqb c c'
              | None => false
              end then [m] else []))
    = match classify lower_nonascii n with
      | Some c' =>
        if category_eqb c c'
        then counter_get str_eqb n
               (counter_incr str_eqb m (instance_counts s))
        else 0
      | None => 0
      end).
  { rewrite (counter_get_incr_any str_eqb str_eqb_iff).
    destruct (str_eqb m n) eqn:E.
    - apply str_eqb_iff in E. subst n.
      destruct (classify lower_nonascii m) as [c'|].
      + destruct (category_eqb c c').
        * rewrite (occurrences_snoc str_eqb), str_eqb_refl, Hagree. reflexivity.
        * rewrite app_nil_r. exact Hagree.
      + rewrite app_nil_r. exact Hagree.
    - assert (E0 : forall l : list pystr,
                 occurrences str_eqb n (l ++ [m]) = occurrences str_eqb n l).
      { intros l. rewrite (occurrences_snoc str_eqb), E. lia. }
      replace (occurrences str_eqb n
                 (map snd (bucket c s)
                  ++ (if match classify lower_nonascii m with
                         | Some c' => category_eqb c c'
                         | None => false
                         end then [m] else [])))
        with (occurrences str_eqb n (map snd (bucket c s))).
      + rewrite Hagree. destruct (classify lower_nonascii n) as [c'|];
          [destruct (category_eqb c c')|]; lia.
      + destruct (match classify lower_nonascii m with
                  | Some c' => category_eqb c c'
                  | None => false
                  end); [rewrite E0|rewrite app_nil_r]; reflexivity. }
  destruct (classify lower_nonascii m) as [[]|] eqn:Em; destruct c;
    cbn [bucket activity_instances service_instances scope_instances
         view_instances instance_counts set_activity_instances
         set_service_instances set_scope_instances set_view_instances
         set_instance_counts category_eqb] in *;
    rewrite ?map_app, ?app_nil_r in *; cbn [map snd] in *; exact Hstep.
Qed.

Lemma tally_keeps_counts_ok obj_id class_id :
  preserves (keeps counts_ok)
            (tally_instance lower_nonascii obj_id class_id).
Proof.
  intros s a s' H [Hnd Hpos]. rewrite tally_instance_eq in H.
  inversion H; subst a s'; clear H. cbv zeta. unfold counts_ok.
  destruct (classify lower_nonascii (resolve_name s class_id)) as [[]|];
    cbn [instance_counts set_instance_counts set_activity_instances
         set_service_instances set_scope_instances set_view_instances];
    (split;
     [apply (NoDup_keys_counter_incr str_eqb str_eqb_iff); exact Hnd
     |apply positive_counter_incr; exact Hpos]).
Qed.

End Invariants.

(** ** The sections of the report against the tables *)

Section Sections.

Variable lower_nonascii : pystr -> nat -> pystr.

Lemma counter_get_pos_iff {K : Type} (eqb : K -> K -> bool)
    (eqb_iff : forall a b, eqb a b = true <-> a = b) k (c : list (K * Z)) :
  Forall (fun kv => 1 <= snd kv) c ->
  0 < counter_get eqb k c <-> In k (map fst c).
Proof.
  induction 1 as [|[k' m] c Hm Hc IH]; cbn [counter_get map fst In].
  - lia.
  - cbn [snd] in Hm. destruct (eqb k' k) eqn:E.
    + apply eqb_iff in E. split; [auto|lia].
    + rewrite IH. split; [auto|]. intros [->|H]; [|exact H].
      rewrite (proj2 (eqb_iff k k) eq_refl) in E. discriminate.
Qed.

Lemma bucket_rows c s name count :
  buckets_agree lower_nonascii s -> counts_ok s ->
  In name (map snd (bucket c s))
  /\ count = occurrences str_eqb name (map snd (bucket c s))
  <-> classify lower_nonascii name = Some c
      /\ In (name, count) (instance_counts s).
Proof.
  intros Hagree [Hnd Hpos]. specialize (Hagree c name).
  rewrite (In_counter_iff str_eqb str_eqb_iff) by exact Hnd.
  rewrite <- (counter_get_pos_iff str_eqb str_eqb_iff) by exact Hpos.
  rewrite <- (occurrences_pos_iff str_eqb str_eqb_iff).
  destruct (classify lower_nonascii name) as [c'|].
  - destruct (category_eqb c c') eqn:E.
    + apply category_eqb_iff in E. subst c'. rewrite Hagree.
      intuition congruence.
    + assert (c <> c').
      { intros ->. rewrite category_eqb_refl in E. discriminate. }
      rewrite Hagree. split; [lia|]. intros [Heq _]. congruence.
  - rewrite Hagree. split; [lia|]. intros [Heq _]. discriminate.
Qed.

Lemma analyze_hprof_report fuel content r s :
  analyze_hprof lower_nonascii fuel content = Done (r, s) ->
  exists header id_size timestamp, r = make_report header id_size timestamp s.
Proof.
  unfold analyze_hprof.
  destruct (decode lower_nonascii content fuel initial_state)
    as [[[[header id_size] timestamp] s0]|e|]; try discriminate.
  intros H. inversion H; subst. eauto.
Qed.

Lemma analyze_hprof_buckets_agree fuel content r s :
  analyze_hprof lower_nonascii fuel content = Done (r, s) ->
  buckets_agree lower_nonascii s.
Proof.
  apply (analyze_hprof_keeps lower_nonascii content
           (buckets_agree lower_nonascii)).
  - intros p s0 H c n. specialize (H c n). destruct c; exact H.
  - intros v s0 H c n. specialize (H c n). destruct c; exact H.
  - intros v s0 H c n. specialize (H c n). destruct c; exact H.
  - apply tally_keeps_buckets_agree.
  - intros v s0 H c n. specialize (H c n). destruct c; exact H.
  - intros a b d s0 H c n. specialize (H c n). unfold register_class.
    cbn [strings set_class_names set_class_id_to_serial].
    destruct (strings s0 !! d); destruct c; exact H.
  - intros v s0 H c n. specialize (H c n). destruct c; exact H.
  - intros v s0 H c n. specialize (H c n). destruct c; exact H.
  - intros c n. destruct (classify lower_nonascii n) as [c'|];
      [destruct (category_eqb c c')|]; destruct c; reflexivity.
Qed.

Lemma analyze_hprof_counts_ok fuel content r s :
  analyze_hprof lower_nonascii fuel content = Done (r, s) ->
  counts_ok s.
Proof.
  apply (analyze_hprof_keeps lower_nonascii content counts_ok).
  - intros p s0 H. exact H.
  - intros v s0 H. exact H.
  - intros v s0 H. exact H.
  - apply tally_keeps_counts_ok.
  - intros v s0 H. exact H.
  - intros a b d s0 H. unfold register_class, counts_ok.
    cbn [strings set_class_names set_class_id_to_serial].
    destruct (strings s0 !! d); exact H.
  - intros v s0 H. exact H.
  - intros v s0 H. exact H.
  - split; [apply NoDup_nil; exact I|constructor].
Qed.

End Sections.

(** X12.  At the end of a completed analysis the Activity section lists
    exactly the counted classes whose name falls in the Activity branch
    of the chain, each with its total instance count and with the leak
    mark when that count exceeds 1; the Service section does the same
    for the Service branch. *)
Theorem X12_activity_and_service_lines_carry_the_class_totals :
  forall (lower_nonascii : pystr -> nat -> pystr) (fuel : nat)
         (content : list byte) (r : report) (s : state),
    analyze_hprof lower_nonascii fuel content = Done (r, s) ->
    forall (count : Z) (name : pystr) (flag : bool),
      (In (count, name, flag) (rep_activity r)
       <-> classify lower_nonascii name = Some Activity
           /\ In (name, count) (instance_counts s)
           /\ flag = (1 <? count))
      /\ (In (count, name, flag) (rep_service r)
          <-> classify lower_nonascii name = Some Service
              /\ In (name, count) (instance_counts s)
              /\ flag = (1 <? count)).
Proof.
  intros lower_nonascii fuel content r s H count name flag.
  pose proof (analyze_hprof_buckets_agree _ _ _ _ _ H) as Ha.
  pose proof (analyze_hprof_counts_ok _ _ _ _ _ H) as Hc.
  destruct (analyze_hprof_report _ _ _ _ _ H) as (hd & i & t & ->).
  cbn [rep_activity rep_service make_report].
  rewrite !In_leak_rows.
  pose proof (bucket_rows lower_nonascii Activity s name count Ha Hc) as E1.
  pose proof (bucket_rows lower_nonascii Service s name count Ha Hc) as E2.
  cbn [bucket] in E1, E2. tauto.
Qed.

Lemma X12_activity_and_service_lines_carry_the_class_totals_witness :
  exists r s,
    analyze_hprof no_tables 64
      (two_instances_stream "me/ikate/findmy/MainActivity") = Done (r, s)
    /\ (In (2, py "me/ikate/findmy/MainActivity", true) (rep_activity r)
        <-> classify no_tables (py "me/ikate/findmy/MainActivity")
            = Some Activity
            /\ In (py "me/ikate/findmy/MainActivity", 2) (instance_counts s)
            /\ true = (1 <? 2))
    /\ (In (2, py "me/ikate/findmy/MainActivity", true) (rep_service r)
        <-> classify no_tables (py "me/ikate/findmy/MainActivity")
            = Some Service
            /\ In (py "me/ikate/findmy/MainActivity", 2) (instance_counts s)
            /\ true = (1 <? 2)).
Proof.
  eexists. eexists.
  refine ((fun H => conj H
             (X12_activity_and_service_lines_carry_the_class_totals
                no_tables 64 _ _ _ H 2
                (py "me/ikate/findmy/MainActivity") true)) _).
  vm_compute. reflexivity.
Defined.

(** X13.  Every line of the CoroutineScope/Job section and of the
    View/Fragment section is a counted class whose name falls in that
    branch of the chain, with its total instance count; a section has at
    most 20 lines. *)
Theorem X13_scope_and_view_lines_carry_the_class_totals :
  forall (lower_nonascii : pystr -> nat -> pystr) (fuel : nat)
         (content : list byte) (r : report) (s : state),
    analyze_hprof lower_nonascii fuel content = Done (r, s) ->
    (forall count name,
        In (count, name) (rep_scope r) ->
        classify lower_nonascii name = Some Scope
        /\ In (name, count) (instance_counts s))
    /\ (forall count name,
           In (count, name) (rep_view r) ->
           classify lower_nonascii name = Some ViewFragment
           /\ In (name, count) (instance_counts s))
    /\ (List.length (rep_scope r) <= 20)%nat
    /\ (List.length (rep_view r) <= 20)%nat.
Proof.
  intros lower_nonascii fuel content r s H.
  pose proof (analyze_hprof_buckets_agree _ _ _ _ _ H) as Ha.
  pose proof (analyze_hprof_counts_ok _ _ _ _ _ H) as Hc.
  destruct (analyze_hprof_report _ _ _ _ _ H) as (hd & i & t & ->).
  cbn [rep_scope rep_view make_report].
  split; [|split; [|split]].
  - intros count name Hin. apply In_plain_rows in Hin.
    apply (bucket_rows lower_nonascii Scope s name count Ha Hc). exact Hin.
  - intros count name Hin. apply In_plain_rows in Hin.
    apply (bucket_rows lower_nonascii ViewFragment s name count Ha Hc).
    exact Hin.
  - unfold plain_rows. rewrite length_map, length_firstn. lia.
  - unfold plain_rows. rewrite length_map, length_firstn. lia.
Qed.

Lemma X13_scope_and_view_lines_carry_the_class_totals_witness :
  exists r s,
    analyze_hprof no_tables 64
      (two_instances_stream "kotlinx/coroutines/JobImpl") = Done (r, s)
    /\ (forall count name,
           In (count, name) (rep_scope r) ->
           classify no_tables name = Some Scope
           /\ In (name, count) (instance_counts s))
    /\ (forall count name,
           In (count, name) (rep_view r) ->
           classify no_tables name = Some ViewFragment
           /\ In (name, count) (instance_counts s))
    /\ (List.length (rep_scope r) <= 20)%nat
    /\ (List.length (rep_view r) <= 20)%nat.
Proof.
  eexists. eexists.
  refine ((fun H => conj H
             (X13_scope_and_view_lines_carry_the_class_totals
                no_tables 64 _ _ _ H)) _).
  vm_compute. reflexivity.
Defined.

(** ** Classes that were never named *)

Lemma startswith_chars (P : Z -> Prop) p s :
  startswith p s = true -> Forall P s -> Forall P p.
Proof.
  revert s. induction p as [|a p IH]; intros [|b s] H Hs;
    try discriminate; try constructor.
  - cbn [startswith] in H. apply andb_prop in H as [Hab H].
    apply Z.eqb_eq in Hab. subst b. apply Forall_cons in Hs. tauto.
  - cbn [startswith] in H. apply andb_prop in H as [_ H].
    apply Forall_cons in Hs. apply (IH s); tauto.
Qed.

Lemma str_in_chars (P : Z -> Prop) p s :
  str_in p s = true -> Forall P s -> Forall P p.
Proof.
  induction s as [|b s IH]; intros H Hs.
  - destruct p; [constructor|discriminate].
  - cbn [str_in] in H. apply orb_prop in H as [H|H].
    + exact (startswith_chars P p (b :: s) H Hs).
    + apply Forall_cons in Hs. apply IH; tauto.
Qed.

(** A needle with a character the text does not have is not in it. *)
Lemma str_in_foreign (ok : Z -> bool) p s :
  forallb ok s = true -> existsb (fun c => negb (ok c)) p = true ->
  str_in p s = false.
Proof.
  intros Hs Hp. destruct (str_in p s) eqn:E; [|reflexivity].
  apply existsb_exists in Hp as (c & Hc & Hn).
  apply (str_in_chars (fun c => ok c = true)) in E.
  - rewrite Forall_forall in E. apply list_elem_of_In in Hc.
    rewrite (E c Hc) in Hn. discriminate.
  - rewrite Forall_forall. intros x Hx. apply list_elem_of_In in Hx.
    rewrite forallb_forall in Hs. auto.
Qed.

Lemma concat_imap_id (g : nat -> Z -> pystr) (s : pystr) :
  (forall i c, In c s -> g i c = [c]) -> concat (imap g s) = s.
Proof.
  revert g. induction s as [|c s IH]; intros g Hg; [reflexivity|].
  cbn [imap concat]. rewrite (Hg 0%nat c) by (left; reflexivity).
  cbn [app]. f_equal. apply IH. intros i x Hx. apply Hg. right. exact Hx.
Qed.

Section Placeholders.

Variable lower_nonascii : pystr -> nat -> pystr.

Lemma lower_placeholder_chars s :
  forallb placeholder_char s = true -> lower lower_nonascii s = s.
Proof.
  intros H. unfold lower. apply concat_imap_id. intros i c Hc.
  rewrite forallb_forall in H. specialize (H c Hc).
  unfold placeholder_char in H. apply existsb_exists in H as (x & Hx & E).
  apply Z.eqb_eq in E. subst x.
  cbn in Hx.
  repeat (destruct Hx as [<-|Hx]; [reflexivity|]). destruct Hx.
Qed.

Lemma hex_digit_char d : 0 <= d < 16 -> placeholder_char (hex_digit d) = true.
Proof.
  intros H.
  assert (Hd : d = 0 \/ d = 1 \/ d = 2 \/ d = 3 \/ d = 4 \/ d = 5 \/ d = 6
               \/ d = 7 \/ d = 8 \/ d = 9 \/ d = 10 \/ d = 11 \/ d = 12
               \/ d = 13 \/ d = 14 \/ d = 15) by lia.
  repeat (destruct Hd as [->|Hd]; [reflexivity|]). subst d. reflexivity.
Qed.

Lemma hex_digits_chars fuel n acc :
  forallb placeholder_char acc = true ->
  forallb placeholder_char (hex_digits fuel n acc) = true.
Proof.
  revert n acc. induction fuel as [|k IH]; intros n acc Hacc; [exact Hacc|].
  cbn [hex_digits].
  assert (Hacc' : forallb placeholder_char (hex_digit (n mod 16) :: acc) = true).
  { cbn [forallb]. rewrite hex_digit_char, Hacc; [reflexivity|].
    apply Z.mod_pos_bound. lia. }
  destruct (n / 16 =? 0); [exact Hacc'|apply IH, Hacc'].
Qed.

Lemma placeholder_chars class_id :
  forallb placeholder_char (placeholder class_id) = true.
Proof.
  unfold placeholder, format_hex. rewrite !forallb_app.
  rewrite hex_digits_chars by reflexivity. reflexivity.
Qed.

Lemma classify_placeholder class_id :
  classify lower_nonascii (placeholder class_id) = None.
Proof.
  unfold classify. cbv zeta.
  rewrite (lower_placeholder_chars _ (placeholder_chars class_id)).
  rewrite !(str_in_foreign placeholder_char _ _ (placeholder_chars class_id))
    by reflexivity.
  reflexivity.
Qed.

End Placeholders.

Lemma package_placeholder class_id :
  str_in PACKAGE (placeholder class_id) = false.
Proof.
  apply (str_in_foreign placeholder_char); [apply placeholder_chars|reflexivity].
Qed.

Lemma suspect_placeholder class_id keyword :
  In keyword suspect_keywords -> str_in keyword (placeholder class_id) = false.
Proof.
  intros H. apply (str_in_foreign placeholder_char); [apply placeholder_chars|].
  assert (Hall : forallb (fun kw => existsb (fun c => negb (placeholder_char c)) kw)
                   suspect_keywords = true) by (vm_compute; reflexivity).
  rewrite forallb_forall in Hall. apply Hall, H.
Qed.

Lemma In_findmy_rows instance_counts count name :
  In (count, name) (findmy_rows instance_counts) ->
  In (name, count) instance_counts /\ str_in PACKAGE name = true.
Proof.
  unfold findmy_rows. rewrite in_map_iff.
  intros ([n c] & Heq & Hin). inversion Heq; subst; clear Heq.
  apply In_firstn_In in Hin. rewrite In_sorted_desc in Hin.
  apply filter_In in Hin. exact Hin.
Qed.

(** *** The hexadecimal text of an identifier determines it *)

Lemma hex_digit_value_hex_digit d :
  0 <= d < 16 -> hex_digit_value (hex_digit d) = d.
Proof.
  intros H. unfold hex_digit, hex_digit_value.
  destruct (d <? 10) eqn:E.
  - apply Z.ltb_lt in E. replace (48 + d <? 58) with true; [lia|].
    symmetry. apply Z.ltb_lt. lia.
  - apply Z.ltb_ge in E. replace (87 + d <? 58) with false; [lia|].
    symmetry. apply Z.ltb_ge. lia.
Qed.

Lemma unhex_hex_digits fuel n acc :
  0 <= n < 16 ^ Z.of_nat fuel ->
  unhex (hex_digits fuel n acc) 0 = unhex acc n.
Proof.
  revert n acc. induction fuel as [|k IH]; intros n acc Hn.
  - cbn in Hn. replace n with 0 by lia. reflexivity.
  - cbn [hex_digits].
    assert (Hm : 0 <= n mod 16 < 16) by (apply Z.mod_pos_bound; lia).
    assert (Hdiv : n = 16 * (n / 16) + n mod 16) by (apply Z.div_mod; lia).
    destruct (n / 16 =? 0) eqn:E.
    + apply Z.eqb_eq in E. unfold unhex. cbn [fold_left].
      rewrite hex_digit_value_hex_digit by exact Hm.
      f_equal. lia.
    + rewrite IH.
      * unfold unhex. cbn [fold_left].
        rewrite hex_digit_value_hex_digit by exact Hm.
        f_equal. lia.
      * rewrite Nat2Z.inj_succ, Z.pow_succ_r in Hn by lia.
        split; [apply Z.div_pos; lia|].
        apply Z.div_lt_upper_bound; lia.
Qed.

Lemma unhex_format_hex n :
  0 <= n -> unhex (skipn 2 (format_hex n)) 0 = n.
Proof.
  intros Hn. unfold format_hex. cbn [py app skipn].
  change (skipn 2 (py "0x" ++ ?l)) with l.
  rewrite unhex_hex_digits; [reflexivity|].
  split; [exact Hn|].
  destruct (Z.eq_dec n 0) as [->|Hz]; [cbn; lia|].
  assert (Hlog : n < 2 ^ Z.succ (Z.log2 n)) by (apply Z.log2_spec; lia).
  assert (H0 : 0 <= Z.log2 n) by apply Z.log2_nonneg.
  rewrite Nat2Z.inj_succ, Z2Nat.id by exact H0.
  eapply Z.lt_le_trans; [exact Hlog|].
  apply Z.pow_le_mono_l. lia.
Qed.

Lemma placeholder_inj a b :
  0 <= a -> 0 <= b -> placeholder a = placeholder b -> a = b.
Proof.
  intros Ha Hb H. unfold placeholder in H. apply app_inv_head in H.
  rewrite <- (unhex_format_hex a Ha), <- (unhex_format_hex b Hb), H.
  reflexivity.
Qed.


(** X14.  An instance whose class was never given a name is counted
    under the placeholder [unknown_0x...], and a placeholder is listed in
    no class section of the report: not in the package section, not in
    the Activity, Service, CoroutineScope/Job or View/Fragment section,
    and not in the suspect section. *)
Theorem X14_an_unnamed_class_is_listed_in_no_section :
  forall (lower_nonascii : pystr -> nat -> pystr) (fuel : nat)
         (content : list byte) (r : report) (s : state) (class_id : Z),
    analyze_hprof lower_nonascii fuel content = Done (r, s) ->
    0 <= class_id ->
    (forall n, ~ In (n, placeholder class_id) (rep_findmy r))
    /\ (forall n flag, ~ In (n, placeholder class_id, flag) (rep_activity r))
    /\ (forall n flag, ~ In (n, placeholder class_id, flag) (rep_service r))
    /\ (forall n, ~ In (n, placeholder class_id) (rep_scope r))
    /\ (forall n, ~ In (n, placeholder class_id) (rep_view r))
    /\ (forall n flag, ~ In (n, placeholder class_id, flag) (rep_suspect r)).
Proof.
  intros lower_nonascii fuel content r s class_id H _.
  pose proof (analyze_hprof_buckets_agree _ _ _ _ _ H) as Ha.
  pose proof (analyze_hprof_counts_ok _ _ _ _ _ H) as Hc.
  destruct (analyze_hprof_report _ _ _ _ _ H) as (hd & i & t & ->).
  cbn [rep_findmy rep_activity rep_service rep_scope rep_view rep_suspect
       make_report].
  pose proof (classify_placeholder lower_nonascii class_id) as Hcl.
  split; [|split; [|split; [|split; [|split]]]].
  - intros n Hin. apply In_findmy_rows in Hin as [_ Hin].
    rewrite package_placeholder in Hin. discriminate.
  - intros n flag Hin. apply In_leak_rows in Hin as (H1 & H2 & _).
    destruct (proj1 (bucket_rows lower_nonascii Activity s _ n Ha Hc)
                (conj H1 H2)) as [H3 _].
    congruence.
  - intros n flag Hin. apply In_leak_rows in Hin as (H1 & H2 & _).
    destruct (proj1 (bucket_rows lower_nonascii Service s _ n Ha Hc)
                (conj H1 H2)) as [H3 _].
    congruence.
  - intros n Hin. apply In_plain_rows in Hin.
    apply (bucket_rows lower_nonascii Scope s _ n Ha Hc) in Hin as [H2 _].
    congruence.
  - intros n Hin. apply In_plain_rows in Hin.
    apply (bucket_rows lower_nonascii ViewFragment s _ n Ha Hc) in Hin as [H2 _].
    congruence.
  - intros n flag Hin. apply In_suspect_rows in Hin as (_ & (kw & Hk & Hs) & _).
    rewrite (suspect_placeholder class_id kw Hk) in Hs. discriminate.
Qed.

Lemma X14_an_unnamed_class_is_listed_in_no_section_witness :
  exists r s,
    analyze_hprof no_tables 64 load_class_first_stream = Done (r, s)
    /\ 0 <= 0x100
    /\ In (placeholder 0x100, 1) (instance_counts s)
    /\ (forall n, ~ In (n, placeholder 0x100) (rep_findmy r))
    /\ (forall n flag, ~ In (n, placeholder 0x100, flag) (rep_activity r))
    /\ (forall n flag, ~ In (n, placeholder 0x100, flag) (rep_service r))
    /\ (forall n, ~ In (n, placeholder 0x100) (rep_scope r))
    /\ (forall n, ~ In (n, placeholder 0x100) (rep_view r))
    /\ (forall n flag, ~ In (n, placeholder 0x100, flag) (rep_suspect r)).
Proof.
  eexists. eexists.
  split; [vm_compute; reflexivity|].
  split; [lia|].
  split; [vm_compute; left; reflexivity|].
  eapply (X14_an_unnamed_class_is_listed_in_no_section
           no_tables 64 load_class_first_stream);
    [vm_compute; reflexivity|lia].
Defined.

(** X15.  Two class identifiers get the same placeholder name only when
    they are the same identifier, so instances of different unnamed
    classes are never counted together. *)
Theorem X15_different_unnamed_classes_get_different_placeholders :
  forall (a b : Z),
    0 <= a -> 0 <= b ->
    str_eqb (placeholder a) (placeholder b) = (a =? b).
Proof.
  intros a b Ha Hb. destruct (a =? b) eqn:E.
  - apply Z.eqb_eq in E. subst b. apply str_eqb_refl.
  - destruct (str_eqb (placeholder a) (placeholder b)) eqn:E'; [|reflexivity].
    apply str_eqb_eq in E'. apply placeholder_inj in E'; [|exact Ha|exact Hb].
    apply Z.eqb_neq in E. contradiction.
Qed.

Lemma X15_different_unnamed_classes_get_different_placeholders_witness :
  0 <= 0x1f /\ 0 <= 0x20
  /\ str_eqb (placeholder 0x1f) (placeholder 0x20) = (0x1f =? 0x20).
Proof.
  split; [lia|]. split; [lia|].
  apply (X15_different_unnamed_classes_get_different_placeholders 0x1f 0x20);
    lia.
Defined.

(** ** What each kind of record touches *)

Section Frames.

Variable lower_nonascii : pystr -> nat -> pystr.
Variable content : list byte.
Variable id_size : Z.

Lemma moved_refl s : moved s s.
Proof. exists (f_pos s). symmetry. apply set_pos_id. Qed.

Lemma moved_trans s1 s2 s3 : moved s1 s2 -> moved s2 s3 -> moved s1 s3.
Proof.
  intros [p ->] [q ->]. exists q. apply set_pos_set_pos.
Qed.

Lemma read_moved n : preserves moved (read content n).
Proof.
  apply preserves_read_of_pos; [apply moved_refl|].
  intros p s. exists p. reflexivity.
Qed.

Lemma read_u32_moved : preserves moved (read_u32 content).
Proof.
  apply preserves_read_u32; [apply moved_refl|apply moved_trans|apply read_moved].
Qed.

Lemma read_id_moved : preserves moved (read_id content id_size).
Proof.
  apply preserves_read_id; [apply moved_refl|apply moved_trans|apply read_moved].
Qed.

Lemma header_loop_moved fuel header :
  preserves moved (header_loop content fuel header).
Proof.
  apply preserves_header_loop; [apply moved_trans|].
  intros p s. exists p. reflexivity.
Qed.

Lemma moved_frames s s' :
  moved s s' ->
  name_side_kept s s' /\ heap_side_kept s s' /\ counters_kept s s'.
Proof.
  intros [p ->]. unfold name_side_kept, heap_side_kept, counters_kept.
  cbn. tauto.
Qed.

Lemma record_header_done tag_bytes s hd s1 :
  record_header content tag_bytes s = Done (hd, s1) ->
  fst hd = be_value tag_bytes
  /\ exists p, s1 = set_record_count (record_count s + 1) (set_pos p s).
Proof.
  intros H. unfold record_header in H.
  apply bind_done in H as (tag & sa & Ha & H).
  unfold unpack in Ha. destruct (_ =? _)%nat; [|discriminate].
  inversion Ha; subst tag sa; clear Ha.
  apply bind_done in H as (ts & sb & Hb & H). apply read_u32_moved in Hb.
  apply bind_done in H as (len & sc & Hc & H). apply read_u32_moved in Hc.
  apply bind_done in H as ([] & sd & Hd & H).
  inversion Hd; subst sd; clear Hd. inversion H; subst hd s1; clear H.
  destruct (moved_trans _ _ _ Hb Hc) as [p ->].
  split; [reflexivity|]. exists p. reflexivity.
Qed.

(** The heap-dump loop leaves the name side and the counters alone. *)
Lemma heap_loop_name_side fuel end_pos :
  preserves (fun s s' => name_side_kept s s' /\ counters_kept s s')
            (heap_loop lower_nonascii content id_size fuel end_pos).
Proof.
  assert (Hpos : forall p s,
             name_side_kept s (set_pos p s) /\ counters_kept s (set_pos p s)).
  { intros p s. unfold name_side_kept, counters_kept. cbn. tauto. }
  apply preserves_heap_loop.
  - intros s. unfold name_side_kept, counters_kept. tauto.
  - unfold name_side_kept, counters_kept.
    intros s1 s2 s3 H12 H23. intuition congruence.
  - intros n. apply preserves_read_of_pos.
    + intros s. unfold name_side_kept, counters_kept. tauto.
    + exact Hpos.
  - intros v s. unfold name_side_kept, counters_kept. cbn. tauto.
  - intros t o s a s' H. inversion H; subst.
    unfold name_side_kept, counters_kept. cbn. tauto.
  - intros o c s a s' H. rewrite tally_instance_eq in H.
    inversion H; subst a s'; clear H. cbv zeta.
    unfold name_side_kept, counters_kept.
    destruct (classify lower_nonascii (resolve_name s c)) as [[]|]; cbn; tauto.
  - intros s. apply Hpos.
Qed.

Lemma string_record_done len s a s' :
  string_record content id_size len s = Done (a, s') ->
  exists p str_id text,
    s' = set_strings (<[str_id := text]> (strings s)) (set_pos p s).
Proof.
  intros H. unfold string_record in H.
  apply bind_done in H as (str_id & s1 & H1 & H). apply read_id_moved in H1.
  apply bind_done in H as (data & s2 & H2 & H). apply read_moved in H2.
  inversion H; subst a s'; clear H.
  destruct (moved_trans _ _ _ H1 H2) as [p ->].
  exists p, str_id, (utf8_decode data). reflexivity.
Qed.

Lemma load_class_record_moved s a s' :
  load_class_record content id_size s = Done (a, s') ->
  exists p serial class_obj_id name_id,
    s' = register_class serial class_obj_id name_id (set_pos p s).
Proof.
  intros H. unfold load_class_record in H.
  apply bind_done in H as (serial & s1 & H1 & H). apply read_u32_moved in H1.
  apply bind_done in H as (cid & s2 & H2 & H). apply read_id_moved in H2.
  apply bind_done in H as (st & s3 & H3 & H). apply read_u32_moved in H3.
  apply bind_done in H as (nid & s4 & H4 & H). apply read_id_moved in H4.
  inversion H; subst a s'; clear H.
  destruct (moved_trans _ _ _ (moved_trans _ _ _ (moved_trans _ _ _ H1 H2) H3) H4)
    as [p ->].
  exists p, serial, cid, nid. reflexivity.
Qed.

Lemma register_class_frames serial class_obj_id name_id s :
  heap_side_kept s (register_class serial class_obj_id name_id s)
  /\ counters_kept s (register_class serial class_obj_id name_id s)
  /\ strings (register_class serial class_obj_id name_id s) = strings s
  /\ (size (class_id_to_name (register_class serial class_obj_id name_id s))
      <= S (size (class_id_to_name s)))%nat.
Proof.
  unfold register_class, heap_side_kept, counters_kept.
  cbn [strings set_class_names set_class_id_to_serial].
  destruct (strings s !! name_id) as [name|]; cbn.
  - repeat split; try reflexivity.
    destruct (class_id_to_name s !! class_obj_id) eqn:E.
    + rewrite map_size_insert_Some by eauto. lia.
    + rewrite map_size_insert_None by exact E. lia.
  - repeat split; try reflexivity. lia.
Qed.

(** What one record does to the tables, by its tag. *)
Lemma record_body_effect fuel tag_bytes s a s' :
  record_body lower_nonascii content id_size fuel tag_bytes s = Done (a, s') ->
  record_count s' = record_count s + 1
  /\ (if is_heap_tag (be_value tag_bytes)
      then name_side_kept s s' /\ heap_records s' = heap_records s + 1
      else heap_side_kept s s' /\ heap_records s' = heap_records s)
  /\ table_entries s' <= table_entries s + 1.
Proof.
  intros H. unfold record_body in H.
  apply bind_done in H as (hd & s1 & Hh & H).
  apply record_header_done in Hh as (Htag & p & ->).
  rewrite Htag in H. clear Htag. set (tag := be_value tag_bytes) in *.
  unfold record_payload in H. unfold is_heap_tag.
  destruct (tag =? TAG_STRING) eqn:E1.
  { apply Z.eqb_eq in E1. rewrite E1. cbn [TAG_STRING Z.eqb orb Pos.eqb
      TAG_HEAP_DUMP TAG_HEAP_DUMP_SEGMENT].
    apply string_record_done in H as (q & str_id & text & ->).
    unfold heap_side_kept, table_entries. cbn.
    repeat split; try reflexivity.
    destruct (strings s !! str_id) eqn:E.
    - rewrite map_size_insert_Some by eauto. lia.
    - rewrite map_size_insert_None by exact E. lia. }
  destruct (tag =? TAG_LOAD_CLASS) eqn:E2.
  { apply Z.eqb_eq in E2. rewrite E2. cbn [TAG_LOAD_CLASS Z.eqb orb Pos.eqb
      TAG_HEAP_DUMP TAG_HEAP_DUMP_SEGMENT].
    apply load_class_record_moved in H as (q & serial & cid & nid & ->).
    destruct (register_class_frames serial cid nid
                (set_pos q (set_record_count (record_count s + 1) (set_pos p s))))
      as (Hheap & Hcnt & Hstr & Hsize).
    unfold heap_side_kept, counters_kept, table_entries in *.
    rewrite Hstr. cbn in *. intuition (try congruence; try lia). }
  destruct ((tag =? TAG_HEAP_DUMP) || (tag =? TAG_HEAP_DUMP_SEGMENT)) eqn:E3.
  { unfold heap_dump_record in H.
    apply bind_done in H as ([] & sa & Ha & H).
    inversion Ha; subst sa; clear Ha.
    apply bind_done in H as (pos & sb & Hb & H).
    inversion Hb; subst pos sb; clear Hb.
    apply heap_loop_name_side in H as [Hn Hc].
    unfold name_side_kept, counters_kept, table_entries in *. cbn in *.
    destruct Hn as (-> & -> & -> & ->). destruct Hc as [-> ->].
    repeat split; try reflexivity. lia. }
  apply bind_done in H as (bs & sa & Ha & H).
  inversion H; subst a s'; clear H. apply read_moved in Ha as [q ->].
  unfold heap_side_kept, table_entries. cbn.
  repeat split; try reflexivity. lia.
Qed.

Lemma record_loop_counts fuel s a s' :
  record_loop lower_nonascii content id_size fuel s = Done (a, s') ->
  table_entries s' - table_entries s <= record_count s' - record_count s
  /\ heap_records s <= heap_records s'.
Proof.
  revert s. induction fuel as [|k IH]; intros s H; [discriminate|].
  cbn [record_loop] in H.
  apply bind_done in H as (bs & s1 & H1 & H).
  apply read_moved in H1 as [p ->].
  destruct bs as [|b bs].
  - inversion H; subst. unfold table_entries. cbn. lia.
  - apply bind_done in H as ([] & s2 & H2 & H).
    apply record_body_effect in H2 as (Hrc & Hk & Hte).
    apply IH in H as [H Hh].
    assert (heap_records (set_pos p s) <= heap_records s2).
    { destruct (is_heap_tag _); destruct Hk as [_ ->]; lia. }
    unfold table_entries in *. cbn in *. lia.
Qed.

End Frames.

(** X16.  Every record that is decoded to its end adds one to the record
    count.  A HEAP_DUMP or HEAP_DUMP_SEGMENT record adds one to the heap
    record count and leaves the string and class tables as they were;
    every other record leaves the instance counts, the GC roots, the
    four category lists, the super-class table and the heap record count
    as they were. *)
Theorem X16_a_record_changes_only_its_own_tables :
  forall (lower_nonascii : pystr -> nat -> pystr) (content : list byte)
         (id_size : Z) (fuel : nat) (tag_bytes : list byte) (s s' : state),
    record_body lower_nonascii content id_size fuel tag_bytes s
    = Done (tt, s') ->
    record_count s' = record_count s + 1
    /\ (if is_heap_tag (be_value tag_bytes)
        then name_side_kept s s' /\ heap_records s' = heap_records s + 1
        else heap_side_kept s s' /\ heap_records s' = heap_records s).
Proof.
  intros lower_nonascii content id_size fuel tag_bytes s s' H.
  apply record_body_effect in H. tauto.
Qed.

Lemma X16_a_record_changes_only_its_own_tables_witness :
  exists s',
    record_body no_tables (two_instances_stream "a/B") 4 8 [Byte.x0c]
      (set_pos 67 initial_state) = Done (tt, s')
    /\ record_count s' = record_count (set_pos 67 initial_state) + 1
    /\ (if is_heap_tag (be_value [Byte.x0c])
        then name_side_kept (set_pos 67 initial_state) s'
             /\ heap_records s'
                = heap_records (set_pos 67 initial_state) + 1
        else heap_side_kept (set_pos 67 initial_state) s'
             /\ heap_records s' = heap_records (set_pos 67 initial_state)).
Proof.
  eexists.
  refine ((fun H => conj H
             (X16_a_record_changes_only_its_own_tables
                no_tables (two_instances_stream "a/B") 4 8 [Byte.x0c]
                (set_pos 67 initial_state) _ H)) _).
  vm_compute. reflexivity.
Defined.

(** X17.  In the totals of a completed analysis, the number of strings,
    the number of named classes and the number of heap-dump records add
    up to at most the number of records. *)
Theorem X17_the_totals_are_bounded_by_the_record_count :
  forall (lower_nonascii : pystr -> nat -> pystr) (fuel : nat)
         (content : list byte) (r : report) (s : state),
    analyze_hprof lower_nonascii fuel content = Done (r, s) ->
    Z.of_nat (rep_strings r) + Z.of_nat (rep_classes r) + rep_heap_records r
    <= rep_record_count r
    /\ 0 <= rep_heap_records r.
Proof.
  intros lower_nonascii fuel content r s H.
  unfold analyze_hprof in H.
  destruct (decode lower_nonascii content fuel initial_state)
    as [[[[header id_size] timestamp] s0]|e|] eqn:Hd; try discriminate.
  inversion H; subst; clear H.
  unfold decode in Hd.
  apply bind_done in Hd as (hd & s1 & H1 & Hd).
  apply bind_done in Hd as (ids & s2 & H2 & Hd).
  apply bind_done in Hd as (ts & s3 & H3 & Hd).
  apply bind_done in Hd as ([] & s4 & H4 & Hd).
  inversion Hd; subst; clear Hd.
  apply header_loop_moved in H1 as [p1 ->].
  apply read_u32_done in H2 as [-> _]. apply read_u64_done in H3 as [-> _].
  apply record_loop_counts in H4 as [H4 H5].
  rewrite !set_pos_set_pos in H4, H5.
  change (table_entries (set_pos _ initial_state)) with
    (Z.of_nat (size (∅ : gmap Z pystr)) + Z.of_nat (size (∅ : gmap Z pystr)) + 0)
    in H4.
  rewrite map_size_empty in H4.
  change (record_count (set_pos _ initial_state)) with 0 in H4.
  change (heap_records (set_pos _ initial_state)) with 0 in H5.
  unfold table_entries in H4.
  cbn [rep_strings rep_classes rep_heap_records rep_record_count make_report].
  lia.
Qed.

Lemma X17_the_totals_are_bounded_by_the_record_count_witness :
  exists r s,
    analyze_hprof no_tables 64 load_class_first_stream = Done (r, s)
    /\ Z.of_nat (rep_strings r) + Z.of_nat (rep_classes r)
       + rep_heap_records r <= rep_record_count r
    /\ 0 <= rep_heap_records r.
Proof.
  eexists. eexists.
  refine ((fun H => conj H
             (X17_the_totals_are_bounded_by_the_record_count
                no_tables 64 _ _ _ H)) _).
  vm_compute. reflexivity.
Defined.

(** ** The header fields of the report *)

(** X18.  When the analysis of a file completes, the report shows the
    bytes before the first NUL byte, decoded, as the header, the next
    four bytes as the id size and the eight bytes after them as the
    timestamp, both big-endian; the timestamps of the records do not
    replace it. *)
Theorem X18_the_report_shows_the_header_fields_of_the_file :
  forall (lower_nonascii : pystr -> nat -> pystr) (fuel : nat)
         (magic idb tsb rest : list byte) (r : report) (s : state),
    Forall (fun b => b <> Byte.x00) magic ->
    List.length idb = 4%nat ->
    List.length tsb = 8%nat ->
    analyze_hprof lower_nonascii fuel (magic ++ [Byte.x00] ++ idb ++ tsb ++ rest)
    = Done (r, s) ->
    rep_header r = utf8_decode magic
    /\ rep_id_size r = be_value idb
    /\ rep_timestamp r = be_value tsb.
Proof.
  intros lower_nonascii fuel magic idb tsb rest r s Hall Hid Hts H.
  set (content := magic ++ [Byte.x00] ++ idb ++ tsb ++ rest) in *.
  set (fuel' := Nat.max fuel (S (List.length magic))).
  assert (H' : analyze_hprof lower_nonascii fuel' content = Done (r, s)).
  { rewrite (analyze_hprof_fuel_mono lower_nonascii content fuel fuel');
      [exact H|unfold fuel'; lia|rewrite H; discriminate]. }
  unfold analyze_hprof in H'. unfold content in H'.
  rewrite (decode_after_header lower_nonascii magic idb tsb rest fuel'
             Hall Hid Hts ltac:(unfold fuel'; lia)) in H'.
  fold content in H'.
  destruct (bind _ _ _) as [[[[hd i] t] s0]|e|] eqn:Hb; try discriminate.
  inversion H'; subst r s; clear H'.
  apply bind_done in Hb as ([] & s1 & _ & Hb).
  inversion Hb; subst. cbn [rep_header rep_id_size rep_timestamp make_report].
  auto.
Qed.

Lemma X18_the_report_shows_the_header_fields_of_the_file_witness :
  exists r s,
    Forall (fun b => b <> Byte.x00) (ascii_bytes "JAVA")
    /\ List.length (be_bytes 4 4) = 4%nat
    /\ List.length (be_bytes 8 77) = 8%nat
    /\ analyze_hprof no_tables 16
         (ascii_bytes "JAVA" ++ [Byte.x00] ++ be_bytes 4 4 ++ be_bytes 8 77
          ++ hprof_record 0x0E []) = Done (r, s)
    /\ rep_header r = utf8_decode (ascii_bytes "JAVA")
    /\ rep_id_size r = be_value (be_bytes 4 4)
    /\ rep_timestamp r = be_value (be_bytes 8 77).
Proof.
  assert (HF : Forall (fun b => b <> Byte.x00) (ascii_bytes "JAVA")).
  { repeat constructor; discriminate. }
  eexists. eexists.
  split; [exact HF|]. split; [reflexivity|]. split; [reflexivity|].
  refine ((fun H =>
             conj H
               (X18_the_report_shows_the_header_fields_of_the_file
                  no_tables 16 (ascii_bytes "JAVA") (be_bytes 4 4)
                  (be_bytes 8 77) (hprof_record 0x0E []) _ _ HF eq_refl
                  eq_refl H)) _).
  vm_compute. reflexivity.
Defined.

(** ** Sub-records of a heap dump *)

Section SubRecords.

Variable lower_nonascii : pystr -> nat -> pystr.
Variable content : list byte.
Variable id_size : Z.

Lemma quiet_refl s : quiet s s.
Proof. exists (f_pos s), (class_super s). destruct s. reflexivity. Qed.

Lemma quiet_trans s1 s2 s3 : quiet s1 s2 -> quiet s2 s3 -> quiet s1 s3.
Proof. intros (p & v & ->) (q & w & ->). exists q, w. reflexivity. Qed.

Lemma quiet_pos p s : quiet s (set_pos p s).
Proof. exists p, (class_super s). destruct s. reflexivity. Qed.

Lemma quiet_class_super v s : quiet s (set_class_super v s).
Proof. exists (f_pos s), v. destruct s. reflexivity. Qed.

Lemma quiet_read n : preserves quiet (read content n).
Proof. apply preserves_read_of_pos; [apply quiet_refl|apply quiet_pos]. Qed.

Lemma quiet_report s s' header i t :
  quiet s s' -> make_report header i t s' = make_report header i t s.
Proof. intros (p & v & ->). reflexivity. Qed.

Ltac quiet_steps :=
  repeat first
    [ progress intros
    | apply (preserves_read_u8 quiet quiet_refl quiet_trans content quiet_read)
    | apply (preserves_read_u32 quiet quiet_refl quiet_trans content quiet_read)
    | apply (preserves_read_id quiet quiet_refl quiet_trans content id_size
               quiet_read)
    | apply (preserves_class_dump quiet quiet_refl quiet_trans content id_size
               quiet_read quiet_class_super)
    | apply quiet_read
    | apply (preserves_ret quiet quiet_refl)
    | apply preserves_modify; intros; apply quiet_pos
    | apply (preserves_bind quiet quiet_trans) ].

(** Every branch of the chain other than INSTANCE_DUMP and the nine that
    append a root is quiet. *)
Lemma sub_dispatch_quiet end_pos sub_tag :
  ledger_root sub_tag = None -> sub_tag <> SUB_INSTANCE_DUMP ->
  preserves quiet (sub_dispatch lower_nonascii content id_size end_pos sub_tag).
Proof.
  intros Hl Hi. unfold ledger_root in Hl. unfold sub_dispatch, seek.
  repeat match type of Hl with
         | (if ?c then Some _ else _) = None =>
           destruct c; [discriminate|]
         end.
  destruct (sub_tag =? SUB_CLASS_DUMP); [quiet_steps|].
  destruct (sub_tag =? SUB_INSTANCE_DUMP) eqn:E;
    [apply Z.eqb_eq in E; contradiction|].
  repeat match goal with
         | |- preserves _ (if ?c then _ else _) => destruct c
         end; quiet_steps.
Qed.

End SubRecords.

(** X19.  Within a heap dump, only an INSTANCE_DUMP sub-record and the
    nine kinds of root that are appended to the root list can change what
    the report shows: every other sub-record that is decoded to its end
    (CLASS_DUMP, the two array dumps, HEAP_DUMP_INFO, the six skipped
    root kinds, and an unknown sub-tag) changes the cursor and the
    super-class table at most, and the report made from the tables is
    the same before and after it. *)
Theorem X19_other_sub_records_leave_the_report_as_it_was :
  forall (lower_nonascii : pystr -> nat -> pystr) (content : list byte)
         (id_size end_pos sub_tag : Z) (s s1 s' : state) (b : bool),
    read_u8 content s = Done (sub_tag, s1) ->
    ledger_root sub_tag = None ->
    sub_tag <> SUB_INSTANCE_DUMP ->
    sub_record lower_nonascii content id_size end_pos s = Done (b, s') ->
    quiet s s'
    /\ forall header i t,
         make_report header i t s' = make_report header i t s.
Proof.
  intros lower_nonascii content id_size end_pos sub_tag s s1 s' b Hr Hl Hi H.
  assert (Hq : quiet s s').
  { unfold sub_record in H. rewrite (bind_eq_done _ _ _ _ _ Hr) in H.
    apply (sub_dispatch_quiet lower_nonascii content id_size end_pos sub_tag
             Hl Hi) in H.
    apply (preserves_read_u8 quiet quiet_refl quiet_trans content
             (quiet_read content)) in Hr.
    exact (quiet_trans _ _ _ Hr H). }
  split; [exact Hq|]. intros header i t. apply quiet_report. exact Hq.
Qed.

Lemma X19_other_sub_records_leave_the_report_as_it_was_witness :
  exists s',
    read_u8 (bytes_of [0x23; 0; 0; 0; 9; 0; 0; 0; 0; 0; 0; 0; 2; 5; 1; 2; 3; 4])
      initial_state = Done (0x23, set_pos 1 initial_state)
    /\ ledger_root 0x23 = None
    /\ sub_record no_tables
         (bytes_of [0x23; 0; 0; 0; 9; 0; 0; 0; 0; 0; 0; 0; 2; 5; 1; 2; 3; 4])
         4 18 initial_state = Done (true, s')
    /\ quiet initial_state s'
    /\ forall header i t,
         make_report header i t s' = make_report header i t initial_state.
Proof.
  eexists.
  split; [reflexivity|]. split; [reflexivity|].
  refine ((fun H =>
             conj H
               (X19_other_sub_records_leave_the_report_as_it_was
                  no_tables
                  (bytes_of [0x23; 0; 0; 0; 9; 0; 0; 0; 0; 0; 0; 0; 2; 5;
                             1; 2; 3; 4])
                  4 18 0x23 initial_state (set_pos 1 initial_state) _ true
                  eq_refl eq_refl ltac:(discriminate) H)) _).
  vm_compute. reflexivity.
Defined.

(** ** An INSTANCE_DUMP sub-record *)

(** X20.  An INSTANCE_DUMP sub-record whose four fields are present is
    always decoded, whatever follows them: its instance data is skipped
    by the declared length, or up to the end of the file when fewer
    bytes are left, which is accepted without an error.  The instance is
    then tallied under the class id read, which adds exactly one to the
    total of the instance counts, and the loop goes on. *)
Theorem X20_an_instance_is_counted_even_when_its_data_is_cut_short :
  forall (lower_nonascii : pystr -> nat -> pystr)
         (content pre ob ss cb lb rest : list byte)
         (id_size end_pos : Z) (s : state),
    content = pre ++ [Byte.x21] ++ ob ++ ss ++ cb ++ lb ++ rest ->
    f_pos s = Z.of_nat (List.length pre) ->
    Z.of_nat (List.length ob) = id_width id_size ->
    List.length ss = 4%nat ->
    Z.of_nat (List.length cb) = id_width id_size ->
    List.length lb = 4%nat ->
    exists s',
      sub_record lower_nonascii content id_size end_pos s = Done (true, s')
      /\ tally_instance lower_nonascii (be_value ob) (be_value cb)
           (set_pos (f_pos s + 9 + 2 * id_width id_size
                     + Z.min (be_value lb) (Z.of_nat (List.length rest))) s)
         = Done (tt, s')
      /\ counter_total (instance_counts s')
         = counter_total (instance_counts s) + 1.
Proof.
  intros lower_nonascii content pre ob ss cb lb rest id_size end_pos s
         Hc Hp Hob Hss Hcb Hlb.
  assert (Hob' : List.length ob = (if id_size =? 4 then 4%nat else 8%nat)).
  { unfold id_width in Hob. destruct (id_size =? 4); lia. }
  assert (Hcb' : List.length cb = (if id_size =? 4 then 4%nat else 8%nat)).
  { unfold id_width in Hcb. destruct (id_size =? 4); lia. }
  pose proof (be_value_bound lb) as Hlen. rewrite Hlb in Hlen.
  unfold sub_record.
  erewrite bind_eq_done;
    [|apply (read_u8_at content pre [Byte.x21]
               (ob ++ ss ++ cb ++ lb ++ rest));
      [exact Hc|exact Hp|reflexivity]].
  change (be_value [Byte.x21]) with SUB_INSTANCE_DUMP.
  unfold sub_dispatch.
  repeat match goal with
         | |- context [SUB_INSTANCE_DUMP =? ?b] =>
           let v := eval vm_compute in (SUB_INSTANCE_DUMP =? b) in
           change (SUB_INSTANCE_DUMP =? b) with v
         end.
  cbv iota.
  erewrite bind_eq_done;
    [|apply (read_id_at content id_size (pre ++ [Byte.x21]) ob
               (ss ++ cb ++ lb ++ rest));
      [rewrite Hc, <- !app_assoc; reflexivity
      |cbn [f_pos set_pos]; rewrite length_app; cbn [List.length]; lia
      |exact Hob']].
  erewrite bind_eq_done;
    [|apply (read_u32_at content (pre ++ [Byte.x21] ++ ob) ss
               (cb ++ lb ++ rest));
      [rewrite Hc, <- !app_assoc; reflexivity
      |cbn [f_pos set_pos]; rewrite !length_app; cbn [List.length]; lia
      |exact Hss]].
  erewrite bind_eq_done;
    [|apply (read_id_at content id_size (pre ++ [Byte.x21] ++ ob ++ ss) cb
               (lb ++ rest));
      [rewrite Hc, <- !app_assoc; reflexivity
      |cbn [f_pos set_pos]; rewrite !length_app; cbn [List.length]; lia
      |exact Hcb']].
  erewrite bind_eq_done;
    [|apply (read_u32_at content (pre ++ [Byte.x21] ++ ob ++ ss ++ cb) lb rest);
      [rewrite Hc, <- !app_assoc; reflexivity
      |cbn [f_pos set_pos]; rewrite !length_app; cbn [List.length]; lia
      |exact Hlb]].
  rewrite !set_pos_set_pos. cbn [f_pos set_pos].
  set (p := f_pos s + 1 + Z.of_nat (List.length ob) + 4
            + Z.of_nat (List.length cb) + 4).
  pose proof (read_eq content (be_value lb) (set_pos p s) ltac:(lia)) as Hr.
  cbv zeta in Hr. destruct (be_value lb =? -1) eqn:E; [lia|].
  cbn [f_pos set_pos] in Hr.
  replace (Z.to_nat p)
    with (List.length (pre ++ [Byte.x21] ++ ob ++ ss ++ cb ++ lb)) in Hr
    by (unfold p; rewrite !length_app; cbn [List.length]; lia).
  assert (Hd : drop (List.length (pre ++ [Byte.x21] ++ ob ++ ss ++ cb ++ lb))
                 content = rest).
  { replace content
      with ((pre ++ [Byte.x21] ++ ob ++ ss ++ cb ++ lb) ++ rest)
      by (rewrite Hc, <- !app_assoc; reflexivity).
    apply drop_app_length. }
  rewrite Hd in Hr.
  erewrite bind_eq_done; [|exact Hr].
  rewrite set_pos_set_pos, length_take.
  replace (p + Z.of_nat (Nat.min (Z.to_nat (be_value lb)) (List.length rest)))
    with (f_pos s + 9 + 2 * id_width id_size
          + Z.min (be_value lb) (Z.of_nat (List.length rest)))
    by (unfold p; lia).
  rewrite tally_instance_eq.
  erewrite bind_eq_done; [|reflexivity].
  eexists. split; [reflexivity|]. split; [reflexivity|].
  cbv zeta.
  destruct (classify lower_nonascii _) as [[]|];
    cbn [instance_counts set_instance_counts set_activity_instances
         set_service_instances set_scope_instances set_view_instances set_pos];
    apply (counter_total_incr str_eqb).
Qed.

Lemma X20_an_instance_is_counted_even_when_its_data_is_cut_short_witness :
  exists s',
    sub_record no_tables
      ([Byte.x21] ++ be_bytes 4 0x1000 ++ be_bytes 4 0 ++ be_bytes 4 0x100
       ++ be_bytes 4 50 ++ bytes_of [1; 2; 3]) 4 0 initial_state
    = Done (true, s')
    /\ tally_instance no_tables (be_value (be_bytes 4 0x1000))
         (be_value (be_bytes 4 0x100))
         (set_pos (f_pos initial_state + 9 + 2 * id_width 4
                   + Z.min (be_value (be_bytes 4 50))
                       (Z.of_nat (List.length (bytes_of [1; 2; 3]))))
            initial_state)
       = Done (tt, s')
    /\ counter_total (instance_counts s')
       = counter_total (instance_counts initial_state) + 1.
Proof.
  apply (X20_an_instance_is_counted_even_when_its_data_is_cut_short
           no_tables
           ([Byte.x21] ++ be_bytes 4 0x1000 ++ be_bytes 4 0 ++ be_bytes 4 0x100
            ++ be_bytes 4 50 ++ bytes_of [1; 2; 3])
           [] (be_bytes 4 0x1000) (be_bytes 4 0) (be_bytes 4 0x100)
           (be_bytes 4 50) (bytes_of [1; 2; 3]) 4 0 initial_state);
    reflexivity.
Defined.

(** ** Which exceptions the decoder can raise *)

Section Exceptions.

Variable P : pyexn -> Prop.


Lemma yor_raise {A : Type} (Q : A -> Prop) (e : pyexn) :
  P e -> yields_or_raises P Q (@raise A e).
Proof. intros H s. exact H. Qed.



Lemma yor_bind {A B : Type} (Q : A -> Prop) (Q' : B -> Prop)
    (m : M A) (k : A -> M B) :
  yields_or_raises P Q m ->
  (forall a, Q a -> yields_or_raises P Q' (k a)) ->
  yields_or_raises P Q' (bind m k).
Proof.
  intros Hm Hk s. unfold bind. specialize (Hm s).
  destruct (m s) as [[a s']|e|]; [apply (Hk a Hm)|exact Hm|exact I].
Qed.

Lemma yor_weaken {A : Type} (Q Q' : A -> Prop) (m : M A) :
  (forall a, Q a -> Q' a) ->
  yields_or_raises P Q m -> yields_or_raises P Q' m.
Proof.
  intros HQ Hm s. specialize (Hm s).
  destruct (m s) as [[a s']|e|]; auto.
Qed.


Variable content : list byte.

(** A read of a count between [-1] and [2^63 - 1] raises nothing. *)
Lemma yor_read (n : Z) :
  -1 <= n < 2 ^ 63 ->
  yields_or_raises P (fun _ => True) (read content n).
Proof.
  intros Hn s. unfold read.
  replace (n <? -1) with false by (symmetry; apply Z.ltb_ge; lia).
  replace (2 ^ 63 <=? n) with false by (symmetry; apply Z.leb_gt; lia).
  destruct (Z.of_nat (List.length content) <=? f_pos s); exact I.
Qed.

Hypothesis P_struct : P StructError.

Lemma yor_unpack (n : nat) (bs : list byte) :
  yields_or_raises P (fun v => 0 <= v < 256 ^ Z.of_nat n) (unpack n bs).
Proof.
  intros s. unfold unpack. destruct (Nat.eqb _ _) eqn:E.
  - apply Nat.eqb_eq in E. subst n. apply be_value_bound.
  - exact P_struct.
Qed.

Lemma yor_field (n : nat) :
  (n <= 8)%nat ->
  yields_or_raises P (fun v => 0 <= v < 256 ^ Z.of_nat n)
    (bind (read content (Z.of_nat n)) (unpack n)).
Proof.
  intros Hn. eapply yor_bind; [apply yor_read; lia|].
  intros bs _. apply yor_unpack.
Qed.

Lemma yor_read_u8 : yields_or_raises P (fun v => 0 <= v < 2 ^ 8) (read_u8 content).
Proof. apply (yor_field 1). lia. Qed.

Lemma yor_read_u16 :
  yields_or_raises P (fun v => 0 <= v < 2 ^ 16) (read_u16 content).
Proof. apply (yor_field 2). lia. Qed.

Lemma yor_read_u32 :
  yields_or_raises P (fun v => 0 <= v < 2 ^ 32) (read_u32 content).
Proof. apply (yor_field 4). lia. Qed.

Lemma yor_read_u64 :
  yields_or_raises P (fun v => 0 <= v < 2 ^ 64) (read_u64 content).
Proof. apply (yor_field 8). lia. Qed.

Variable lower_nonascii : pystr -> nat -> pystr.
Variable id_size : Z.

Lemma yor_read_id :
  yields_or_raises P (fun v => 0 <= v < 2 ^ 64) (read_id content id_size).
Proof.
  unfold read_id. destruct (id_size =? 4); [|apply yor_read_u64].
  eapply yor_weaken; [|apply yor_read_u32]. cbv beta. lia.
Qed.


(** The identifier size of the header is an unsigned 32-bit value; below
    [2^31] no product of it with an element count reaches [2^63]. *)
Hypothesis id_size_range : 0 <= id_size < 2 ^ 31.

Ltac yor_any :=
  first
    [ eapply yor_weaken; [|apply yor_read_u8]; intros; exact I
    | eapply yor_weaken; [|apply yor_read_u16]; intros; exact I
    | eapply yor_weaken; [|apply yor_read_u32]; intros; exact I
    | eapply yor_weaken; [|apply yor_read_id]; intros; exact I ].







End Exceptions.



(** X22.  A heap dump whose declared length reaches past the end of the
    file does not end quietly there: once the cursor is at or past the
    end of the file and still before the end of the segment, the next
    pass of the segment loop fails with struct.error, so no report is
    printed. *)
Theorem X22_a_segment_that_outruns_the_file_raises_struct_error :
  forall (lower_nonascii : pystr -> nat -> pystr) (content : list byte)
         (id_size end_pos : Z) (fuel : nat) (s : state),
    Z.of_nat (List.length content) <= f_pos s ->
    f_pos s < end_pos ->
    heap_loop lower_nonascii content id_size (S fuel) end_pos s
    = Raise StructError.
Proof.
  intros lower_nonascii content id_size end_pos fuel s Heof Hlt.
  cbn [heap_loop]. apply Z.ltb_lt in Hlt. rewrite Hlt.
  apply bind_eq_raise. unfold sub_record. apply bind_eq_raise.
  unfold read_u8. rewrite (bind_eq_done _ _ _ _ _
                             (read_eof content 1 s ltac:(lia) Heof)).
  reflexivity.
Qed.

Lemma X22_a_segment_that_outruns_the_file_raises_struct_error_witness :
  Z.of_nat (List.length (bytes_of [5; 0; 0; 0; 1])) <= f_pos (set_pos 5 initial_state)
  /\ f_pos (set_pos 5 initial_state) < 9
  /\ heap_loop no_tables (bytes_of [5; 0; 0; 0; 1]) 4 1 9
       (set_pos 5 initial_state) = Raise StructError.
Proof.
  split; [cbn; lia|]. split; [cbn; lia|].
  apply (X22_a_segment_that_outruns_the_file_raises_struct_error no_tables
           (bytes_of [5; 0; 0; 0; 1]) 4 9 0 (set_pos 5 initial_state));
    cbn; lia.
Defined.

(** ** The package section *)

Lemma descending_firstn {K : Type} (n : nat) (l : list (K * Z)) :
  descending l -> descending (firstn n l).
Proof.
  revert n. induction l as [|x l IH]; intros [|n] H; cbn [firstn descending];
    auto.
  destruct H as [Hx Hl]. split; [|apply IH, Hl].
  rewrite Forall_forall in *. intros y Hy. apply Hx.
  apply list_elem_of_In. apply list_elem_of_In in Hy.
  apply (In_firstn_In n l y Hy).
Qed.

(** X23.  Every line of the package section is a counted class whose
    name contains [me/ikate/findmy], with its count; the lines are in
    non-increasing order of count and there are at most 50 of them; when
    at most 50 counted classes contain the package name, each of them
    has a line. *)
Theorem X23_the_package_section_lists_the_classes_of_the_package :
  forall (counts : list (pystr * Z)),
    (forall n name,
        In (n, name) (findmy_rows counts) ->
        In (name, n) counts /\ str_in PACKAGE name = true)
    /\ (List.length (findmy_rows counts) <= 50)%nat
    /\ descending (map (fun '(n, name) => (name, n)) (findmy_rows counts))
    /\ ((List.length
           (List.filter (fun kv => str_in PACKAGE (fst kv)) counts) <= 50)%nat ->
        forall n name,
          In (name, n) counts -> str_in PACKAGE name = true ->
          In (n, name) (findmy_rows counts)).
Proof.
  intros counts. split; [|split; [|split]].
  - intros n name H. apply In_findmy_rows. exact H.
  - unfold findmy_rows. rewrite length_map, length_firstn. lia.
  - unfold findmy_rows. rewrite map_map.
    rewrite (map_ext _ (fun kv => kv)) by (intros [a b]; reflexivity).
    rewrite map_id. apply descending_firstn, sorted_desc_descending.
  - intros Hlen n name Hin Hpkg. unfold findmy_rows.
    rewrite firstn_all2
      by (rewrite (Permutation_length (sorted_desc_perm _)); exact Hlen).
    apply in_map_iff. exists (name, n). split; [reflexivity|].
    rewrite In_sorted_desc. apply filter_In. split; [exact Hin|exact Hpkg].
Qed.
